(** * Agent Architect: the agent execution core

    A shallow embedding of the three TypeScript modules that make up the
    execution core of the backend, and of the router that calls
    it:

      - [ToolExecutor]    (tools/executor.ts)
      - [LLMClient]       (llm/client.ts)
      - [ReActEngine]     (agents/react-engine.ts)
      - [ExecutionsRoute] (the router beside react-engine.ts,
                           [/api/executions])

    Asynchronous code is sequential here: every [await] is a call whose
    outcome is either a value or a thrown [Error], so a [Promise] is
    modelled by its settled result.  JavaScript numbers that count things
    (tokens, milliseconds, iterations) are integers of [Z]; monetary
    amounts and the sampling temperature are binary64 numbers, computed
    with the operations of the standard library's [SpecFloat].  Logger
    calls have no effect on the values computed and are left out. *)

From Stdlib Require Import String Ascii List ZArith Bool Lia Sorted.
From Stdlib Require Import DecimalString SpecFloat.
Import ListNotations.

Set Warnings "-register-all".

Local Open Scope string_scope.
Local Open Scope Z_scope.

(* ===================================================================== *)
(** ** Settled promises and thrown errors *)
(* ===================================================================== *)

(** The outcome of an expression that may throw.  Every value thrown by
    the program is an [Error]; the handlers only ever read its
    [message]. *)
Inductive Result (A : Type) : Type :=
| Ok (a : A)
| Throw (message : string).

Arguments Ok {A} a.
Arguments Throw {A} message.

Module ResultMonad.

Definition bind {A B} (m : Result A) (f : A -> Result B) : Result B :=
  match m with
  | Ok a => f a
  | Throw e => Throw e
  end.

(** [try { m } catch (error) { h error.message }] *)
Definition try_catch {A} (m : Result A) (h : string -> Result A) : Result A :=
  match m with
  | Ok a => Ok a
  | Throw e => h e
  end.

(** [xs.map(f)] where [f] may throw: stops at the first throw. *)
Fixpoint mapM {A B} (f : A -> Result B) (xs : list A) : Result (list B) :=
  match xs with
  | [] => Ok []
  | x :: xs' =>
      bind (f x) (fun y => bind (mapM f xs') (fun ys => Ok (y :: ys)))
  end.

End ResultMonad.

Declare Scope result_scope.
Delimit Scope result_scope with result.
Notation "x <- m ;; k" := (ResultMonad.bind m (fun x => k))
  (at level 61, m at next level, right associativity) : result_scope.

(* ===================================================================== *)
(** ** JavaScript numbers that are not counters *)
(* ===================================================================== *)

Module Binary64.

(** IEEE 754 binary64: 53 bits of precision, infinities at exponent
    1024.  [S754_zero], [S754_infinity], [S754_nan] and [S754_finite]
    are the four kinds of number; [S754_finite s m e] is
    [(-1)^s * m * 2^e]. *)
Definition number : Type := spec_float.

Definition prec : Z := 53.
Definition emax : Z := 1024.

Definition add : number -> number -> number := SFadd prec emax.    (* [x + y] *)
Definition mul : number -> number -> number := SFmul prec emax.    (* [x * y] *)
Definition div : number -> number -> number := SFdiv prec emax.    (* [x / y] *)
Definition leb : number -> number -> bool := SFleb.                (* [x <= y] *)
Definition eqb : number -> number -> bool := SFeqb.                (* [x === y] *)

(** The number nearest to an integer. *)
Definition of_Z (n : Z) : number := binary_normalize prec emax n 0 false.

Definition zero : number := S754_zero false.
Definition NaN : number := S754_nan.

(** The number that the decimal literal for [n / d] denotes, for
    integers [n] and [d] that are numbers themselves: division rounds
    to the nearest number, as reading a literal does. *)
Definition literal (n d : Z) : number := div (of_Z n) (of_Z d).

(** A number in the form in which the operations return it. *)
Definition valid (x : number) : Prop := valid_binary prec emax x = true.

(** [0 <= x], which fails for [NaN]. *)
Definition not_negative (x : number) : Prop := leb zero x = true.

Definition positive_finite (y : number) : Prop :=
  exists m e, y = S754_finite false m e.

(** What rounding returns for a mantissa and an exponent. *)
Definition rounded (mr er : Z) : number :=
  match mr with
  | Z0 => S754_zero false
  | Zpos m => if er <=? emax - prec then S754_finite false m er else S754_infinity false
  | Zneg _ => S754_nan
  end.

End Binary64.

(* ===================================================================== *)
(** ** JavaScript values of type [any] *)
(* ===================================================================== *)

Module JS.

(** The values that travel through parameters of type [any]: tool-call
    arguments, tool payloads and parsed schemas. *)
Inductive value : Type :=
| VUndefined
| VNull
| VBool (b : bool)
| VNum (n : Z)
| VStr (s : string)
| VArr (xs : list value)
| VObj (fields : list (string * value)).

Fixpoint assoc (k : string) (fields : list (string * value)) : option value :=
  match fields with
  | [] => None
  | (k', v) :: rest => if String.eqb k k' then Some v else assoc k rest
  end.

(** [o.k]: reading a property of [undefined] or [null] throws a
    [TypeError]; a missing property reads as [undefined]. *)
Definition get_prop (o : value) (k : string) : Result value :=
  match o with
  | VUndefined =>
      Throw ("Cannot read properties of undefined (reading '" ++ k ++ "')")
  | VNull =>
      Throw ("Cannot read properties of null (reading '" ++ k ++ "')")
  | VObj fields =>
      Ok (match assoc k fields with Some v => v | None => VUndefined end)
  | VStr s =>
      Ok (if String.eqb k "length" then VNum (Z.of_nat (String.length s))
          else VUndefined)
  | VArr xs =>
      Ok (if String.eqb k "length" then VNum (Z.of_nat (List.length xs))
          else VUndefined)
  | VBool _ | VNum _ => Ok VUndefined
  end.

Definition decimal (i : nat) : string :=
  NilZero.string_of_uint (Nat.to_uint i).

(** [o[i]] for a literal index [i]. *)
Definition get_index (o : value) (i : nat) : Result value :=
  match o with
  | VUndefined =>
      Throw ("Cannot read properties of undefined (reading '" ++ decimal i ++ "')")
  | VNull =>
      Throw ("Cannot read properties of null (reading '" ++ decimal i ++ "')")
  | VArr xs => Ok (nth i xs VUndefined)
  | VStr s =>
      Ok (match String.get i s with
          | Some c => VStr (String c EmptyString)
          | None => VUndefined
          end)
  | VObj fields =>
      Ok (match assoc (decimal i) fields with Some v => v | None => VUndefined end)
  | VBool _ | VNum _ => Ok VUndefined
  end.

(** Truthiness, as tested by [!x], [x || d] and [x ? a : b]. *)
Definition truthy (v : value) : bool :=
  match v with
  | VUndefined | VNull => false
  | VBool b => b
  | VNum n => negb (n =? 0)
  | VStr s => negb (String.eqb s "")
  | VArr _ | VObj _ => true
  end.

Definition string_of_Z (n : Z) : string :=
  NilZero.string_of_int (Z.to_int n).

(** *** Numbers as strings

    [VNum n] is the number nearest to the integer [n], which is [n]
    itself up to [2^53].  [Number::toString] prints the shortest
    decimal that reads back as the same number: below [2^53] these are
    the digits of the integer; above, [k] significant digits followed
    by zeros, or by an exponent from [1e+21] on. *)

Definition decimal_of (n : Z) : string :=
  NilZero.string_of_uint (N.to_uint (Z.to_N n)).

(** [shortest fuel k d v x]: the digits [s] and the exponent [n] such
    that [s * 10^(n - k')], with [k'] digits in [s] and [k <= k'], reads
    back as [x], for the least such [k'] and the [s] nearest to [v];
    [v] is the value of [x] and has [d] digits. *)
Fixpoint shortest (fuel : nat) (k d v : Z) (x : Binary64.number) : Z * Z :=
  match fuel with
  | O => (v, d)
  | S fuel' =>
      let p := 10 ^ (d - k) in
      let lo := v / p in
      let hi := lo + 1 in
      let pick c := if c =? 10 ^ k then (10 ^ (k - 1), d + 1) else (c, d) in
      let nearer_hi :=
        (hi * p - v <? v - lo * p)
        || ((hi * p - v =? v - lo * p) && Z.even hi) in
      match Binary64.eqb (Binary64.of_Z (lo * p)) x,
            Binary64.eqb (Binary64.of_Z (hi * p)) x with
      | true, true => if nearer_hi then pick hi else pick lo
      | true, false => pick lo
      | false, true => pick hi
      | false, false => shortest fuel' (k + 1) d v x
      end
  end.

Fixpoint zeros (n : nat) : string :=
  match n with
  | O => ""
  | S n' => "0" ++ zeros n'
  end.

(** The string of a positive number whose value is the integer [v]. *)
Definition magnitude_to_string (v : Z) : string :=
  if v <? 2 ^ 53 then decimal_of v
  else
    let d := Z.of_nat (String.length (decimal_of v)) in
    let '(s, n) := shortest 17 1 d v (Binary64.of_Z v) in
    let digits := decimal_of s in
    let k := Z.of_nat (String.length digits) in
    if n <=? 21 then digits ++ zeros (Z.to_nat (n - k))
    else
      match digits with
      | String c rest =>
          String c (if String.eqb rest "" then "" else "." ++ rest)
          ++ "e+" ++ decimal_of (n - 1)
      | EmptyString => ""
      end.

Definition number_to_string (n : Z) : string :=
  match Binary64.of_Z n with
  | S754_zero _ => "0"
  | S754_infinity s => if s then "-Infinity" else "Infinity"
  | S754_nan => "NaN"
  | S754_finite s m e =>
      (if s then "-" else "") ++ magnitude_to_string (Z.shiftl (Zpos m) e)
  end.

Section Join.

Variable convert : value -> Result string.

(** The strings that [Array.prototype.join] makes of the elements of
    an array, from left to right: the empty string for [undefined] and
    [null], and the conversion of any other element. *)
Fixpoint elements (xs : list value) : Result (list string) :=
  match xs with
  | [] => Ok []
  | x :: rest =>
      match
        match x with
        | VUndefined | VNull => Ok ""
        | _ => convert x
        end
      with
      | Ok s =>
          match elements rest with
          | Ok ss => Ok (s :: ss)
          | Throw e => Throw e
          end
      | Throw e => Throw e
      end
  end.

End Join.

(** Interpolation [`${v}`] in a template literal: the conversion to a
    string.  An object is converted by its [toString] method; the one
    it inherits gives ['[object Object]'] and the one of an array joins
    the elements.  A value of this type holds no function, so that an
    own property named [toString] hides the inherited method with
    something that cannot be called; [valueOf], tried next, returns
    the object itself; and the conversion throws a [TypeError]. *)
Fixpoint to_string (v : value) : Result string :=
  match v with
  | VUndefined => Ok "undefined"
  | VNull => Ok "null"
  | VBool true => Ok "true"
  | VBool false => Ok "false"
  | VNum n => Ok (number_to_string n)
  | VStr s => Ok s
  | VArr xs =>
      match elements to_string xs with
      | Ok ss => Ok (String.concat "," ss)
      | Throw e => Throw e
      end
  | VObj fields =>
      match assoc "toString" fields with
      | Some _ => Throw "Cannot convert object to primitive value"
      | None => Ok "[object Object]"
      end
  end.

(** *** Object literals

    The properties of an object are listed with the keys that are
    array indices first, in ascending order, and the other keys after
    them, in the order in which they were created. *)

(** The array index that a key is: a canonical numeric string below
    [2^32 - 1]. *)
Definition array_index (k : string) : option N :=
  match NilZero.uint_of_string k with
  | Some u =>
      let i := N.of_uint u in
      if String.eqb (NilZero.string_of_uint (N.to_uint i)) k && (i <? 4294967295)%N
      then Some i
      else None
  | None => None
  end.

(** Creating the property [k], an array index [i], among [fields]. *)
Fixpoint insert_index (i : N) (k : string) (v : value) (fields : list (string * value))
  : list (string * value) :=
  match fields with
  | [] => [(k, v)]
  | (k', v') :: rest =>
      match array_index k' with
      | Some j =>
          if (i <? j)%N then (k, v) :: fields
          else (k', v') :: insert_index i k v rest
      | None => (k, v) :: fields
      end
  end.

Fixpoint has_prop (k : string) (fields : list (string * value)) : bool :=
  match fields with
  | [] => false
  | (k', _) :: rest => String.eqb k k' || has_prop k rest
  end.

Fixpoint replace_prop (k : string) (v : value) (fields : list (string * value))
  : list (string * value) :=
  match fields with
  | [] => []
  | (k', v') :: rest =>
      if String.eqb k k' then (k, v) :: rest else (k', v') :: replace_prop k v rest
  end.

(** Writing one property of an object literal: a property that exists
    keeps its place. *)
Definition set_prop (k : string) (v : value) (fields : list (string * value))
  : list (string * value) :=
  if has_prop k fields then replace_prop k v fields
  else
    match array_index k with
    | Some i => insert_index i k v fields
    | None => fields ++ [(k, v)]
    end.

Fixpoint indexed {A} (f : A -> value) (i : nat) (xs : list A)
  : list (string * value) :=
  match xs with
  | [] => []
  | x :: xs' => (decimal i, f x) :: indexed f (S i) xs'
  end.

(** The own enumerable properties copied by [{ ...o }]. *)
Definition own_properties (o : value) : list (string * value) :=
  match o with
  | VObj fields => fields
  | VArr xs => indexed (fun x => x) 0 xs
  | VStr s => indexed (fun c => VStr (String c EmptyString)) 0 (list_ascii_of_string s)
  | VUndefined | VNull | VBool _ | VNum _ => []
  end.

Definition spread (base : list (string * value)) (o : value)
  : list (string * value) :=
  fold_left (fun acc kv => set_prop (fst kv) (snd kv) acc) (own_properties o) base.

(** The [JSON] built-in.  [JSON.parse] throws a [SyntaxError] on text
    that is not JSON. *)
Record JSON_builtin : Type := {
  JSON_parse : string -> Result value;
  JSON_stringify : value -> string
}.

End JS.

Import JS.

(* ===================================================================== *)
(** ** tools/executor.ts *)
(* ===================================================================== *)

Module ToolExecutor.

Record ToolResult : Type := {
  success : bool;
  data : option value;
  error : option string
}.

(** What [fetch] resolves to, as far as the executor reads it. *)
Record Response : Type := {
  ok : bool;
  status : Z;
  statusText : string;
  text : Result string;       (* [await response.text()] *)
  json : Result value         (* [await response.json()] *)
}.

(** The platform under the executor: the process environment, the
    network and the [JSON] built-in. *)
Record Platform : Type := {
  PERPLEXITY_API_KEY : option string;
  fetch : value -> value -> Result Response;
  JSON : JSON_builtin
}.

(** The names dispatched by the [switch] of [execute]. *)
Definition registry : list string :=
  ["web_search"; "send_email"; "database_query"; "http_request"; "slack_notify"].

Definition failure (message : string) : ToolResult :=
  {| success := false; data := None; error := Some message |}.

Section WithPlatform.

Variable P : Platform.

Local Open Scope result_scope.

Definition webSearch (query : value) : Result ToolResult :=
  ResultMonad.try_catch
    (match PERPLEXITY_API_KEY P with
     | None | Some EmptyString =>
         Ok {| success := true;
               data := Some (VObj
                 [("query", query);
                  ("results", VArr
                     [VObj
                        [("title", VStr "Search functionality requires Perplexity API key");
                         ("snippet", VStr "Please configure PERPLEXITY_API_KEY in your environment variables");
                         ("url", VStr "https://docs.perplexity.ai/")]])]);
               error := None |}
     | Some perplexityApiKey =>
         response <- fetch P (VStr "https://api.perplexity.ai/chat/completions")
           (VObj
              [("method", VStr "POST");
               ("headers", VObj
                  [("Authorization", VStr ("Bearer " ++ perplexityApiKey));
                   ("Content-Type", VStr "application/json")]);
               ("body", VStr (JSON_stringify (JSON P) (VObj
                  [("model", VStr "sonar");
                   ("messages", VArr
                      [VObj [("role", VStr "user"); ("content", query)]])])))]) ;;
         if negb (ok response)
         then Throw ("Perplexity API error: " ++ statusText response)
         else
           data <- json response ;;
           choices <- get_prop data "choices" ;;
           choice <- get_index choices 0 ;;
           message <- get_prop choice "message" ;;
           searchResults <- get_prop message "content" ;;
           citations <- get_prop data "citations" ;;
           Ok {| success := true;
                 data := Some (VObj
                   [("query", query);
                    ("answer", searchResults);
                    ("sources", if truthy citations then citations else VArr [])]);
                 error := None |}
     end)
    (fun message => Ok (failure message)).

Definition sendEmail (to subject body : value) : Result ToolResult :=
  recipient <- to_string to ;;
  Ok {| success := true;
        data := Some (VObj
          [("message", VStr ("Email queued to " ++ recipient));
           ("to", to);
           ("subject", subject)]);
        error := None |}.

Definition databaseQuery (query : value) : Result ToolResult :=
  Ok {| success := true;
        data := Some (VObj
          [("message", VStr "Database query execution requires proper configuration");
           ("query", query)]);
        error := None |}.

Definition httpRequest (args : value) : Result ToolResult :=
  ResultMonad.try_catch
    (url <- get_prop args "url" ;;
     method <- get_prop args "method" ;;
     headers <- get_prop args "headers" ;;
     body <- get_prop args "body" ;;
     response <- fetch P url
       (VObj
          [("method", method);
           ("headers", VObj (spread [("Content-Type", VStr "application/json")] headers));
           ("body", if truthy body then VStr (JSON_stringify (JSON P) body) else VUndefined)]) ;;
     data <- text response ;;
     Ok {| success := ok response;
           data := Some (VObj
             [("status", VNum (status response));
              ("statusText", VStr (statusText response));
              ("body", VStr data)]);
           error := None |})
    (fun message => Ok (failure message)).

Definition slackNotify (channel message : value) : Result ToolResult :=
  name <- to_string channel ;;
  Ok {| success := true;
        data := Some (VObj
          [("message", VStr ("Notification queued for channel " ++ name));
           ("channel", channel)]);
        error := None |}.

(** [ToolExecutor.execute]: the [switch] inside [try], and the
    [catch] that turns whatever was thrown into a failed result. *)
Definition execute (toolName : string) (args : value) : Result ToolResult :=
  ResultMonad.try_catch
    (if String.eqb toolName "web_search" then
       query <- get_prop args "query" ;;
       webSearch query
     else if String.eqb toolName "send_email" then
       to <- get_prop args "to" ;;
       subject <- get_prop args "subject" ;;
       body <- get_prop args "body" ;;
       sendEmail to subject body
     else if String.eqb toolName "database_query" then
       query <- get_prop args "query" ;;
       databaseQuery query
     else if String.eqb toolName "http_request" then
       httpRequest args
     else if String.eqb toolName "slack_notify" then
       channel <- get_prop args "channel" ;;
       message <- get_prop args "message" ;;
       slackNotify channel message
     else
       Throw ("Unknown tool: " ++ toolName))
    (fun message => Ok (failure message)).

End WithPlatform.

End ToolExecutor.


(* ===================================================================== *)
(** ** llm/client.ts *)
(* ===================================================================== *)

Module LLMClient.

(** [Message.role] *)
Inductive Role : Type := system | user | assistant | function.

Definition Role_eqb (a b : Role) : bool :=
  match a, b with
  | system, system | user, user | assistant, assistant | function, function => true
  | _, _ => false
  end.

Record Message : Type := {
  role : Role;
  content : string;
  name : option string
}.

(** One element of [LLMResponse.toolCalls]. *)
Record ToolCall : Type := {
  id : string;
  toolName : string;            (* [name] *)
  arguments : value
}.

Record Usage : Type := {
  promptTokens : Z;
  completionTokens : Z;
  totalTokens : Z
}.

Record LLMResponse : Type := {
  responseContent : string;     (* [content] *)
  toolCalls : option (list ToolCall);
  usage : Usage;
  responseModel : string        (* [model] *)
}.

(** The [options] argument of [chat]; an absent field is [None]. *)
Record ChatOptions : Type := {
  model : option string;
  tools : option (list value);
  temperature : option Binary64.number;
  maxTokens : option Z
}.

(** *** The OpenAI SDK, as far as [chatOpenAI] touches it *)

Record OpenAIToolCall : Type := {
  call_id : string;             (* [tc.id] *)
  function_name : string;       (* [tc.function.name] *)
  function_arguments : string   (* [tc.function.arguments] *)
}.

Record OpenAIChoice : Type := {
  message_content : option string;                  (* [string | null] *)
  message_tool_calls : option (list OpenAIToolCall)
}.

Record OpenAIUsage : Type := {
  prompt_tokens : Z;
  completion_tokens : Z;
  total_tokens : Z
}.

Record ChatCompletion : Type := {
  choices : list OpenAIChoice;
  completion_usage : option OpenAIUsage;            (* [usage?] *)
  completion_model : string
}.

Record ChatCompletionParams : Type := {
  openai_model : string;
  openai_messages : list Message;
  openai_tools : option (list value);
  openai_temperature : Binary64.number;
  openai_max_tokens : Z
}.

(** *** The Anthropic SDK, as far as [chatAnthropic] touches it *)

Inductive ContentBlock : Type :=
| text_block (text : string)
| tool_use_block (block_id block_name : string) (input : value)
| other_block.

Record AnthropicUsage : Type := {
  input_tokens : Z;
  output_tokens : Z
}.

Record AnthropicMessage : Type := {
  message_blocks : list ContentBlock;               (* [response.content] *)
  message_usage : AnthropicUsage;
  message_model : string
}.

(** One entry of the [messages] field sent to Anthropic: the object
    literal [{ role, content }]. *)
Record MessageParam : Type := {
  param_role : Role;
  param_content : string
}.

Record AnthropicTool : Type := {
  tool_name : value;
  tool_description : value;
  input_schema : value
}.

Record MessageCreateParams : Type := {
  anthropic_model : string;
  anthropic_system : string;
  anthropic_messages : list MessageParam;
  anthropic_tools : option (list AnthropicTool);
  anthropic_temperature : Binary64.number;
  anthropic_max_tokens : Z
}.

(** The two provider endpoints and the configuration read by [chat].
    The [nat] is the number of requests already sent by this client, so
    that a provider may answer successive turns differently. *)
Record Providers : Type := {
  openai_chat_completions_create : nat -> ChatCompletionParams -> Result ChatCompletion;
  anthropic_messages_create : nat -> MessageCreateParams -> Result AnthropicMessage;
  JSON : JSON_builtin;
  config_execution_defaultModel : string
}.

Section WithProviders.

Variable P : Providers.

Local Open Scope result_scope.

Definition chatOpenAI (turn : nat) (messages : list Message)
  (model : string) (tools : list value) (temperature : Binary64.number) (maxTokens : Z)
  : Result LLMResponse :=
  response <- openai_chat_completions_create P turn
    {| openai_model := model;
       openai_messages := messages;
       openai_tools := if (0 <? List.length tools)%nat then Some tools else None;
       openai_temperature := temperature;
       openai_max_tokens := maxTokens |} ;;
  match choices response with
  | [] => Throw "Cannot read properties of undefined (reading 'message')"
  | choice :: _ =>
      toolCalls <-
        match message_tool_calls choice with
        | None => Ok None
        | Some tcs =>
            calls <- ResultMonad.mapM
              (fun tc =>
                 args <- JSON_parse (JSON P) (function_arguments tc) ;;
                 Ok {| id := call_id tc;
                       toolName := function_name tc;
                       arguments := args |}) tcs ;;
            Ok (Some calls)
        end ;;
      Ok {| responseContent :=
              match message_content choice with
              | Some s => s          (* [s || ''] is [s], also for [s = ''] *)
              | None => ""
              end;
            toolCalls := toolCalls;
            usage :=
              {| promptTokens :=
                   match completion_usage response with
                   | Some u => prompt_tokens u | None => 0 end;
                 completionTokens :=
                   match completion_usage response with
                   | Some u => completion_tokens u | None => 0 end;
                 totalTokens :=
                   match completion_usage response with
                   | Some u => total_tokens u | None => 0 end |};
            responseModel := completion_model response |}
  end.

(** [messages.find((m) => m.role === 'system')?.content || ''] *)
Definition systemMessage (messages : list Message) : string :=
  match List.find (fun m => Role_eqb (role m) system) messages with
  | Some m => content m
  | None => ""
  end.

(** [messages.filter(...).map(...)] *)
Definition userMessages (messages : list Message) : list MessageParam :=
  map (fun m =>
         {| param_role := if Role_eqb (role m) assistant then assistant else user;
            param_content := content m |})
      (filter (fun m => negb (Role_eqb (role m) system)) messages).

Definition anthropicTools (tools : list value) : Result (list AnthropicTool) :=
  ResultMonad.mapM
    (fun t =>
       f <- get_prop t "function" ;;
       n <- get_prop f "name" ;;
       d <- get_prop f "description" ;;
       p <- get_prop f "parameters" ;;
       Ok {| tool_name := n; tool_description := d; input_schema := p |})
    tools.

Definition is_text (c : ContentBlock) : bool :=
  match c with text_block _ => true | _ => false end.

Definition is_tool_use (c : ContentBlock) : bool :=
  match c with tool_use_block _ _ _ => true | _ => false end.

Definition chatAnthropic (turn : nat) (messages : list Message)
  (model : string) (tools : list value) (temperature : Binary64.number) (maxTokens : Z)
  : Result LLMResponse :=
  tools' <- anthropicTools tools ;;
  response <- anthropic_messages_create P turn
    {| anthropic_model := model;
       anthropic_system := systemMessage messages;
       anthropic_messages := userMessages messages;
       anthropic_tools := if (0 <? List.length tools')%nat then Some tools' else None;
       anthropic_temperature := temperature;
       anthropic_max_tokens := maxTokens |} ;;
  let textContent := List.find is_text (message_blocks response) in
  let toolUseContent := filter is_tool_use (message_blocks response) in
  let toolCalls :=
    flat_map (fun tc =>
                match tc with
                | tool_use_block i n a => [{| id := i; toolName := n; arguments := a |}]
                | _ => []
                end) toolUseContent in
  Ok {| responseContent :=
          match textContent with
          | Some (text_block t) => t
          | _ => ""
          end;
        toolCalls := if (0 <? List.length toolCalls)%nat then Some toolCalls else None;
        usage :=
          {| promptTokens := input_tokens (message_usage response);
             completionTokens := output_tokens (message_usage response);
             totalTokens :=
               input_tokens (message_usage response)
               + output_tokens (message_usage response) |};
        responseModel := message_model response |}.

(** [LLMClient.chat]: the defaults of the destructured options, then
    routing on the prefix of the model identifier.  Its [catch] logs
    and rethrows, which leaves the outcome as it is. *)
Definition chat (turn : nat) (messages : list Message) (options : ChatOptions)
  : Result LLMResponse :=
  let model := match model options with
               | Some m => m | None => config_execution_defaultModel P end in
  let tools := match tools options with Some t => t | None => [] end in
  let temperature := match temperature options with
                     | Some t => t | None => Binary64.literal 7 10 end in   (* 0.7 *)
  let maxTokens := match maxTokens options with Some n => n | None => 4096 end in
  if String.prefix "gpt-" model || String.prefix "o1-" model then
    chatOpenAI turn messages model tools temperature maxTokens
  else if String.prefix "claude-" model then
    chatAnthropic turn messages model tools temperature maxTokens
  else
    Throw ("Unsupported model: " ++ model).

End WithProviders.

End LLMClient.


(* ===================================================================== *)
(** ** agents/react-engine.ts *)
(* ===================================================================== *)

Module ReActEngine.

(** [ExecutionStep.stepType]: ['reasoning' | 'action' | 'observation' | 'final'] *)
Inductive StepType : Type := Reasoning | Action | Observation | Final.

(** [ExecutionResult.status]: ['success' | 'error' | 'timeout' | 'max_iterations'] *)
Inductive Status : Type := Success | Error | Timeout | MaxIterations.

Definition Status_eqb (a b : Status) : bool :=
  match a, b with
  | Success, Success | Error, Error | Timeout, Timeout
  | MaxIterations, MaxIterations => true
  | _, _ => false
  end.

Record ExecutionStep : Type := {
  stepNumber : Z;
  stepType : StepType;
  reasoning : option string;
  action : option (string * value);     (* [{ tool, arguments }] *)
  observation : option string;
  timestamp : Z
}.

Record ExecutionResult : Type := {
  executionId : string;
  status : Status;
  output : string;
  steps : list ExecutionStep;
  tokensUsed : Z;
  cost : Binary64.number;
  executionTimeMs : Z;
  error : option string
}.

(** One element of [AgentConfig.tools]: [{ id, name, schema }]. *)
Record AttachedTool : Type := {
  tool_id : string;
  tool_name : string;
  schema : string
}.

Record AgentConfig : Type := {
  id : string;
  systemPrompt : string;
  model : string;
  maxIterations : Z;
  timeoutSeconds : Z;
  tools : list AttachedTool
}.

(** *** The price table *)

Record Rates : Type := {
  rate_input : Binary64.number;       (* [input] *)
  rate_output : Binary64.number       (* [output] *)
}.

(** [{ input: a / 1000, output: b / 1000 }], for the literals [a] and
    [b] written as fractions of integers. *)
Definition per_thousand (a b : Z * Z) : Rates :=
  {| rate_input :=
       Binary64.div (Binary64.literal (fst a) (snd a)) (Binary64.of_Z 1000);
     rate_output :=
       Binary64.div (Binary64.literal (fst b) (snd b)) (Binary64.of_Z 1000) |}.

Definition TOKEN_COSTS : list (string * Rates) :=
  [ ("gpt-4-turbo-preview", per_thousand (1, 100) (3, 100));        (* 0.01, 0.03 *)
    ("gpt-4", per_thousand (3, 100) (6, 100));                      (* 0.03, 0.06 *)
    ("gpt-3.5-turbo", per_thousand (5, 10000) (15, 10000));         (* 0.0005, 0.0015 *)
    ("claude-3-opus-20240229", per_thousand (15, 1000) (75, 1000)); (* 0.015, 0.075 *)
    ("claude-3-sonnet-20240229", per_thousand (3, 1000) (15, 1000)); (* 0.003, 0.015 *)
    ("claude-3-haiku-20240307",
      per_thousand (25, 100000) (125, 100000)) ].                   (* 0.00025, 0.00125 *)

Definition default_rates : Rates := per_thousand (1, 100) (3, 100).

Fixpoint table_lookup (model : string) (table : list (string * Rates))
  : option Rates :=
  match table with
  | [] => None
  | (m, r) :: rest => if String.eqb model m then Some r else table_lookup model rest
  end.

(** The members that the table inherits from [Object.prototype]. *)
Definition Object_prototype_members : list string :=
  [ "constructor"; "__defineGetter__"; "__defineSetter__"; "hasOwnProperty";
    "__lookupGetter__"; "__lookupSetter__"; "isPrototypeOf";
    "propertyIsEnumerable"; "toString"; "valueOf"; "__proto__";
    "toLocaleString" ].

(** What [costs] is bound to: a pair of rates, or a member inherited
    by the table, which is truthy and has neither [input] nor
    [output]. *)
Inductive Costs : Type :=
| rates (r : Rates)
| inherited_member.

(** [TOKEN_COSTS[model] || { input: 0.01 / 1000, output: 0.03 / 1000 }] *)
Definition costs_of (model : string) : Costs :=
  match table_lookup model TOKEN_COSTS with
  | Some r => rates r
  | None =>
      if existsb (String.eqb model) Object_prototype_members
      then inherited_member
      else rates default_rates
  end.

(** [costs.input] and [costs.output] as factors of a product:
    [undefined] is [NaN] there. *)
Definition input_of (costs : Costs) : Binary64.number :=
  match costs with
  | rates r => rate_input r
  | inherited_member => Binary64.NaN
  end.

Definition output_of (costs : Costs) : Binary64.number :=
  match costs with
  | rates r => rate_output r
  | inherited_member => Binary64.NaN
  end.

Definition calculateCost (model : string) (promptTokens completionTokens : Z)
  : Binary64.number :=
  let costs := costs_of model in
  Binary64.add
    (Binary64.mul (Binary64.of_Z promptTokens) (input_of costs))
    (Binary64.mul (Binary64.of_Z completionTokens) (output_of costs)).

(** *** The collaborators of the engine *)

(** The statements sent through [db.query], with their parameters. *)
Inductive Query : Type :=
| insert_execution (execution_id agent_id user_id input : string)
| insert_execution_log (execution_id : string) (step_number : Z)
    (step_type : StepType) (reasoning : option string) (action : option string)
| update_execution (output : string) (status : Status)
    (iterations tokens_used : Z) (cost_usd : Binary64.number) (execution_time_ms : Z)
    (execution_id : string)
| insert_usage_tracking (user_id execution_id : string) (tokens_used : Z)
    (cost_usd : Binary64.number)
| update_execution_error (error_message : string) (execution_time_ms : Z)
    (execution_id : string).

(** Everything [execute] calls and does not define.  Each oracle is
    indexed by the number of earlier calls of its kind, so that it may
    answer differently from one call to the next.

    - [db_query n q] is [Some m] when the [n+1]-th statement [q] is
      rejected with [Error(m)], and [None] when it is accepted;
    - [toolExecutor_execute] stands for any implementation of the
      executor interface, [ToolExecutor.execute] included. *)
Record Host : Type := {
  uuidv4 : string;
  Date_now : nat -> Z;
  db_query : nat -> Query -> option string;
  JSON : JSON_builtin;
  openai_chat_completions_create :
    nat -> LLMClient.ChatCompletionParams -> Result LLMClient.ChatCompletion;
  anthropic_messages_create :
    nat -> LLMClient.MessageCreateParams -> Result LLMClient.AnthropicMessage;
  config_execution_defaultModel : string;
  toolExecutor_execute : nat -> string -> value -> Result ToolExecutor.ToolResult
}.

Definition llmClient (H : Host) : LLMClient.Providers :=
  {| LLMClient.openai_chat_completions_create := openai_chat_completions_create H;
     LLMClient.anthropic_messages_create := anthropic_messages_create H;
     LLMClient.JSON := JSON H;
     LLMClient.config_execution_defaultModel := config_execution_defaultModel H |}.

(** *** The state threaded through [execute] *)

(** What has been asked of the collaborators so far. *)
Record World : Type := {
  clock_reads : nat;                        (* calls of [Date.now()] / [new Date()] *)
  queries : list Query;                     (* statements sent, oldest first *)
  chats : nat;                              (* calls of [llmClient.chat] *)
  invocations : list (string * value)       (* calls of [toolExecutor.execute] *)
}.

(** The local variables of [execute] that are assigned after their
    declaration. *)
Record Vars : Type := {
  cur_steps : list ExecutionStep;           (* [steps] *)
  totalTokensUsed : Z;
  totalCost : Binary64.number;
  messages : list LLMClient.Message;
  iteration : Z;
  finalAnswer : string;
  cur_status : Status                       (* [status] *)
}.

Record State : Type := {
  world : World;
  vars : Vars
}.

Definition initial_state : State :=
  {| world := {| clock_reads := 0; queries := []; chats := 0; invocations := [] |};
     vars := {| cur_steps := []; totalTokensUsed := 0; totalCost := Binary64.zero;
                messages := []; iteration := 0; finalAnswer := "";
                cur_status := Success |} |}.

Definition on_world (f : World -> World) (s : State) : State :=
  {| world := f (world s); vars := vars s |}.

Definition on_vars (f : Vars -> Vars) (s : State) : State :=
  {| world := world s; vars := f (vars s) |}.

Definition push_step (st : ExecutionStep) (v : Vars) : Vars :=
  {| cur_steps := cur_steps v ++ [st];
     totalTokensUsed := totalTokensUsed v; totalCost := totalCost v;
     messages := messages v; iteration := iteration v;
     finalAnswer := finalAnswer v; cur_status := cur_status v |}.

Definition add_usage (tokens : Z) (amount : Binary64.number) (v : Vars) : Vars :=
  {| cur_steps := cur_steps v;
     totalTokensUsed := totalTokensUsed v + tokens;
     totalCost := Binary64.add (totalCost v) amount;
     messages := messages v; iteration := iteration v;
     finalAnswer := finalAnswer v; cur_status := cur_status v |}.

Definition set_messages (ms : list LLMClient.Message) (v : Vars) : Vars :=
  {| cur_steps := cur_steps v;
     totalTokensUsed := totalTokensUsed v; totalCost := totalCost v;
     messages := ms; iteration := iteration v;
     finalAnswer := finalAnswer v; cur_status := cur_status v |}.

Definition push_message (m : LLMClient.Message) (v : Vars) : Vars :=
  set_messages (messages v ++ [m]) v.

Definition increment_iteration (v : Vars) : Vars :=
  {| cur_steps := cur_steps v;
     totalTokensUsed := totalTokensUsed v; totalCost := totalCost v;
     messages := messages v; iteration := iteration v + 1;
     finalAnswer := finalAnswer v; cur_status := cur_status v |}.

Definition set_finalAnswer (a : string) (v : Vars) : Vars :=
  {| cur_steps := cur_steps v;
     totalTokensUsed := totalTokensUsed v; totalCost := totalCost v;
     messages := messages v; iteration := iteration v;
     finalAnswer := a; cur_status := cur_status v |}.

Definition set_status (st : Status) (v : Vars) : Vars :=
  {| cur_steps := cur_steps v;
     totalTokensUsed := totalTokensUsed v; totalCost := totalCost v;
     messages := messages v; iteration := iteration v;
     finalAnswer := finalAnswer v; cur_status := st |}.

(** *** State and exceptions

    A computation takes the state and gives an outcome together with
    the state it leaves behind: assignments made before a [throw] stay
    made, which is what the [catch] block of [execute] relies on. *)
Definition M (A : Type) : Type := State -> Result A * State.

Definition ret {A} (a : A) : M A := fun s => (Ok a, s).

Definition bind {A B} (m : M A) (f : A -> M B) : M B :=
  fun s =>
    match m s with
    | (Ok a, s') => f a s'
    | (Throw e, s') => (Throw e, s')
    end.

Definition lift {A} (r : Result A) : M A := fun s => (r, s).

Definition get : M State := fun s => (Ok s, s).

Definition modify (f : Vars -> Vars) : M unit := fun s => (Ok tt, on_vars f s).

(** [try { m } catch (error) { h error.message }] *)
Definition try_catch {A} (m : M A) (h : string -> M A) : M A :=
  fun s =>
    match m s with
    | (Ok a, s') => (Ok a, s')
    | (Throw e, s') => h e s'
    end.

(** [for (const x of xs) { f x }] *)
Fixpoint for_of {A} (xs : list A) (f : A -> M unit) : M unit :=
  match xs with
  | [] => ret tt
  | x :: xs' => bind (f x) (fun _ => for_of xs' f)
  end.

Declare Scope engine_scope.
Delimit Scope engine_scope with engine.
Notation "x <- m ;; k" := (bind m (fun x => k))
  (at level 61, m at next level, right associativity) : engine_scope.
Notation "m ;;; k" := (bind m (fun _ => k))
  (at level 61, right associativity) : engine_scope.

(** [break] or fall through to the loop test. *)
Inductive Control : Type := Break | Continue.

Definition ToolResult_value (r : ToolExecutor.ToolResult) : value :=
  VObj ([("success", VBool (ToolExecutor.success r))]
        ++ match ToolExecutor.data r with Some d => [("data", d)] | None => [] end
        ++ match ToolExecutor.error r with Some e => [("error", VStr e)] | None => [] end).

Definition no_tool_calls (r : LLMClient.LLMResponse) : bool :=
  match LLMClient.toolCalls r with
  | None => true
  | Some calls => (List.length calls =? 0)%nat
  end.

Definition tool_calls_of (r : LLMClient.LLMResponse) : list LLMClient.ToolCall :=
  match LLMClient.toolCalls r with
  | None => []
  | Some calls => calls
  end.

Section WithHost.

Variable H : Host.

Local Open Scope engine_scope.

(** [Date.now()], and the time carried by [new Date()]. *)
Definition now : M Z :=
  fun s =>
    (Ok (Date_now H (clock_reads (world s))),
     on_world (fun w => {| clock_reads := S (clock_reads w); queries := queries w;
                           chats := chats w; invocations := invocations w |}) s).

(** [await db.query(q)] *)
Definition query (q : Query) : M unit :=
  fun s =>
    (match db_query H (List.length (queries (world s))) q with
     | None => Ok tt
     | Some message => Throw message
     end,
     on_world (fun w => {| clock_reads := clock_reads w; queries := queries w ++ [q];
                           chats := chats w; invocations := invocations w |}) s).

(** [await llmClient.chat(messages, options)] *)
Definition chat (ms : list LLMClient.Message) (options : LLMClient.ChatOptions)
  : M LLMClient.LLMResponse :=
  fun s =>
    (LLMClient.chat (llmClient H) (chats (world s)) ms options,
     on_world (fun w => {| clock_reads := clock_reads w; queries := queries w;
                           chats := S (chats w); invocations := invocations w |}) s).

(** [await toolExecutor.execute(name, args)] *)
Definition invoke (toolName : string) (args : value) : M ToolExecutor.ToolResult :=
  fun s =>
    (toolExecutor_execute H (List.length (invocations (world s))) toolName args,
     on_world (fun w => {| clock_reads := clock_reads w; queries := queries w;
                           chats := chats w;
                           invocations := invocations w ++ [(toolName, args)] |}) s).

Definition buildSystemPrompt (basePrompt : string) (tools : list AttachedTool)
  : Result string :=
  (toolDescriptions <- ResultMonad.mapM
     (fun t =>
        parsed <- JSON_parse (JSON H) (schema t) ;;
        f <- get_prop parsed "function" ;;
        description <- get_prop f "description" ;;
        text <- to_string description ;;
        Ok ("- " ++ tool_name t ++ ": " ++ text))
     tools ;;
   Ok (basePrompt ++ "

You are an AI agent using the ReAct (Reasoning + Acting) pattern. For each task:

1. **Reason**: Think step-by-step about what you need to do
2. **Act**: Use the appropriate tool if needed
3. **Observe**: Analyze the tool's output
4. **Repeat**: Continue until you have the final answer

Available tools:
" ++ String.concat "
" toolDescriptions ++ "

When you have the final answer, respond directly without calling any tools.

Always think carefully and explain your reasoning."))%result.

Definition logStep (executionId : string) (stepNumber : Z) (stepType : StepType)
  (reasoning : option string) (action : option value) : M unit :=
  query (insert_execution_log executionId stepNumber stepType reasoning
           (match action with
            | Some a => Some (JSON_stringify (JSON H) a)
            | None => None
            end)).

(** The [try]/[catch] around the tool invocation: the text that becomes
    the observation. *)
Definition observe (toolName : string) (args : value) : M string :=
  try_catch
    (result <- invoke toolName args ;;
     ret (JSON_stringify (JSON H) (ToolResult_value result)))
    (fun message => ret ("Error: " ++ message)).

(** The body of [for (const toolCall of response.toolCalls)]. *)
Definition processToolCall (executionId : string)
  (response : LLMClient.LLMResponse) (toolCall : LLMClient.ToolCall) : M unit :=
  s <- get ;;
  let iteration := iteration (vars s) in
  (* Reasoning step *)
  t <- now ;;
  modify (push_step {| stepNumber := iteration; stepType := Reasoning;
                       reasoning := Some (LLMClient.responseContent response);
                       action := None; observation := None; timestamp := t |}) ;;;
  logStep executionId iteration Reasoning
    (Some (LLMClient.responseContent response)) None ;;;
  (* Action step *)
  t <- now ;;
  modify (push_step {| stepNumber := iteration; stepType := Action;
                       reasoning := None;
                       action := Some (LLMClient.toolName toolCall,
                                       LLMClient.arguments toolCall);
                       observation := None; timestamp := t |}) ;;;
  logStep executionId iteration Action None
    (Some (VObj [("tool", VStr (LLMClient.toolName toolCall));
                 ("arguments", LLMClient.arguments toolCall)])) ;;;
  (* Execute tool *)
  observation <- observe (LLMClient.toolName toolCall) (LLMClient.arguments toolCall) ;;
  (* Observation step *)
  t <- now ;;
  modify (push_step {| stepNumber := iteration; stepType := Observation;
                       reasoning := None; action := None;
                       observation := Some observation; timestamp := t |}) ;;;
  logStep executionId iteration Observation (Some observation) None ;;;
  (* Add tool result to messages *)
  modify (push_message {| LLMClient.role := LLMClient.assistant;
                          LLMClient.content := LLMClient.responseContent response;
                          LLMClient.name := None |}) ;;;
  modify (push_message {| LLMClient.role := LLMClient.function;
                          LLMClient.content := observation;
                          LLMClient.name := Some (LLMClient.toolName toolCall) |}).

(** The branch of a response without tool calls: record the final
    answer and [break]. *)
Definition answer (executionId : string) (response : LLMClient.LLMResponse)
  : M Control :=
  s <- get ;;
  let iteration := iteration (vars s) in
  modify (set_finalAnswer (LLMClient.responseContent response)) ;;;
  t <- now ;;
  modify (push_step {| stepNumber := iteration; stepType := Final;
                       reasoning := Some (LLMClient.responseContent response);
                       action := None; observation := None; timestamp := t |}) ;;;
  (* Log step to database *)
  logStep executionId iteration Final
    (Some (LLMClient.responseContent response)) None ;;;
  ret Break.

(** One pass through the body of the [while] loop. *)
Definition loop_body (agentConfig : AgentConfig) (executionId : string)
  (startTime : Z) (tools : list value) : M Control :=
  modify increment_iteration ;;;
  (* Check timeout *)
  t <- now ;;
  let elapsed := t - startTime in
  if timeoutSeconds agentConfig * 1000 <? elapsed then
    modify (set_status Timeout) ;;;
    modify (set_finalAnswer "Execution timed out") ;;;
    ret Break
  else
    (* Get LLM response *)
    s <- get ;;
    response <- chat (messages (vars s))
      {| LLMClient.model := Some (model agentConfig);
         LLMClient.tools := Some tools;
         LLMClient.temperature := None;
         LLMClient.maxTokens := None |} ;;
    modify (add_usage
              (LLMClient.totalTokens (LLMClient.usage response))
              (calculateCost (model agentConfig)
                 (LLMClient.promptTokens (LLMClient.usage response))
                 (LLMClient.completionTokens (LLMClient.usage response)))) ;;;
    if no_tool_calls response then
      (* If no tool calls, this is the final answer *)
      answer executionId response
    else
      (* Process tool calls (ReAct: Reasoning, Action, Observation) *)
      for_of (tool_calls_of response) (processToolCall executionId response) ;;;
      ret Continue.

(** [while (iteration < agentConfig.maxIterations) { ... }].  The
    counter starts at 0 and grows by one per pass, so the test fails
    after at most [maxIterations] passes: [fuel] is that bound. *)
Fixpoint while_loop (fuel : nat) (agentConfig : AgentConfig)
  (executionId : string) (startTime : Z) (tools : list value) : M unit :=
  match fuel with
  | O => ret tt
  | S fuel' =>
      s <- get ;;
      if iteration (vars s) <? maxIterations agentConfig then
        control <- loop_body agentConfig executionId startTime tools ;;
        match control with
        | Break => ret tt
        | Continue => while_loop fuel' agentConfig executionId startTime tools
        end
      else ret tt
  end.

(** What the [try] block does once the loop is left. *)
Definition conclude (agentConfig : AgentConfig) (userId executionId : string)
  (startTime : Z) : M ExecutionResult :=
  (* Check if max iterations reached *)
  s <- get ;;
  (if (maxIterations agentConfig <=? iteration (vars s))
      && Status_eqb (cur_status (vars s)) Success
   then
     modify (set_status MaxIterations) ;;;
     modify (set_finalAnswer
               "Maximum iterations reached without finding a final answer")
   else ret tt) ;;;
  t <- now ;;
  let executionTimeMs := t - startTime in
  (* Update execution record *)
  s <- get ;;
  query (update_execution (finalAnswer (vars s)) (cur_status (vars s))
           (iteration (vars s)) (totalTokensUsed (vars s)) (totalCost (vars s))
           executionTimeMs executionId) ;;;
  (* Track usage *)
  query (insert_usage_tracking userId executionId
           (totalTokensUsed (vars s)) (totalCost (vars s))) ;;;
  ret {| executionId := executionId;
         status := cur_status (vars s);
         output := finalAnswer (vars s);
         steps := cur_steps (vars s);
         tokensUsed := totalTokensUsed (vars s);
         cost := totalCost (vars s);
         executionTimeMs := executionTimeMs;
         error := None |}.

(** The [try] block of [execute]. *)
Definition try_block (agentConfig : AgentConfig) (input userId : string)
  (executionId : string) (startTime : Z) : M ExecutionResult :=
  (* Create execution record *)
  query (insert_execution executionId (id agentConfig) userId input) ;;;
  prompt <- lift (buildSystemPrompt (systemPrompt agentConfig) (tools agentConfig)) ;;
  modify (set_messages
            [ {| LLMClient.role := LLMClient.system;
                 LLMClient.content := prompt;
                 LLMClient.name := None |};
              {| LLMClient.role := LLMClient.user;
                 LLMClient.content := input;
                 LLMClient.name := None |} ]) ;;;
  tools <- lift (ResultMonad.mapM (fun t => JSON_parse (JSON H) (schema t))
                   (tools agentConfig)) ;;
  while_loop (Z.to_nat (maxIterations agentConfig))
    agentConfig executionId startTime tools ;;;
  conclude agentConfig userId executionId startTime.

(** The [catch] block of [execute]. *)
Definition catch_block (executionId : string) (startTime : Z) (message : string)
  : M ExecutionResult :=
  t <- now ;;
  let executionTimeMs := t - startTime in
  query (update_execution_error message executionTimeMs executionId) ;;;
  s <- get ;;
  ret {| executionId := executionId;
         status := Error;
         output := "";
         steps := cur_steps (vars s);
         tokensUsed := totalTokensUsed (vars s);
         cost := totalCost (vars s);
         executionTimeMs := executionTimeMs;
         error := Some message |}.

(** [ReActEngine.execute].  [Ok r] is the result the promise resolves
    to; [Throw m] is a rejection that reaches the caller. *)
Definition execute (agentConfig : AgentConfig) (input userId : string)
  : M ExecutionResult :=
  let executionId := uuidv4 H in
  startTime <- now ;;
  try_catch
    (try_block agentConfig input userId executionId startTime)
    (catch_block executionId startTime).

(** A whole execution, from the state in which nothing has happened. *)
Definition run (agentConfig : AgentConfig) (input userId : string)
  : Result ExecutionResult * State :=
  execute agentConfig input userId initial_state.

End WithHost.

End ReActEngine.


(* ===================================================================== *)
(** ** Vocabulary for the statements about the engine *)
(* ===================================================================== *)

Module Trace.

Import ReActEngine.

(** The four shapes of step pushed by [execute]. *)
Definition reasoning_step (n : Z) (content : string) (t : Z) : ExecutionStep :=
  {| stepNumber := n; stepType := Reasoning; reasoning := Some content;
     action := None; observation := None; timestamp := t |}.

Definition action_step (n : Z) (toolName : string) (args : value) (t : Z)
  : ExecutionStep :=
  {| stepNumber := n; stepType := Action; reasoning := None;
     action := Some (toolName, args); observation := None; timestamp := t |}.

Definition observation_step (n : Z) (text : string) (t : Z) : ExecutionStep :=
  {| stepNumber := n; stepType := Observation; reasoning := None;
     action := None; observation := Some text; timestamp := t |}.

Definition final_step (n : Z) (content : string) (t : Z) : ExecutionStep :=
  {| stepNumber := n; stepType := Final; reasoning := Some content;
     action := None; observation := None; timestamp := t |}.

(** The observation that an outcome of the executor turns into. *)
Definition observation_text (H : Host) (outcome : Result ToolExecutor.ToolResult)
  : string :=
  match outcome with
  | Ok result => JSON_stringify (JSON H) (ToolResult_value result)
  | Throw message => "Error: " ++ message
  end.

(** The steps of the tool call [toolCall] of the response [response],
    in iteration [n]: the reasoning of the response, the action that
    the tool call asks for, and the observation of that action's
    invocation. *)
Inductive tool_call_steps (H : Host) (n : Z) (response : LLMClient.LLMResponse)
  (toolCall : LLMClient.ToolCall) : list ExecutionStep -> Prop :=
| tool_call_steps_intro (k : nat) (t1 t2 t3 : Z) :
    tool_call_steps H n response toolCall
      [ reasoning_step n (LLMClient.responseContent response) t1;
        action_step n (LLMClient.toolName toolCall)
          (LLMClient.arguments toolCall) t2;
        observation_step n
          (observation_text H
             (toolExecutor_execute H k (LLMClient.toolName toolCall)
                (LLMClient.arguments toolCall))) t3 ].

(** The steps of iteration [n], in which the gateway gave the response
    [response]: a single final step when the response carries no tool
    call, and otherwise the steps of its tool calls, one group per
    tool call, in their order. *)
Inductive iteration_steps (H : Host) (n : Z) (response : LLMClient.LLMResponse)
  : list ExecutionStep -> Prop :=
| iteration_final (t : Z) :
    no_tool_calls response = true ->
    iteration_steps H n response
      [final_step n (LLMClient.responseContent response) t]
| iteration_tool_calls (groups : list (list ExecutionStep)) :
    no_tool_calls response = false ->
    Forall2 (tool_call_steps H n response) (tool_calls_of response) groups ->
    iteration_steps H n response (concat groups).

(** [recorded H n l]: [l] is made of the steps of successive
    iterations with increasing numbers, the last of which is [n]
    ([n = 0] when nothing is recorded yet); the steps of each
    iteration are those of a response that the gateway gave. *)
Inductive recorded (H : Host) : Z -> list ExecutionStep -> Prop :=
| recorded_nothing : recorded H 0 []
| recorded_iteration (n m : Z) (l block : list ExecutionStep)
    (turn : nat) (ms : list LLMClient.Message) (options : LLMClient.ChatOptions)
    (response : LLMClient.LLMResponse) :
    recorded H n l ->
    n < m ->
    LLMClient.chat (llmClient H) turn ms options = Ok response ->
    iteration_steps H m response block ->
    recorded H m (l ++ block).

(** [l] is a recorded list cut short: what is missing are the last
    steps of its last iteration. *)
Definition cut_short (H : Host) (l : list ExecutionStep) : Prop :=
  exists n whole rest, recorded H n whole /\ whole = (l ++ rest)%list.

(** The step that follows an action step [a], when it is the
    observation of the invocation that [a] names. *)
Definition followed_by_its_observation (H : Host) (a : ExecutionStep)
  (after : list ExecutionStep) : Prop :=
  exists toolName args k t rest,
    action a = Some (toolName, args)
    /\ after =
       observation_step (stepNumber a)
         (observation_text H (toolExecutor_execute H k toolName args)) t :: rest.

(** The options with which [execute] calls the gateway. *)
Definition gateway_options (agentConfig : AgentConfig) (tools : list value)
  : LLMClient.ChatOptions :=
  {| LLMClient.model := Some (model agentConfig);
     LLMClient.tools := Some tools;
     LLMClient.temperature := None;
     LLMClient.maxTokens := None |}.

(** *** Reasoning about computations

    [triple P m Q]: run from variables satisfying [P], the computation
    [m] ends with an outcome and variables related by [Q], whatever
    the collaborators have been asked before. *)
Definition triple {A} (P : Vars -> Prop) (m : M A)
  (Q : Result A -> Vars -> Prop) : Prop :=
  forall s out s', m s = (out, s') -> P (vars s) -> Q out (vars s').

(** A property of the variables that no assignment made while a tool
    call is processed, or around the gateway call, can break. *)
Record assignments_stable (I : Vars -> Prop) : Prop := {
  stable_push_step : forall st v, I v -> I (push_step st v);
  stable_push_message : forall m v, I v -> I (push_message m v);
  stable_status : forall st v, I v -> I (set_status st v);
  stable_answer : forall a v, I v -> I (set_finalAnswer a v)
}.

(** ... nor the counting of iterations, nor the accounting of what the
    gateway may answer. *)
Record loop_stable (H : Host) (agentConfig : AgentConfig) (I : Vars -> Prop)
  : Prop := {
  stable_assignments : assignments_stable I;
  stable_increment : forall v, I v -> I (increment_iteration v);
  stable_usage :
    forall turn ms options r v,
      LLMClient.model options = Some (model agentConfig) ->
      LLMClient.chat (llmClient H) turn ms options = Ok r ->
      I v ->
      I (add_usage (LLMClient.totalTokens (LLMClient.usage r))
           (calculateCost (model agentConfig)
              (LLMClient.promptTokens (LLMClient.usage r))
              (LLMClient.completionTokens (LLMClient.usage r))) v)
}.

(** The steps pushed so far are those of iterations up to the current
    one ([recorded_so_far]), or of iterations before the current one
    ([recorded_before]: the current iteration has pushed nothing yet). *)
Definition recorded_so_far (H : Host) (v : Vars) : Prop :=
  exists j, j <= iteration v /\ recorded H j (cur_steps v).

Definition recorded_before (H : Host) (v : Vars) : Prop :=
  exists j, j < iteration v /\ recorded H j (cur_steps v).

(** The response is one that the gateway gave. *)
Definition given (H : Host) (response : LLMClient.LLMResponse) : Prop :=
  exists turn ms options,
    LLMClient.chat (llmClient H) turn ms options = Ok response.

(** What processing the tool calls [calls] of a response does to the
    variables [v], giving [v']: three steps per call are pushed, and
    the counters, the status and the answer are left alone. *)
Record tool_calls_effect (H : Host) (response : LLMClient.LLMResponse)
  (calls : list LLMClient.ToolCall) (v v' : Vars) : Prop := {
  effect_steps :
    exists groups,
      cur_steps v' = (cur_steps v ++ concat groups)%list
      /\ Forall2 (tool_call_steps H (iteration v) response) calls groups;
  effect_iteration : iteration v' = iteration v;
  effect_tokens : totalTokensUsed v' = totalTokensUsed v;
  effect_cost : totalCost v' = totalCost v;
  effect_status : cur_status v' = cur_status v;
  effect_answer : finalAnswer v' = finalAnswer v
}.

(** The result that [execute] resolves to carries the steps and the
    totals held by the variables at that point. *)
Definition carries (r : ExecutionResult) (v : Vars) : Prop :=
  steps r = cur_steps v
  /\ tokensUsed r = totalTokensUsed v
  /\ cost r = totalCost v.

(** The clock read at the top of a pass started in state [s] is past
    the time budget. *)
Definition timed_out (H : Host) (agentConfig : AgentConfig) (startTime : Z)
  (s : State) : bool :=
  timeoutSeconds agentConfig * 1000
  <? Date_now H (clock_reads (world s)) - startTime.

(** The answer of the gateway to the conversation held in state [s]. *)
Definition gateway_answer (H : Host) (agentConfig : AgentConfig)
  (tools : list value) (s : State) : Result LLMClient.LLMResponse :=
  LLMClient.chat (llmClient H) (chats (world s)) (messages (vars s))
    (gateway_options agentConfig tools).

(** The variables after the accounting of a response. *)
Definition accounted (agentConfig : AgentConfig)
  (response : LLMClient.LLMResponse) (v : Vars) : Vars :=
  add_usage (LLMClient.totalTokens (LLMClient.usage response))
    (calculateCost (model agentConfig)
       (LLMClient.promptTokens (LLMClient.usage response))
       (LLMClient.completionTokens (LLMClient.usage response)))
    (increment_iteration v).

(** The state in which the [try] block is entered: the clock has been
    read once, for [startTime]. *)
Definition started (H : Host) : State := snd (now H initial_state).

(** The variables once the conversation has been opened. *)
Definition opened (input prompt : string) (v : Vars) : Vars :=
  set_messages
    [ {| LLMClient.role := LLMClient.system;
         LLMClient.content := prompt;
         LLMClient.name := None |};
      {| LLMClient.role := LLMClient.user;
         LLMClient.content := input;
         LLMClient.name := None |} ] v.

(** *** Conditions on the collaborators *)

(** The store accepts every entry of the step log. *)
Definition accepts_step_logs (H : Host) : Prop :=
  forall n execution_id step_number step_type reasoning action,
    db_query H n
      (insert_execution_log execution_id step_number step_type reasoning action)
    = None.

(** The store accepts the update made by the [catch] block. *)
Definition accepts_error_update (H : Host) : Prop :=
  forall n error_message execution_time_ms execution_id,
    db_query H n (update_execution_error error_message execution_time_ms execution_id)
    = None.

(** The store accepts every statement. *)
Definition accepts_every_statement (H : Host) : Prop :=
  forall n q, db_query H n q = None.

(** The pair of rates under which the price table prices a model:
    the pair listed under its name, and the default pair when the
    table lists none. *)
Definition priced (model : string) (r : Rates) : Prop :=
  (forall r', In (model, r') TOKEN_COSTS -> r = r')
  /\ ((forall r', ~ In (model, r') TOKEN_COSTS) -> r = default_rates).

(** [promptTokens * costs.input + completionTokens * costs.output] *)
Definition cost_of (r : Rates) (promptTokens completionTokens : Z)
  : Binary64.number :=
  Binary64.add
    (Binary64.mul (Binary64.of_Z promptTokens) (rate_input r))
    (Binary64.mul (Binary64.of_Z completionTokens) (rate_output r)).

(** The total cost is a valid number that is not negative. *)
Definition sound_total (v : Vars) : Prop :=
  Binary64.valid (totalCost v) /\ Binary64.not_negative (totalCost v).

(** The gateway reports token counts that are not negative. *)
Definition counts_not_negative (H : Host) : Prop :=
  forall turn ms options r,
    LLMClient.chat (llmClient H) turn ms options = Ok r ->
    0 <= LLMClient.promptTokens (LLMClient.usage r)
    /\ 0 <= LLMClient.completionTokens (LLMClient.usage r).

End Trace.


(* ===================================================================== *)
(** ** Sample collaborators

    Concrete platforms, providers and hosts on which the definitions
    above can be run. *)
(* ===================================================================== *)

Module Samples.

(** A printer for [JSON.stringify] that leaves string contents
    unescaped and drops [undefined] properties. *)
Fixpoint stringify (v : value) : string :=
  match v with
  | VUndefined => "undefined"
  | VNull => "null"
  | VBool true => "true"
  | VBool false => "false"
  | VNum n => string_of_Z n
  | VStr s => "'" ++ s ++ "'"
  | VArr xs => "[" ++ String.concat "," (map stringify xs) ++ "]"
  | VObj fields =>
      "{" ++ String.concat ","
               ((fix properties (fs : list (string * value)) : list string :=
                   match fs with
                   | [] => []
                   | (_, VUndefined) :: rest => properties rest
                   | (k, v') :: rest =>
                       ("'" ++ k ++ "':" ++ stringify v') :: properties rest
                   end) fields) ++ "}"
  end.

(** A reader for [JSON.parse] that knows four texts and rejects every
    other one. *)
Definition parse (s : string) : Result value :=
  if String.eqb s "{}" then Ok (VObj [])
  else if String.eqb s "null" then Ok VNull
  else if String.eqb s "{'function':{'description':'Search the web'}}" then
    Ok (VObj [("function", VObj [("description", VStr "Search the web")])])
  else if String.eqb s "{'function':{'description':{'toString':1}}}" then
    Ok (VObj [("function",
               VObj [("description", VObj [("toString", VNum 1)])])])
  else Throw ("Unexpected token in JSON: " ++ s).

Definition json : JSON_builtin :=
  {| JSON_parse := parse; JSON_stringify := stringify |}.

(** *** For the tool executor *)

Definition unreachable_network : ToolExecutor.Platform :=
  {| ToolExecutor.PERPLEXITY_API_KEY := Some "pplx-key";
     ToolExecutor.fetch := fun _ _ => Throw "fetch failed";
     ToolExecutor.JSON := json |}.

(** *** For the LLM client *)

Definition one_choice (text : option string)
  (calls : option (list LLMClient.OpenAIToolCall)) (prompt completion total : Z)
  : LLMClient.ChatCompletion :=
  {| LLMClient.choices :=
       [ {| LLMClient.message_content := text;
            LLMClient.message_tool_calls := calls |} ];
     LLMClient.completion_usage :=
       Some {| LLMClient.prompt_tokens := prompt;
               LLMClient.completion_tokens := completion;
               LLMClient.total_tokens := total |};
     LLMClient.completion_model := "gpt-4" |}.

Definition claude_reply : LLMClient.AnthropicMessage :=
  {| LLMClient.message_blocks := [LLMClient.text_block "Paris"];
     LLMClient.message_usage :=
       {| LLMClient.input_tokens := 12; LLMClient.output_tokens := 3 |};
     LLMClient.message_model := "claude-3-haiku-20240307" |}.

(** Both providers answer at once with a text and no tool call. *)
Definition answering_providers : LLMClient.Providers :=
  {| LLMClient.openai_chat_completions_create :=
       fun _ _ => Ok (one_choice (Some "42") None 10 5 15);
     LLMClient.anthropic_messages_create := fun _ _ => Ok claude_reply;
     LLMClient.JSON := json;
     LLMClient.config_execution_defaultModel := "gpt-4-turbo-preview" |}.

(** An OpenAI-compatible endpoint whose reported total is not the sum
    of the two other counters. *)
Definition skewed_providers : LLMClient.Providers :=
  {| LLMClient.openai_chat_completions_create :=
       fun _ _ => Ok (one_choice (Some "42") None 10 5 20);
     LLMClient.anthropic_messages_create := fun _ _ => Ok claude_reply;
     LLMClient.JSON := json;
     LLMClient.config_execution_defaultModel := "gpt-4-turbo-preview" |}.

Definition only_model (m : string) : LLMClient.ChatOptions :=
  {| LLMClient.model := Some m; LLMClient.tools := None;
     LLMClient.temperature := None; LLMClient.maxTokens := None |}.

Definition conversation : list LLMClient.Message :=
  [ {| LLMClient.role := LLMClient.system; LLMClient.content := "Be brief.";
       LLMClient.name := None |};
    {| LLMClient.role := LLMClient.user; LLMClient.content := "Capital of France?";
       LLMClient.name := None |};
    {| LLMClient.role := LLMClient.assistant; LLMClient.content := "Let me look it up.";
       LLMClient.name := None |};
    {| LLMClient.role := LLMClient.function; LLMClient.content := "{'success':true}";
       LLMClient.name := Some "web_search" |} ].

(** *** For the engine *)

Import ReActEngine.

Definition agent (m : string) (iterations seconds : Z) (ts : list AttachedTool)
  : AgentConfig :=
  {| id := "agent-1"; systemPrompt := "You are helpful."; model := m;
     maxIterations := iterations; timeoutSeconds := seconds; tools := ts |}.

(** The model answers on its first turn; the clock stands still; the
    store accepts every statement. *)
Definition answering_host : Host :=
  {| uuidv4 := "exec-1";
     Date_now := fun _ => 1700000000000;
     db_query := fun _ _ => None;
     JSON := json;
     openai_chat_completions_create :=
       fun _ _ => Ok (one_choice (Some "42") None 10 5 15);
     anthropic_messages_create := fun _ _ => Ok claude_reply;
     config_execution_defaultModel := "gpt-4-turbo-preview";
     toolExecutor_execute := fun _ _ _ => Ok (ToolExecutor.failure "unused") |}.

(** As [answering_host], with a store that rejects every statement. *)
Definition store_down_host : Host :=
  {| uuidv4 := "exec-2";
     Date_now := fun _ => 1700000000000;
     db_query := fun _ _ => Some "connect ECONNREFUSED 127.0.0.1:5432";
     JSON := json;
     openai_chat_completions_create :=
       fun _ _ => Ok (one_choice (Some "42") None 10 5 15);
     anthropic_messages_create := fun _ _ => Ok claude_reply;
     config_execution_defaultModel := "gpt-4-turbo-preview";
     toolExecutor_execute := fun _ _ _ => Ok (ToolExecutor.failure "unused") |}.

(** As [answering_host], with a clock that advances by one second per
    reading. *)
Definition ticking_host : Host :=
  {| uuidv4 := "exec-3";
     Date_now := fun n => 1700000000000 + 1000 * Z.of_nat n;
     db_query := fun _ _ => None;
     JSON := json;
     openai_chat_completions_create :=
       fun _ _ => Ok (one_choice (Some "42") None 10 5 15);
     anthropic_messages_create := fun _ _ => Ok claude_reply;
     config_execution_defaultModel := "gpt-4-turbo-preview";
     toolExecutor_execute := fun _ _ _ => Ok (ToolExecutor.failure "unused") |}.

Definition search_call : LLMClient.OpenAIToolCall :=
  {| LLMClient.call_id := "call_1";
     LLMClient.function_name := "web_search";
     LLMClient.function_arguments := "{}" |}.

(** The model asks for one search on its first turn and answers on its
    second; the executor throws on every invocation. *)
Definition throwing_tool_host : Host :=
  {| uuidv4 := "exec-4";
     Date_now := fun _ => 1700000000000;
     db_query := fun _ _ => None;
     JSON := json;
     openai_chat_completions_create :=
       fun turn _ =>
         match turn with
         | O => Ok (one_choice (Some "I should search.") (Some [search_call]) 10 5 15)
         | S _ => Ok (one_choice (Some "42") None 20 5 25)
         end;
     anthropic_messages_create := fun _ _ => Ok claude_reply;
     config_execution_defaultModel := "gpt-4-turbo-preview";
     toolExecutor_execute := fun _ _ _ => Throw "socket hang up" |}.

(** As [throwing_tool_host], with a store that rejects the log entry of
    every action step and accepts every other statement. *)
Definition action_log_rejected_host : Host :=
  {| uuidv4 := "exec-5";
     Date_now := fun _ => 1700000000000;
     db_query := fun _ q =>
       match q with
       | insert_execution_log _ _ Action _ _ => Some "value too long for type"
       | _ => None
       end;
     JSON := json;
     openai_chat_completions_create :=
       fun turn _ =>
         match turn with
         | O => Ok (one_choice (Some "I should search.") (Some [search_call]) 10 5 15)
         | S _ => Ok (one_choice (Some "42") None 20 5 25)
         end;
     anthropic_messages_create := fun _ _ => Ok claude_reply;
     config_execution_defaultModel := "gpt-4-turbo-preview";
     toolExecutor_execute := fun _ _ _ => Throw "socket hang up" |}.

(** As [throwing_tool_host], with a store that rejects the log entry of
    every observation step and accepts every other statement. *)
Definition observation_log_rejected_host : Host :=
  {| uuidv4 := "exec-7";
     Date_now := fun _ => 1700000000000;
     db_query := fun _ q =>
       match q with
       | insert_execution_log _ _ Observation _ _ =>
           Some "invalid byte sequence for encoding UTF8"
       | _ => None
       end;
     JSON := json;
     openai_chat_completions_create :=
       fun turn _ =>
         match turn with
         | O => Ok (one_choice (Some "I should search.") (Some [search_call]) 10 5 15)
         | S _ => Ok (one_choice (Some "42") None 20 5 25)
         end;
     anthropic_messages_create := fun _ _ => Ok claude_reply;
     config_execution_defaultModel := "gpt-4-turbo-preview";
     toolExecutor_execute := fun _ _ _ => Throw "socket hang up" |}.

Definition search_request : LLMClient.ToolCall :=
  {| LLMClient.id := "call_1";
     LLMClient.toolName := "web_search";
     LLMClient.arguments := VObj [] |}.

Definition search_response : LLMClient.LLMResponse :=
  {| LLMClient.responseContent := "I should search.";
     LLMClient.toolCalls := Some [search_request];
     LLMClient.usage :=
       {| LLMClient.promptTokens := 10;
          LLMClient.completionTokens := 5;
          LLMClient.totalTokens := 15 |};
     LLMClient.responseModel := "gpt-4" |}.

(** As [answering_host], with a provider that cannot be reached. *)
Definition gateway_down_host : Host :=
  {| uuidv4 := "exec-6";
     Date_now := fun _ => 1700000000000;
     db_query := fun _ _ => None;
     JSON := json;
     openai_chat_completions_create := fun _ _ => Throw "Connection error.";
     anthropic_messages_create := fun _ _ => Throw "Connection error.";
     config_execution_defaultModel := "gpt-4-turbo-preview";
     toolExecutor_execute := fun _ _ _ => Ok (ToolExecutor.failure "unused") |}.

Definition broken_tool : AttachedTool :=
  {| tool_id := "tool-1"; tool_name := "web_search"; schema := "{function:" |}.

End Samples.


(* ===================================================================== *)
(** ** The executions router: [/api/executions] *)
(* ===================================================================== *)

Module ExecutionsRoute.

Import ReActEngine.

(** [req.user], as set by the authentication middleware. *)
Record User : Type := {
  user_id : string;              (* [id] *)
  clerkId : string;
  email : string;
  username : option string
}.

(** The request, as far as the handlers read it: [req.user],
    [req.body], [req.params] and [req.query]. *)
Record Request : Type := {
  user : option User;
  body : value;
  params : value;
  query : value
}.

(** A row of the query that fetches the agent with its tools.  The
    column [tools] is [NULL] when no tool is attached. *)
Record AgentRow : Type := {
  row_id : string;
  system_prompt : string;
  row_model : string;
  max_iterations : Z;
  timeout_seconds : Z;
  row_tools : option (list AttachedTool)
}.

(** What is passed to [res.json]. *)
Inductive Payload : Type :=
| error_payload (message : string)           (* [{ error: message }] *)
| execution_payload (result : ExecutionResult)    (* [{ execution: result }] *)
| row_payload (row : value)                  (* [{ execution: rows[0] }] *)
| rows_payload (rows : list value).          (* [{ executions: rows }] *)

(** The response sent: the status code and the JSON payload. *)
Record Reply : Type := {
  code : Z;
  payload : Payload
}.

(** What the handlers call and do not define: the store, for the
    query that fetches the agent and for the queries on the
    executions, and the engine.  The input reaches the engine as it
    was read from the body.  The statements that the engine sends to
    the store are its own affair: they are those of
    [ReActEngine.Host] when the engine is [ReActEngine.execute]. *)
Record Backend : Type := {
  select_agent : value -> string -> Result (list AgentRow);
  reactEngine_execute : AgentConfig -> value -> string -> Result ExecutionResult;
  (* [(await db.query(text, values)).rows], for the executions *)
  db_query : string -> list value -> Result (list value)
}.

(** The configuration that the handler makes of a row:
    [{ id: agent.id, ..., tools: agent.tools || [] }]. *)
Definition config_of (agent : AgentRow) : AgentConfig :=
  {| id := row_id agent;
     systemPrompt := system_prompt agent;
     model := row_model agent;
     maxIterations := max_iterations agent;
     timeoutSeconds := timeout_seconds agent;
     tools := match row_tools agent with
              | Some ts => ts
              | None => []
              end |}.

(** [req.user?.id]: the id of the user, [undefined] without a user. *)
Definition owner (req : Request) : value :=
  match user req with
  | Some u => VStr (user_id u)
  | None => VUndefined
  end.

(** A default of a destructuring pattern, as in [{ limit = 50 }]: it
    replaces [undefined] and nothing else. *)
Definition defaulted (v d : value) : value :=
  match v with
  | VUndefined => d
  | _ => v
  end.

(** The statement of [router.get('/:id')]. *)
Definition execution_statement : string :=
  "SELECT e.*,
        a.name as agent_name,
        json_agg(json_build_object(
          'step_number', el.step_number,
          'step_type', el.step_type,
          'reasoning', el.reasoning,
          'action', el.action,
          'observation', el.observation,
          'created_at', el.created_at
        ) ORDER BY el.step_number) FILTER (WHERE el.id IS NOT NULL) as steps
       FROM executions e
       JOIN agents a ON e.agent_id = a.id
       LEFT JOIN execution_logs el ON e.id = el.execution_id
       WHERE e.id = $1 AND e.user_id = $2
       GROUP BY e.id, a.name".

Local Open Scope result_scope.

(** The statement that [router.get('/')] builds, with its values:
    [query] and [params] when [db.query] is called.  Destructuring
    [req.query] throws when it is [undefined] or [null]; the message
    of that error is not the one of a property read, and the handler
    drops it. *)
Definition listing_statement (userId : value) (req_query : value)
  : Result (string * list value) :=
  agentId <- get_prop req_query "agentId" ;;
  limit <- get_prop req_query "limit" ;;
  offset <- get_prop req_query "offset" ;;
  let limit := defaulted limit (VNum 50) in
  let offset := defaulted offset (VNum 0) in
  let query := "
      SELECT e.*, a.name as agent_name
      FROM executions e
      JOIN agents a ON e.agent_id = a.id
      WHERE e.user_id = $1
    " in
  let params := [userId] in
  let '(query, params) :=
    if truthy agentId then
      let params := (params ++ [agentId])%list in
      (query ++ " AND e.agent_id = $" ++ decimal (List.length params), params)
    else (query, params) in
  let query :=
    query ++ " ORDER BY e.started_at DESC LIMIT $"
          ++ decimal (List.length params + 1)
          ++ " OFFSET $" ++ decimal (List.length params + 2) in
  let params := (params ++ [limit; offset])%list in
  Ok (query, params).

Local Close Scope result_scope.

Section WithBackend.

Variable B : Backend.

Local Open Scope result_scope.

(** The handler of [router.post('/')].  [Ok reply] is the response
    sent; [Throw] would be a rejection that escapes the handler. *)
Definition post_execution (req : Request) : Result Reply :=
  ResultMonad.try_catch
    (let userId := match user req with
                   | Some u => user_id u
                   | None => ""          (* [undefined], falsy like [''] *)
                   end in
     if String.eqb userId "" then
       Ok {| code := 401; payload := error_payload "Unauthorized" |}
     else
       agentId <- get_prop (body req) "agentId" ;;
       input <- get_prop (body req) "input" ;;
       if negb (truthy agentId) || negb (truthy input) then
         Ok {| code := 400;
               payload := error_payload "Agent ID and input are required" |}
       else
         (* Fetch agent with tools *)
         rows <- select_agent B agentId userId ;;
         match rows with
         | [] => Ok {| code := 404; payload := error_payload "Agent not found" |}
         | agent :: _ =>
             (* Execute agent *)
             result <- reactEngine_execute B (config_of agent) input userId ;;
             Ok {| code := 200; payload := execution_payload result |}
         end)
    (fun _ => Ok {| code := 500; payload := error_payload "Failed to execute agent" |}).

(** The handler of [router.get('/:id')].  It does not test [userId]:
    without a user the store is asked with [undefined] in its place. *)
Definition get_execution (req : Request) : Result Reply :=
  ResultMonad.try_catch
    (let userId := owner req in
     id <- get_prop (params req) "id" ;;
     rows <- db_query B execution_statement [id; userId] ;;
     match rows with
     | [] => Ok {| code := 404; payload := error_payload "Execution not found" |}
     | row :: _ => Ok {| code := 200; payload := row_payload row |}
     end)
    (fun _ => Ok {| code := 500; payload := error_payload "Failed to fetch execution" |}).

(** The handler of [router.get('/')]. *)
Definition get_executions (req : Request) : Result Reply :=
  ResultMonad.try_catch
    (let userId := owner req in
     if negb (truthy userId) then
       Ok {| code := 401; payload := error_payload "Unauthorized" |}
     else
       statement <- listing_statement userId (query req) ;;
       rows <- db_query B (fst statement) (snd statement) ;;
       Ok {| code := 200; payload := rows_payload rows |})
    (fun _ => Ok {| code := 500; payload := error_payload "Failed to fetch executions" |}).

End WithBackend.

(** The user for whom the handler works, if any. *)
Definition authenticated (req : Request) : option string :=
  match user req with
  | Some u => if String.eqb (user_id u) "" then None else Some (user_id u)
  | None => None
  end.

(** The backend runs the ReAct engine on the host [H], for the inputs
    that are strings. *)
Definition runs_engine (B : Backend) (H : Host) : Prop :=
  forall agentConfig input userId,
    reactEngine_execute B agentConfig (VStr input) userId
    = fst (run H agentConfig input userId).

End ExecutionsRoute.


(* ===================================================================== *)
(** ** Vocabulary for the statements about the tools and the client *)
(* ===================================================================== *)

Module Notions.

(** [undefined] and [null]: the two values on which a property read
    throws. *)
Definition nullish (v : value) : bool :=
  match v with
  | VUndefined | VNull => true
  | _ => false
  end.

(** What a property reads as, on a value that is not nullish. *)
Definition prop (o : value) (k : string) : value :=
  match get_prop o k with
  | Ok v => v
  | Throw _ => VUndefined
  end.

(** The tools of the registry that are placeholders: they reach
    neither the network nor the environment. *)
Definition placeholders : list string :=
  ["send_email"; "database_query"; "slack_notify"].

(** The property of the arguments that a placeholder reads first. *)
Definition first_argument (toolName : string) : string :=
  if String.eqb toolName "send_email" then "to"
  else if String.eqb toolName "slack_notify" then "channel"
       else "query".

(** The text that [send_email] and [slack_notify] put before their
    first argument in the message of the result; [database_query]
    names no argument in its message. *)
Definition announcement (toolName : string) : option string :=
  if String.eqb toolName "send_email" then Some "Email queued to "
  else if String.eqb toolName "slack_notify"
       then Some "Notification queued for channel "
       else None.

(** ['null'] and ['undefined'], as the message of a [TypeError] names
    them. *)
Definition nullish_name (v : value) : string :=
  match v with
  | VNull => "null"
  | _ => "undefined"
  end.

(** A value that cannot be converted to a string: an object with a
    property of its own named [toString], or an array that holds such
    a value. *)
Fixpoint hides_toString (v : value) : bool :=
  match v with
  | VObj fields =>
      match assoc "toString" fields with
      | Some _ => true
      | None => false
      end
  | VArr xs => existsb hides_toString xs
  | _ => false
  end.

(** The digit that a character stands for. *)
Definition digit_of (c : ascii) : option nat :=
  let n := nat_of_ascii c in
  if (48 <=? n)%nat && (n <=? 57)%nat then Some (n - 48)%nat else None.

(** The numbers that follow a dollar sign, from left to right;
    [reading] is the number being read, if any. *)
Fixpoint numbers_after_dollar (cs : list ascii) (reading : option nat) : list nat :=
  match cs with
  | [] => match reading with Some n => [n] | None => [] end
  | c :: rest =>
      if Ascii.eqb c "$" then
        match reading with
        | Some n => n :: numbers_after_dollar rest (Some 0%nat)
        | None => numbers_after_dollar rest (Some 0%nat)
        end
      else
        match reading, digit_of c with
        | Some n, Some d => numbers_after_dollar rest (Some (10 * n + d)%nat)
        | Some n, None => n :: numbers_after_dollar rest None
        | None, _ => numbers_after_dollar rest None
        end
  end.

(** The parameters that a statement refers to: [$1], [$2], ... *)
Definition parameters_of (sql : string) : list nat :=
  numbers_after_dollar (list_ascii_of_string sql) None.

End Notions.

Module Wire.

Import LLMClient.

(** The tool call that a content block of Anthropic stands for. *)
Definition tool_use_of (block : ContentBlock) : list ToolCall :=
  match block with
  | tool_use_block i n a => [{| id := i; toolName := n; arguments := a |}]
  | _ => []
  end.

(** The text of the first text block, or the empty string. *)
Fixpoint first_text (blocks : list ContentBlock) : string :=
  match blocks with
  | [] => ""
  | text_block t :: _ => t
  | _ :: rest => first_text rest
  end.

(** The tool calls of a response, none and an empty list alike. *)
Definition calls_of (r : LLMResponse) : list ToolCall :=
  match toolCalls r with
  | Some calls => calls
  | None => []
  end.

(** A message of the conversation and the entry of the turn-message
    list made of it: the content alone, under the role [assistant] for
    a message of the assistant and under the role [user] for any
    other. *)
Definition forwarded (m : Message) (p : MessageParam) : Prop :=
  param_content p = content m
  /\ (role m = assistant -> param_role p = assistant)
  /\ (role m <> assistant -> param_role p = user).

(** The messages of a conversation that are not system messages. *)
Definition turns (messages : list Message) : list Message :=
  filter (fun m => negb (Role_eqb (role m) system)) messages.

(** A tool call of OpenAI and the tool call of the response made of
    it: same id, same name, and the arguments parsed. *)
Definition parsed_from (J : JSON_builtin) (tc : OpenAIToolCall) (call : ToolCall)
  : Prop :=
  id call = call_id tc
  /\ toolName call = function_name tc
  /\ JSON_parse J (function_arguments tc) = Ok (arguments call).

End Wire.


(* ===================================================================== *)
(** ** Vocabulary for the statements about whole executions *)
(* ===================================================================== *)

Module Protocol.

Import ReActEngine Trace.

(** [holds P m Q]: run from a state satisfying [P], the computation [m]
    ends with an outcome and a state related by [Q].  The state holds
    what has been asked of the collaborators as well as the variables. *)
Definition holds {A} (P : State -> Prop) (m : M A)
  (Q : Result A -> State -> Prop) : Prop :=
  forall s out s', m s = (out, s') -> P s -> Q out s'.

(** A property of the state that survives what the processing of a
    tool call does: reading the clock, sending a statement, invoking a
    tool, pushing a step or a message. *)
Record calls_stable (H : Host) (I : State -> Prop) : Prop := {
  kept_by_now : forall s, I s -> I (snd (now H s));
  kept_by_query : forall q s, I s -> I (snd (query H q s));
  kept_by_invoke : forall toolName args s, I s -> I (snd (invoke H toolName args s));
  kept_by_push_step : forall st s, I s -> I (on_vars (push_step st) s);
  kept_by_push_message : forall m s, I s -> I (on_vars (push_message m) s)
}.

(** A property of the state that survives what [execute] does around
    the loop. *)
Record around_stable (H : Host) (I : State -> Prop) : Prop := {
  kept_around_now : forall s, I s -> I (snd (now H s));
  kept_around_query : forall q s, I s -> I (snd (query H q s));
  kept_by_set_messages : forall ms s, I s -> I (on_vars (set_messages ms) s);
  kept_by_set_status : forall st s, I s -> I (on_vars (set_status st) s);
  kept_by_set_finalAnswer : forall a s, I s -> I (on_vars (set_finalAnswer a) s)
}.

Record execution_stable (H : Host) (I : State -> Prop) : Prop := {
  kept_by_calls : calls_stable H I;
  kept_around : around_stable H I
}.

(** The calls of the gateway are not more than the passes begun, and
    these are not more than the agent allows. *)
Definition calls_within_passes (agentConfig : AgentConfig) (s : State) : Prop :=
  Z.of_nat (chats (world s)) <= iteration (vars s)
  /\ iteration (vars s) <= Z.max 0 (maxIterations agentConfig).

(** *** The statements sent to the store *)

(** The entry of the step log written for a step.  [logStep] has no
    parameter for the observation: the text of an observation step is
    passed in the position of [reasoning]. *)
Definition log_entry (H : Host) (executionId : string) (st : ExecutionStep)
  : Query :=
  insert_execution_log executionId (stepNumber st) (stepType st)
    (match stepType st with
     | Observation => observation st
     | _ => reasoning st
     end)
    (match action st with
     | Some (tool, arguments) =>
         Some (JSON_stringify (JSON H)
                 (VObj [("tool", VStr tool); ("arguments", arguments)]))
     | None => None
     end).

(** The statements sent up to a point of the loop: the one that
    creates the execution, then one entry of the step log per step. *)
Definition logged (H : Host) (first : Query) (s : State) : Prop :=
  queries (world s) = first :: map (log_entry H (uuidv4 H)) (cur_steps (vars s)).

(** The two statements by which the [try] block closes an execution. *)
Definition closing (q : Query) : Prop :=
  match q with
  | update_execution _ _ _ _ _ _ _ | insert_usage_tracking _ _ _ _ => True
  | _ => False
  end.

(** ... and when some of the closing statements have been sent. *)
Definition logged_and_closing (H : Host) (first : Query) (s : State) : Prop :=
  exists attempts,
    queries (world s)
    = (first :: map (log_entry H (uuidv4 H)) (cur_steps (vars s)) ++ attempts)%list
    /\ Forall closing attempts.

(** The statements that an execution resolved to [r] has sent, [s]
    being the state it ends in. *)
Definition statements_of (H : Host) (agentConfig : AgentConfig)
  (input userId : string) (r : ExecutionResult) (s : State) : Prop :=
  let first := insert_execution (uuidv4 H) (id agentConfig) userId input in
  let entries := map (log_entry H (uuidv4 H)) (steps r) in
  match error r with
  | None =>
      queries (world s)
      = (first :: entries
           ++ [ update_execution (output r) (status r) (iteration (vars s))
                  (tokensUsed r) (cost r) (executionTimeMs r) (uuidv4 H);
                insert_usage_tracking userId (uuidv4 H) (tokensUsed r) (cost r) ])%list
  | Some message =>
      status r = Error
      /\ exists attempts,
           queries (world s)
           = (first :: entries ++ attempts
                ++ [ update_execution_error message (executionTimeMs r)
                       (uuidv4 H) ])%list
           /\ Forall closing attempts
  end.

(** *** The tools invoked *)

(** The tool calls that the steps record as actions, oldest first. *)
Definition requested (steps : list ExecutionStep) : list (string * value) :=
  flat_map (fun st => match action st with
                      | Some call => [call]
                      | None => []
                      end) steps.

(** Every action recorded has been invoked, and nothing else. *)
Definition invoked (s : State) : Prop :=
  invocations (world s) = requested (cur_steps (vars s)).

(** ... but for the action [call], recorded last. *)
Definition invoked_but (call : string * value) (s : State) : Prop :=
  (invocations (world s) ++ [call])%list = requested (cur_steps (vars s)).

(** ... but for one action at most. *)
Definition invoked_or_pending (s : State) : Prop :=
  exists pending,
    requested (cur_steps (vars s)) = (invocations (world s) ++ pending)%list
    /\ (List.length pending <= 1)%nat.

(** *** The ways out of the loop *)

(** At the loop test, as long as no pass has broken out: the status is
    still the initial one. *)
Definition searching (s : State) : Prop :=
  cur_status (vars s) = Success /\ 0 <= iteration (vars s).

(** The last step pushed is the final step of the current pass, and
    it holds the answer. *)
Definition answered (s : State) : Prop :=
  exists before t,
    cur_steps (vars s)
    = (before ++ [final_step (iteration (vars s)) (finalAnswer (vars s)) t])%list.

(** The state in which the loop is left without a throw: the passes
    are used up, or the last pass has answered, or it has timed out. *)
Definition left (agentConfig : AgentConfig) (s : State) : Prop :=
  (cur_status (vars s) = Success
   /\ (maxIterations agentConfig <= iteration (vars s)
       \/ (answered s /\ 0 < iteration (vars s))))
  \/ (cur_status (vars s) = Timeout
      /\ finalAnswer (vars s) = "Execution timed out").

(** What a result holds, status by status. *)
Definition shaped (agentConfig : AgentConfig) (r : ExecutionResult) : Prop :=
  match status r with
  | Success =>
      error r = None
      /\ exists before n t,
           steps r = (before ++ [final_step n (output r) t])%list
           /\ 0 < n < maxIterations agentConfig
  | Timeout =>
      error r = None /\ output r = "Execution timed out"
  | MaxIterations =>
      error r = None
      /\ output r = "Maximum iterations reached without finding a final answer"
  | Error =>
      output r = "" /\ exists message, error r = Some message
  end.

(** *** Conditions on the collaborators *)

(** The gateway answers every conversation, and always with tool
    calls. *)
Definition always_calls_tools (H : Host) (agentConfig : AgentConfig)
  (tools : list value) : Prop :=
  forall turn ms,
    exists response,
      LLMClient.chat (llmClient H) turn ms (gateway_options agentConfig tools)
      = Ok response
      /\ no_tool_calls response = false.

(** No reading of the clock is past the time budget. *)
Definition within_budget (H : Host) (agentConfig : AgentConfig) : Prop :=
  forall k, Date_now H k - Date_now H 0 <= timeoutSeconds agentConfig * 1000.

(** No final step has been pushed. *)
Definition no_final (steps : list ExecutionStep) : Prop :=
  Forall (fun st => stepType st <> Final) steps.

(** *** The executor that ships with the engine *)

(** The host invokes [ToolExecutor.execute] on the platform [P]. *)
Definition shipped_executor (H : Host) (P : ToolExecutor.Platform) : Prop :=
  forall k toolName args,
    toolExecutor_execute H k toolName args = ToolExecutor.execute P toolName args.

(** An observation step holds the serialised result of an invocation. *)
Definition observes_result (H : Host) (P : ToolExecutor.Platform)
  (st : ExecutionStep) : Prop :=
  stepType st = Observation ->
  exists toolName args result,
    ToolExecutor.execute P toolName args = Ok result
    /\ observation st = Some (JSON_stringify (JSON H) (ToolResult_value result)).

(** *** The tools attached to an agent *)

(** A tool that the system prompt can describe: its schema is JSON
    for a value with a [function] property, neither of them [null] or
    [undefined]. *)
Definition describable (H : Host) (t : AttachedTool) : Prop :=
  exists parsed,
    JSON_parse (JSON H) (schema t) = Ok parsed
    /\ Notions.nullish parsed = false
    /\ Notions.nullish (Notions.prop parsed "function") = false.

(** A tool whose description can be put into the prompt: its schema
    is JSON for a value whose [function.description] can be converted
    to a string. *)
Definition description_converts (H : Host) (t : AttachedTool) : Prop :=
  exists parsed,
    JSON_parse (JSON H) (schema t) = Ok parsed
    /\ Notions.hides_toString
         (Notions.prop (Notions.prop parsed "function") "description") = false.

(** The model identifier starts with none of the prefixes that [chat]
    routes. *)
Definition unrouted (model : string) : Prop :=
  String.prefix "gpt-" model = false
  /\ String.prefix "o1-" model = false
  /\ String.prefix "claude-" model = false.

(** *** The clock *)

(** A clock that never goes back. *)
Definition monotone_clock (H : Host) : Prop :=
  forall a b, (a <= b)%nat -> Date_now H a <= Date_now H b.

(** Every step carries a reading of the clock already made, and the
    steps are in the order of their readings. *)
Definition stamped (H : Host) (s : State) : Prop :=
  StronglySorted Z.le (map timestamp (cur_steps (vars s)))
  /\ Forall (fun st => exists k, (k < clock_reads (world s))%nat
                                 /\ timestamp st = Date_now H k)
       (cur_steps (vars s)).

(** The steps of a result are in the order of time, within the time
    that the execution took. *)
Definition chronological (H : Host) (r : ExecutionResult) : Prop :=
  StronglySorted Z.le (map timestamp (steps r))
  /\ Forall (fun st => Date_now H 0 <= timestamp st
                       /\ timestamp st <= Date_now H 0 + executionTimeMs r)
       (steps r)
  /\ 0 <= executionTimeMs r.

End Protocol.


(* ===================================================================== *)
(** ** More sample collaborators *)
(* ===================================================================== *)

Module Networks.

(** A network on which every request is answered [404 Not Found]. *)
Definition not_found : ToolExecutor.Response :=
  {| ToolExecutor.ok := false;
     ToolExecutor.status := 404;
     ToolExecutor.statusText := "Not Found";
     ToolExecutor.text := Ok "no such page";
     ToolExecutor.json := Throw "Unexpected token n in JSON at position 0" |}.

Definition not_found_network : ToolExecutor.Platform :=
  {| ToolExecutor.PERPLEXITY_API_KEY := Some "";
     ToolExecutor.fetch := fun _ _ => Ok not_found;
     ToolExecutor.JSON := Samples.json |}.

(** A network on which Perplexity answers every request. *)
Definition perplexity_answer : ToolExecutor.Response :=
  {| ToolExecutor.ok := true;
     ToolExecutor.status := 200;
     ToolExecutor.statusText := "OK";
     ToolExecutor.text := Ok "";
     ToolExecutor.json :=
       Ok (VObj [("choices",
                  VArr [VObj [("message",
                               VObj [("content", VStr "Rocq is a proof assistant.")])]])]) |}.

Definition answering_network : ToolExecutor.Platform :=
  {| ToolExecutor.PERPLEXITY_API_KEY := Some "pplx-key";
     ToolExecutor.fetch := fun _ _ => Ok perplexity_answer;
     ToolExecutor.JSON := Samples.json |}.

End Networks.

Module Replies.

(** Claude asks for a search after a line of text. *)
Definition claude_search : LLMClient.AnthropicMessage :=
  {| LLMClient.message_blocks :=
       [ LLMClient.text_block "Let me look it up.";
         LLMClient.tool_use_block "toolu_1" "web_search"
           (VObj [("query", VStr "capital of France")]);
         LLMClient.text_block "One moment." ];
     LLMClient.message_usage :=
       {| LLMClient.input_tokens := 20; LLMClient.output_tokens := 9 |};
     LLMClient.message_model := "claude-3-haiku-20240307" |}.

(** Providers whose answers ask for a search; the tool call of OpenAI
    carries arguments that are not JSON on its second answer. *)
Definition searching_providers : LLMClient.Providers :=
  {| LLMClient.openai_chat_completions_create :=
       fun turn _ =>
         match turn with
         | O => Ok (Samples.one_choice None (Some [Samples.search_call]) 10 5 15)
         | S _ =>
             Ok (Samples.one_choice None
                   (Some [ {| LLMClient.call_id := "call_2";
                              LLMClient.function_name := "web_search";
                              LLMClient.function_arguments := "{query:" |} ])
                   10 5 15)
         end;
     LLMClient.anthropic_messages_create := fun _ _ => Ok claude_search;
     LLMClient.JSON := Samples.json;
     LLMClient.config_execution_defaultModel := "gpt-4-turbo-preview" |}.

End Replies.

Module Scenarios.

Import ReActEngine.

(** The model asks for a search on every turn; the executor fails
    every invocation without throwing. *)
Definition searching_host : Host :=
  {| uuidv4 := "exec-8";
     Date_now := fun _ => 1700000000000;
     db_query := fun _ _ => None;
     JSON := Samples.json;
     openai_chat_completions_create :=
       fun _ _ => Ok (Samples.one_choice (Some "I should search.")
                        (Some [Samples.search_call]) 10 5 15);
     anthropic_messages_create := fun _ _ => Ok Samples.claude_reply;
     config_execution_defaultModel := "gpt-4-turbo-preview";
     toolExecutor_execute := fun _ _ _ => Ok (ToolExecutor.failure "no results") |}.

(** The model asks for one search and then answers; the executor is
    [ToolExecutor.execute] on a platform without network. *)
Definition offline_host : Host :=
  {| uuidv4 := "exec-9";
     Date_now := fun _ => 1700000000000;
     db_query := fun _ _ => None;
     JSON := Samples.json;
     openai_chat_completions_create :=
       fun turn _ =>
         match turn with
         | O => Ok (Samples.one_choice (Some "I should search.")
                      (Some [Samples.search_call]) 10 5 15)
         | S _ => Ok (Samples.one_choice (Some "42") None 20 5 25)
         end;
     anthropic_messages_create := fun _ _ => Ok Samples.claude_reply;
     config_execution_defaultModel := "gpt-4-turbo-preview";
     toolExecutor_execute :=
       fun _ => ToolExecutor.execute Samples.unreachable_network |}.

(** A tool whose schema is JSON for an object without [function]. *)
Definition bare_tool : AttachedTool :=
  {| tool_id := "tool-2"; tool_name := "calculator"; schema := "{}" |}.

(** A tool whose description is an object with a property named
    [toString]. *)
Definition opaque_tool : AttachedTool :=
  {| tool_id := "tool-3"; tool_name := "oracle";
     schema := "{'function':{'description':{'toString':1}}}" |}.

End Scenarios.

Module Backends.

Import ReActEngine ExecutionsRoute.

Definition alice : User :=
  {| user_id := "user-1"; clerkId := "clerk_1"; email := "alice@example.com";
     username := None |}.

(** An agent without tools, as the store returns it. *)
Definition helper_row : AgentRow :=
  {| row_id := "agent-1"; system_prompt := "You are helpful.";
     row_model := "gpt-4"; max_iterations := 10; timeout_seconds := 300;
     row_tools := None |}.

(** The store knows one agent; the engine is the ReAct engine on [H]. *)
Definition engine_on (H : Host) : Backend :=
  {| select_agent := fun _ _ => Ok [helper_row];
     reactEngine_execute :=
       fun agentConfig input userId =>
         match input with
         | VStr text => fst (run H agentConfig text userId)
         | _ => Throw "input is not a string"
         end;
     db_query := fun _ _ => Ok [] |}.

Definition question : Request :=
  {| user := Some alice;
     body := VObj [("agentId", VStr "agent-1"); ("input", VStr "What is 6 x 7?")];
     params := VObj [];
     query := VObj [] |}.

End Backends.


(* ===================================================================== *)
(** ** Properties of binary64 arithmetic

    What the accounting of costs needs of [SpecFloat]'s operations:
    the sum of two numbers that are not negative is not below either
    of them, and the operations return valid numbers. *)
(* ===================================================================== *)

Module Binary64Facts.

Import Binary64.

Lemma fexp_eq (x : Z) : fexp prec emax x = Z.max (x - 53) (-1074).
Proof. reflexivity. Qed.

Lemma digits_bounds (p : positive) :
  2 ^ (Zpos (digits2_pos p) - 1) <= Zpos p < 2 ^ Zpos (digits2_pos p).
Proof.
  induction p as [p IH | p IH |]; simpl digits2_pos.
  - rewrite Pos2Z.inj_succ.
    replace (Z.succ (Zpos (digits2_pos p)) - 1) with (Z.succ (Zpos (digits2_pos p) - 1)) by lia.
    rewrite !Z.pow_succ_r by lia. lia.
  - rewrite Pos2Z.inj_succ.
    replace (Z.succ (Zpos (digits2_pos p)) - 1) with (Z.succ (Zpos (digits2_pos p) - 1)) by lia.
    rewrite !Z.pow_succ_r by lia. lia.
  - simpl. lia.
Qed.

Lemma Zdigits2_bounds (m : Z) :
  0 < m -> 0 < Zdigits2 m /\ 2 ^ (Zdigits2 m - 1) <= m < 2 ^ Zdigits2 m.
Proof.
  destruct m as [| p | p]; try lia. intros _. simpl Zdigits2.
  split; [lia | apply digits_bounds].
Qed.

Lemma Zdigits2_unique (m k : Z) :
  0 < m -> 2 ^ (k - 1) <= m < 2 ^ k -> Zdigits2 m = k.
Proof.
  intros Hm [Hlo Hhi].
  destruct (Zdigits2_bounds m Hm) as (Hd & Hdlo & Hdhi).
  assert (Hk : 0 < k).
  { destruct (Z.ltb_spec 0 k) as [? | Hle]; [assumption|].
    destruct (Z.eqb_spec k 0) as [-> | Hne]; [simpl in Hhi; lia|].
    rewrite Z.pow_neg_r in Hhi by lia. lia. }
  destruct (Z.lt_trichotomy (Zdigits2 m) k) as [Hlt | [Heq | Hgt]]; [| exact Heq |].
  - assert (2 ^ Zdigits2 m <= 2 ^ (k - 1)) by (apply Z.pow_le_mono_r; lia). lia.
  - assert (2 ^ k <= 2 ^ (Zdigits2 m - 1)) by (apply Z.pow_le_mono_r; lia). lia.
Qed.

Lemma Zdigits2_mono (a b : Z) : 0 < a -> a <= b -> Zdigits2 a <= Zdigits2 b.
Proof.
  intros Ha Hab.
  destruct (Zdigits2_bounds a Ha) as (Hda & Halo & Hahi).
  destruct (Zdigits2_bounds b ltac:(lia)) as (Hdb & Hblo & Hbhi).
  destruct (Z.le_gt_cases (Zdigits2 a) (Zdigits2 b)) as [? | Hgt]; [assumption|].
  assert (2 ^ Zdigits2 b <= 2 ^ (Zdigits2 a - 1)) by (apply Z.pow_le_mono_r; lia).
  lia.
Qed.

Lemma Zdigits2_shift (m k : Z) :
  0 < m -> 0 <= k -> Zdigits2 (m * 2 ^ k) = Zdigits2 m + k.
Proof.
  intros Hm Hk.
  destruct (Zdigits2_bounds m Hm) as (Hd & Hlo & Hhi).
  assert (Hp : 0 < 2 ^ k) by (apply Z.pow_pos_nonneg; lia).
  apply Zdigits2_unique; [nia|].
  replace (Zdigits2 m + k - 1) with ((Zdigits2 m - 1) + k) by lia.
  rewrite !Z.pow_add_r by lia. nia.
Qed.

(** Dividing by a power of two drops that many digits. *)
Lemma div_pow2_bounds (m d n : Z) :
  0 <= n < d -> 2 ^ (d - 1) <= m < 2 ^ d ->
  2 ^ (d - 1 - n) <= m / 2 ^ n < 2 ^ (d - n).
Proof.
  intros Hn [Hlo Hhi].
  assert (Hp : 0 < 2 ^ n) by (apply Z.pow_pos_nonneg; lia).
  split.
  - apply Z.div_le_lower_bound; [exact Hp|].
    rewrite <- Z.pow_add_r by lia. now replace (n + (d - 1 - n)) with (d - 1) by lia.
  - apply Z.div_lt_upper_bound; [exact Hp|].
    rewrite <- Z.pow_add_r by lia. now replace (n + (d - n)) with d by lia.
Qed.

Lemma shr_1_m (mrs : shr_record) :
  0 <= shr_m mrs -> shr_m (shr_1 mrs) = shr_m mrs / 2.
Proof.
  destruct mrs as [m r s]. simpl shr_m. intros Hm.
  rewrite <- Z.div2_div.
  destruct m as [| [p | p |] | p]; try reflexivity; lia.
Qed.

Lemma iter_shr_1_m (p : positive) (mrs : shr_record) :
  0 <= shr_m mrs ->
  shr_m (iter_pos shr_1 p mrs) = shr_m mrs / 2 ^ Zpos p.
Proof.
  revert mrs. induction p as [p IH | p IH |]; intros mrs Hm; simpl iter_pos.
  - assert (H1 : 0 <= shr_m (shr_1 mrs)).
    { rewrite shr_1_m by exact Hm. apply Z.div_pos; lia. }
    assert (Hp : 0 < 2 ^ Zpos p) by (apply Z.pow_pos_nonneg; lia).
    assert (H2 : 0 <= shr_m (iter_pos shr_1 p (shr_1 mrs))).
    { rewrite IH by exact H1. apply Z.div_pos; lia. }
    rewrite IH by exact H2. rewrite IH by exact H1. rewrite shr_1_m by exact Hm.
    rewrite !Z.div_div by lia. f_equal.
    change 2 with (2 ^ 1) at 1.
    rewrite <- !Z.pow_add_r by lia. f_equal. lia.
  - assert (Hp : 0 < 2 ^ Zpos p) by (apply Z.pow_pos_nonneg; lia).
    assert (H2 : 0 <= shr_m (iter_pos shr_1 p mrs)).
    { rewrite IH by exact Hm. apply Z.div_pos; lia. }
    rewrite IH by exact H2. rewrite IH by exact Hm.
    rewrite !Z.div_div by lia. f_equal.
    rewrite <- Z.pow_add_r by lia. f_equal. lia.
  - rewrite shr_1_m by exact Hm. reflexivity.
Qed.

Lemma shr_record_of_loc_m (m : Z) (l : location) :
  shr_m (shr_record_of_loc m l) = m.
Proof. destruct l as [| []]; reflexivity. Qed.

(** The shift made by [shr_fexp], when it is not negative. *)
Lemma shr_fexp_spec (m e : Z) (l : location) :
  0 <= m ->
  e <= fexp prec emax (Zdigits2 m + e) ->
  exists mrs,
    shr_fexp prec emax m e l = (mrs, fexp prec emax (Zdigits2 m + e))
    /\ shr_m mrs = m / 2 ^ (fexp prec emax (Zdigits2 m + e) - e).
Proof.
  intros Hm He. unfold shr_fexp, shr.
  destruct (fexp prec emax (Zdigits2 m + e) - e) as [| n | n] eqn:En; try lia.
  - exists (shr_record_of_loc m l). split; [f_equal; lia|].
    rewrite shr_record_of_loc_m. simpl. now rewrite Z.div_1_r.
  - eexists. split; [f_equal; lia|].
    rewrite iter_shr_1_m by (rewrite shr_record_of_loc_m; exact Hm).
    now rewrite shr_record_of_loc_m.
Qed.

Lemma round_nearest_even_bounds (m : Z) (l : location) :
  m <= round_nearest_even m l <= m + 1.
Proof.
  destruct l as [| []]; simpl; try lia. destruct (Z.even m); lia.
Qed.

Lemma Zdigits2_to_pos (m : Z) : 0 < m -> Zpos (digits2_pos (Z.to_pos m)) = Zdigits2 m.
Proof. destruct m; try lia. reflexivity. Qed.

Lemma canonical_digits (m e : Z) :
  0 < m -> fexp prec emax (Zdigits2 m + e) = e ->
  canonical_mantissa prec emax (Z.to_pos m) e = true.
Proof.
  intros Hm E. unfold canonical_mantissa.
  rewrite Zdigits2_to_pos by exact Hm. now apply Z.eqb_eq.
Qed.

(** Rounding a positive mantissa whose exponent is not above the one
    of its format. *)
Lemma binary_round_aux_spec (m e : Z) (l : location) :
  0 < m ->
  e <= fexp prec emax (Zdigits2 m + e) ->
  exists mr er,
    binary_round_aux prec emax false m e l = rounded mr er
    /\ 0 <= mr
    /\ (0 < mr -> canonical_mantissa prec emax (Z.to_pos mr) er = true)
    /\ fexp prec emax (Zdigits2 m + e) <= er
    /\ (er = fexp prec emax (Zdigits2 m + e) -> m / 2 ^ (er - e) <= mr)
    /\ (er <> -1074 -> 0 < mr).
Proof.
  intros Hm He.
  assert (P52 : 2 ^ 52 = 4503599627370496) by reflexivity.
  assert (P53 : 2 ^ 53 = 9007199254740992) by reflexivity.
  destruct (Zdigits2_bounds m Hm) as (Hd & Hlo & Hhi).
  unfold binary_round_aux.
  destruct (shr_fexp_spec m e l ltac:(lia) He) as (mrs1 & E1 & Hm1).
  rewrite E1.
  set (e1 := fexp prec emax (Zdigits2 m + e)) in *.
  set (m2 := round_nearest_even (shr_m mrs1) (loc_of_shr_record mrs1)).
  pose proof (round_nearest_even_bounds (shr_m mrs1) (loc_of_shr_record mrs1)) as Hm2.
  fold m2 in Hm2. rewrite Hm1 in Hm2.
  assert (Hm1' : 0 <= m / 2 ^ (e1 - e)).
  { apply Z.div_pos; [lia|]. apply Z.pow_pos_nonneg; lia. }
  pose proof (fexp_eq (Zdigits2 m + e)) as He1. fold e1 in He1.
  destruct (Z.le_gt_cases (-1074) (Zdigits2 m + e - 53)) as [Hnormal | Hsub].
  - (* the mantissa fills the format *)
    assert (E : e1 = Zdigits2 m + e - 53) by lia.
    pose proof (div_pow2_bounds m (Zdigits2 m) (e1 - e) ltac:(lia) ltac:(lia)) as Hb.
    replace (Zdigits2 m - 1 - (e1 - e)) with 52 in Hb by lia.
    replace (Zdigits2 m - (e1 - e)) with 53 in Hb by lia.
    destruct (Z.eq_dec m2 (2 ^ 53)) as [Hcarry | Hnocarry].
    + assert (Hd2 : Zdigits2 m2 = 54).
      { rewrite Hcarry. reflexivity. }
      destruct (shr_fexp_spec m2 e1 loc_Exact ltac:(lia)) as (mrs2 & E2 & Hm3).
      { rewrite Hd2, fexp_eq. lia. }
      rewrite E2. rewrite Hd2 in E2, Hm3 |- *.
      assert (E3 : fexp prec emax (54 + e1) = e1 + 1) by (rewrite fexp_eq; lia).
      rewrite E3 in Hm3 |- *.
      replace (e1 + 1 - e1) with 1 in Hm3 by lia.
      rewrite Hcarry in Hm3. change (2 ^ 53 / 2 ^ 1) with (2 ^ 52) in Hm3.
      exists (2 ^ 52), (e1 + 1). rewrite Hm3.
      split; [reflexivity|]. split; [lia|]. split.
      * intros _. apply canonical_digits; [lia|].
        change (Zdigits2 (2 ^ 52)) with 53. rewrite fexp_eq. lia.
      * split; [lia|]. split; [lia|]. intros _. lia.
    + assert (Hd2 : Zdigits2 m2 = 53).
      { apply Zdigits2_unique; [lia|]. change (53 - 1) with 52. lia. }
      destruct (shr_fexp_spec m2 e1 loc_Exact ltac:(lia)) as (mrs2 & E2 & Hm3).
      { rewrite Hd2, fexp_eq. lia. }
      rewrite E2. rewrite Hd2 in E2, Hm3 |- *.
      assert (E3 : fexp prec emax (53 + e1) = e1) by (rewrite fexp_eq; lia).
      rewrite E3 in Hm3 |- *.
      rewrite Z.sub_diag, Z.pow_0_r, Z.div_1_r in Hm3.
      exists m2, e1. rewrite Hm3.
      split; [reflexivity|]. split; [lia|]. split.
      * intros _. apply canonical_digits; [lia|]. now rewrite Hd2.
      * split; [lia|]. split; [lia|]. intros _. lia.
  - (* the exponent is the least one *)
    assert (E : e1 = -1074) by lia.
    assert (Hb : m / 2 ^ (e1 - e) < 2 ^ 52).
    { destruct (Z.lt_ge_cases (e1 - e) (Zdigits2 m)) as [Hin | Hout].
      - assert (2 ^ (Zdigits2 m - (e1 - e)) <= 2 ^ 52)
          by (apply Z.pow_le_mono_r; lia).
        pose proof (div_pow2_bounds m (Zdigits2 m) (e1 - e) ltac:(lia) ltac:(lia)).
        lia.
      - assert (2 ^ Zdigits2 m <= 2 ^ (e1 - e)) by (apply Z.pow_le_mono_r; lia).
        rewrite Z.div_small by lia. lia. }
    assert (Hd2 : fexp prec emax (Zdigits2 m2 + e1) = e1).
    { rewrite fexp_eq.
      destruct (Z.eq_dec m2 0) as [-> | Hpos]; [simpl; lia|].
      assert (Zdigits2 m2 <= Zdigits2 (2 ^ 52)) by (apply Zdigits2_mono; lia).
      change (Zdigits2 (2 ^ 52)) with 53 in *. lia. }
    destruct (shr_fexp_spec m2 e1 loc_Exact ltac:(lia)) as (mrs2 & E2 & Hm3).
    { rewrite Hd2. lia. }
    rewrite E2. rewrite Hd2 in Hm3 |- *.
    rewrite Z.sub_diag, Z.pow_0_r, Z.div_1_r in Hm3.
    exists m2, e1. rewrite Hm3.
    split; [reflexivity|]. split; [lia|]. split.
    + intros Hpos. now apply canonical_digits.
    + split; [lia|]. split; [lia|]. intros ?. lia.
Qed.

Lemma pos_iter_xO (m d : positive) : Zpos (Pos.iter xO m d) = Zpos m * 2 ^ Zpos d.
Proof.
  induction d as [| d IH] using Pos.peano_ind.
  - simpl. lia.
  - rewrite Pos.iter_succ, Pos2Z.inj_xO, IH, Pos2Z.inj_succ.
    rewrite Z.pow_succ_r by lia. lia.
Qed.

Lemma shl_align_spec (m : positive) (e e' : Z) :
  e' <= e ->
  Zpos (fst (shl_align m e e')) = Zpos m * 2 ^ (e - e')
  /\ snd (shl_align m e e') = e'.
Proof.
  intros He. unfold shl_align.
  destruct (e' - e) as [| d | d] eqn:Ed; try lia; simpl fst; simpl snd.
  - replace (e - e') with 0 by lia. simpl. lia.
  - rewrite pos_iter_xO. replace (e - e') with (Zpos d) by lia. lia.
Qed.

Lemma shl_align_keep (m : positive) (e e' : Z) :
  e <= e' -> shl_align m e e' = (m, e).
Proof.
  intros He. unfold shl_align.
  destruct (e' - e) as [| d | d] eqn:Ed; try lia; reflexivity.
Qed.

(** Rounding a positive integer multiple of a power of two. *)
Lemma binary_round_spec (m : positive) (e : Z) :
  exists mr er,
    binary_round prec emax false m e = rounded mr er
    /\ 0 <= mr
    /\ (0 < mr -> canonical_mantissa prec emax (Z.to_pos mr) er = true)
    /\ fexp prec emax (Zdigits2 (Zpos m) + e) <= er
    /\ (er = fexp prec emax (Zdigits2 (Zpos m) + e) ->
        forall lower k, 0 <= k -> er = e + k -> lower * 2 ^ k <= Zpos m -> lower <= mr)
    /\ (er <> -1074 -> 0 < mr).
Proof.
  unfold binary_round.
  change (Zpos (digits2_pos m)) with (Zdigits2 (Zpos m)).
  set (e' := fexp prec emax (Zdigits2 (Zpos m) + e)).
  destruct (Z.le_gt_cases e e') as [Hle | Hgt].
  - rewrite shl_align_keep by exact Hle.
    destruct (binary_round_aux_spec (Zpos m) e loc_Exact ltac:(lia) Hle)
      as (mr & er & E & Hmr & Hcan & Her & Hlow & Hpos).
    exists mr, er. fold e' in Her, Hlow.
    repeat (split; [assumption|]). split; [| exact Hpos].
    intros Heq lower k Hk Hek Hlower. specialize (Hlow Heq).
    replace (er - e) with k in Hlow by lia.
    assert (Hp : 0 < 2 ^ k) by (apply Z.pow_pos_nonneg; lia).
    assert (lower <= Zpos m / 2 ^ k) by (apply Z.div_le_lower_bound; lia).
    lia.
  - destruct (shl_align_spec m e e' ltac:(lia)) as [Hfst Hsnd].
    destruct (shl_align m e e') as [mz ez]. cbn [fst snd] in Hfst, Hsnd. subst ez.
    assert (Hp : 0 < 2 ^ (e - e')) by (apply Z.pow_pos_nonneg; lia).
    assert (Hdz : Zdigits2 (Zpos mz) + e' = Zdigits2 (Zpos m) + e).
    { rewrite Hfst, Zdigits2_shift by lia. lia. }
    destruct (binary_round_aux_spec (Zpos mz) e' loc_Exact ltac:(lia))
      as (mr & er & E & Hmr & Hcan & Her & Hlow & Hpos).
    { rewrite Hdz. fold e'. lia. }
    rewrite Hdz in Her, Hlow. fold e' in Her, Hlow.
    exists mr, er.
    repeat (split; [assumption|]). split; [| exact Hpos].
    intros Heq lower k Hk Hek Hlower. lia.
Qed.

Lemma rounded_valid (mr er : Z) :
  0 <= mr ->
  (0 < mr -> canonical_mantissa prec emax (Z.to_pos mr) er = true) ->
  valid (rounded mr er).
Proof.
  intros Hmr Hcan. unfold valid, rounded.
  destruct mr as [| p | p]; try lia; [reflexivity|].
  destruct (er <=? emax - prec) eqn:Hb; [| reflexivity].
  simpl. unfold bounded. rewrite Hb.
  specialize (Hcan ltac:(lia)). simpl in Hcan. now rewrite Hcan.
Qed.

Lemma rounded_not_negative (mr er : Z) : 0 <= mr -> not_negative (rounded mr er).
Proof.
  intros Hmr. unfold not_negative, rounded.
  destruct mr as [| p | p]; try lia; [reflexivity|].
  destruct (er <=? emax - prec); reflexivity.
Qed.

Lemma leb_rounded (mx : positive) (ex mr er : Z) :
  ex <= emax - prec ->
  (ex < er /\ 0 < mr) \/ (ex = er /\ Zpos mx <= mr) ->
  leb (S754_finite false mx ex) (rounded mr er) = true.
Proof.
  intros Hb Hcase. unfold rounded.
  destruct mr as [| p | p]; try lia.
  destruct (er <=? emax - prec) eqn:Her; [| reflexivity].
  unfold leb, SFleb, SFcompare.
  destruct Hcase as [[Hlt _] | [-> Hle]].
  - apply Z.compare_lt_iff in Hlt. now rewrite Hlt.
  - rewrite Z.compare_refl.
    change (Pos.compare_cont Eq mx p) with (Pos.compare mx p).
    destruct (Pos.compare_spec mx p); try reflexivity. lia.
Qed.

Lemma valid_finite (s : bool) (m : positive) (e : Z) :
  valid (S754_finite s m e) ->
  fexp prec emax (Zdigits2 (Zpos m) + e) = e /\ e <= emax - prec.
Proof.
  unfold valid. simpl. unfold bounded, canonical_mantissa.
  intros Hb. apply andb_prop in Hb. destruct Hb as [Hc Hb].
  apply Z.eqb_eq in Hc. apply Z.leb_le in Hb. now split.
Qed.

Lemma not_negative_cases (x : number) :
  not_negative x ->
  (exists s, x = S754_zero s) \/ x = S754_infinity false
  \/ exists m e, x = S754_finite false m e.
Proof.
  unfold not_negative.
  destruct x as [s | [|] | | [|] m e]; try discriminate; intros _; eauto.
Qed.

Lemma leb_refl (x : number) : not_negative x -> leb x x = true.
Proof.
  intros Hx.
  destruct (not_negative_cases x Hx) as [[s ->] | [-> | (m & e & ->)]];
    try reflexivity.
  unfold leb, SFleb, SFcompare. rewrite Z.compare_refl.
  change (Pos.compare_cont Eq m m) with (Pos.compare m m).
  now rewrite Pos.compare_refl.
Qed.

Lemma leb_finite (m1 : positive) (e1 : Z) (m2 : positive) (e2 : Z) :
  leb (S754_finite false m1 e1) (S754_finite false m2 e2) = true
  <-> e1 < e2 \/ (e1 = e2 /\ (m1 <= m2)%positive).
Proof.
  unfold leb, SFleb, SFcompare.
  change (Pos.compare_cont Eq m1 m2) with (Pos.compare m1 m2).
  destruct (Z.compare_spec e1 e2) as [-> | Hlt | Hgt].
  - destruct (Pos.compare_spec m1 m2) as [-> | Hm | Hm]; split; intros Hc;
      try reflexivity; try discriminate Hc; try lia.
  - split; [left; exact Hlt | reflexivity].
  - split; [discriminate | lia].
Qed.

Lemma leb_trans (x y z : number) :
  not_negative x -> not_negative y -> not_negative z ->
  leb x y = true -> leb y z = true -> leb x z = true.
Proof.
  intros Hx Hy Hz.
  destruct (not_negative_cases x Hx) as [[sx ->] | [-> | (mx & ex & ->)]];
    destruct (not_negative_cases y Hy) as [[sy ->] | [-> | (my & ey & ->)]];
    destruct (not_negative_cases z Hz) as [[sz ->] | [-> | (mz & ez & ->)]];
    try reflexivity; try (intros E; discriminate E);
    try (intros _ E; discriminate E).
  rewrite !leb_finite. clear.
  intros [H1 | [-> H1]] [H2 | [-> H2]]; try (left; lia).
  right. split; [reflexivity|]. now apply Pos.le_trans with my.
Qed.

(** The sum of two numbers that are not negative is not below the
    first. *)
Lemma add_not_below (x y : number) :
  valid x -> valid y -> not_negative x -> not_negative y ->
  valid (add x y) /\ not_negative (add x y) /\ leb x (add x y) = true.
Proof.
  intros Vx Vy Hx Hy.
  destruct (not_negative_cases x Hx) as [[sx ->] | [-> | (mx & ex & ->)]];
    destruct (not_negative_cases y Hy) as [[sy ->] | [-> | (my & ey & ->)]];
    try (repeat split; reflexivity);
    try (destruct sx; repeat split; reflexivity);
    try (destruct sx, sy; repeat split; reflexivity).
  - (* zero, finite *)
    simpl. repeat split; assumption.
  - (* finite, zero *)
    simpl. repeat split; try assumption. now apply leb_refl.
  - (* finite, finite *)
    destruct (valid_finite _ _ _ Vx) as [Cx Bx].
    destruct (valid_finite _ _ _ Vy) as [Cy By].
    unfold add, SFadd. cbv zeta.
    set (ez := Z.min ex ey).
    destruct (shl_align_spec mx ex ez ltac:(lia)) as [Ha _].
    destruct (shl_align_spec my ey ez ltac:(lia)) as [Hb _].
    unfold cond_Zopp.
    set (a := fst (shl_align mx ex ez)) in *.
    set (b := fst (shl_align my ey ez)) in *.
    change (Zpos a + Zpos b) with (Zpos (a + b)).
    unfold binary_normalize.
    destruct (binary_round_spec (a + b) ez)
      as (mr & er & E & Hmr & Hcan & Her & Hlow & Hpos).
    rewrite E.
    split; [now apply rounded_valid|]. split; [now apply rounded_not_negative|].
    assert (Hpx : 0 < 2 ^ (ex - ez)) by (apply Z.pow_pos_nonneg; lia).
    assert (Hpy : 0 < 2 ^ (ey - ez)) by (apply Z.pow_pos_nonneg; lia).
    assert (Hsum : Zpos mx * 2 ^ (ex - ez) <= Zpos (a + b)).
    { rewrite Pos2Z.inj_add, Ha, Hb. nia. }
    assert (Hdigits : Zdigits2 (Zpos mx) + (ex - ez) <= Zdigits2 (Zpos (a + b))).
    { rewrite <- Zdigits2_shift by lia. apply Zdigits2_mono; [nia | exact Hsum]. }
    rewrite fexp_eq in Cx, Her, Hlow.
    apply leb_rounded; [exact Bx|].
    destruct (Z.eq_dec er ex) as [-> | Hne].
    + right. split; [reflexivity|].
      apply (Hlow ltac:(lia) (Zpos mx) (ex - ez)); [lia | lia | exact Hsum].
    + left. split; [lia|]. apply Hpos. lia.
Qed.

Lemma Zdigits2_mul (a b : positive) :
  Zdigits2 (Zpos a) + Zdigits2 (Zpos b) - 1 <= Zdigits2 (Zpos (a * b)).
Proof.
  destruct (Zdigits2_bounds (Zpos a) ltac:(lia)) as (Hda & Halo & _).
  destruct (Zdigits2_bounds (Zpos b) ltac:(lia)) as (Hdb & Hblo & _).
  destruct (Zdigits2_bounds (Zpos (a * b)) ltac:(lia)) as (Hd & _ & Hhi).
  destruct (Z.le_gt_cases (Zdigits2 (Zpos a) + Zdigits2 (Zpos b) - 1)
              (Zdigits2 (Zpos (a * b)))) as [? | Hgt]; [assumption|].
  assert (H1 : 2 ^ Zdigits2 (Zpos (a * b))
               <= 2 ^ ((Zdigits2 (Zpos a) - 1) + (Zdigits2 (Zpos b) - 1)))
    by (apply Z.pow_le_mono_r; lia).
  rewrite Z.pow_add_r in H1 by lia.
  pose proof (Pos2Z.inj_mul a b) as Hprod.
  assert (0 < 2 ^ (Zdigits2 (Zpos a) - 1)) by (apply Z.pow_pos_nonneg; lia).
  assert (0 < 2 ^ (Zdigits2 (Zpos b) - 1)) by (apply Z.pow_pos_nonneg; lia).
  assert (2 ^ (Zdigits2 (Zpos a) - 1) * 2 ^ (Zdigits2 (Zpos b) - 1)
          <= Zpos a * Zpos b) by (apply Z.mul_le_mono_nonneg; lia).
  lia.
Qed.

(** The product of a number that is not negative and a positive one. *)
Lemma mul_not_negative (x y : number) :
  valid x -> valid y -> not_negative x -> positive_finite y ->
  valid (mul x y) /\ not_negative (mul x y).
Proof.
  intros Vx Vy Hx (my & ey & ->).
  destruct (not_negative_cases x Hx) as [[sx ->] | [-> | (mx & ex & ->)]].
  - destruct sx; split; reflexivity.
  - split; reflexivity.
  - destruct (valid_finite _ _ _ Vx) as [Cx Bx].
    destruct (valid_finite _ _ _ Vy) as [Cy By].
    unfold mul, SFmul. simpl xorb.
    pose proof (Zdigits2_mul mx my) as Hd.
    destruct (Zdigits2_bounds (Zpos mx) ltac:(lia)) as (Hdx & _).
    destruct (Zdigits2_bounds (Zpos my) ltac:(lia)) as (Hdy & _).
    rewrite fexp_eq in Cx, Cy.
    destruct (binary_round_aux_spec (Zpos (mx * my)) (ex + ey) loc_Exact ltac:(lia))
      as (mr & er & E & Hmr & Hcan & _).
    { rewrite fexp_eq. lia. }
    rewrite E. split; [now apply rounded_valid | now apply rounded_not_negative].
Qed.

Lemma of_Z_not_negative (n : Z) :
  0 <= n -> valid (of_Z n) /\ not_negative (of_Z n).
Proof.
  intros Hn. unfold of_Z, binary_normalize.
  destruct n as [| p | p]; try lia; [split; reflexivity|].
  destruct (binary_round_spec p 0) as (mr & er & E & Hmr & Hcan & _).
  rewrite E. split; [now apply rounded_valid | now apply rounded_not_negative].
Qed.

End Binary64Facts.


(* ===================================================================== *)
(** ** Properties of the conversion to a string *)
(* ===================================================================== *)

Module JSFacts.

Import Notions.

(** Induction on a value, with the elements of an array covered. *)
Lemma value_nested_ind (P : value -> Prop) :
  P VUndefined -> P VNull -> (forall b, P (VBool b)) -> (forall n, P (VNum n)) ->
  (forall s, P (VStr s)) ->
  (forall xs, Forall P xs -> P (VArr xs)) ->
  (forall fields, P (VObj fields)) ->
  forall v, P v.
Proof.
  intros Hu Hn Hb Hnum Hs Ha Ho. fix IH 1.
  intros [| | b | n | s | xs | fields].
  - exact Hu.
  - exact Hn.
  - apply Hb.
  - apply Hnum.
  - apply Hs.
  - apply Ha.
    induction xs as [| x rest IHxs]; constructor; [apply IH | exact IHxs].
  - apply Ho.
Qed.

(** [`${v}`] throws on the values that hide [toString], with the
    message of the [TypeError], and gives a string on every other
    value. *)
Lemma to_string_converts (v : value) :
  if hides_toString v
  then to_string v = Throw "Cannot convert object to primitive value"
  else exists s, to_string v = Ok s.
Proof.
  induction v as [| | [|] | n | s | xs IH | fields] using value_nested_ind;
    simpl; eauto.
  - assert (Hxs : if existsb hides_toString xs
                  then elements to_string xs
                       = Throw "Cannot convert object to primitive value"
                  else exists ss, elements to_string xs = Ok ss).
    { induction IH as [| x rest Hx _ IHrest]; simpl; [eauto|].
      destruct (hides_toString x) eqn:Ex; simpl.
      - destruct x; try discriminate Ex; now rewrite Hx.
      - assert (Hitem : exists s,
                   match x with
                   | VUndefined | VNull => Ok ""
                   | _ => to_string x
                   end = Ok s)
          by (destruct x; eauto).
        destruct Hitem as [s ->].
        destruct (existsb hides_toString rest).
        + now rewrite IHrest.
        + destruct IHrest as [ss ->]. eauto. }
    destruct (existsb hides_toString xs).
    + now rewrite Hxs.
    + destruct Hxs as [ss ->]. eauto.
  - destruct (assoc "toString" fields); eauto.
Qed.

Lemma to_string_hidden (v : value) :
  hides_toString v = true ->
  to_string v = Throw "Cannot convert object to primitive value".
Proof.
  intros E. pose proof (to_string_converts v) as Hv. now rewrite E in Hv.
Qed.

Lemma to_string_shown (v : value) :
  hides_toString v = false -> exists s, to_string v = Ok s.
Proof.
  intros E. pose proof (to_string_converts v) as Hv. now rewrite E in Hv.
Qed.

Lemma to_string_Ok_shown (v : value) (s : string) :
  to_string v = Ok s -> hides_toString v = false.
Proof.
  intros E. destruct (hides_toString v) eqn:Ev; [|reflexivity].
  rewrite (to_string_hidden v Ev) in E. discriminate E.
Qed.

(** An array in a template literal: its elements joined by commas,
    [null] and [undefined] as the empty string. *)
Example to_string_array :
  to_string (VArr [VNum 1; VNull; VStr "a"; VArr [VBool true; VUndefined]])
  = Ok "1,,a,true,".
Proof. reflexivity. Qed.

(** Numbers in a template literal: in full below [1e21], with an
    exponent from there on, and with the digits that tell the number
    from its neighbours only. *)
Example to_string_numbers :
  to_string (VArr [VNum (-42); VNum (2 ^ 60); VNum (10 ^ 21);
                   VNum 123456789012345678901234])
  = Ok "-42,1152921504606847000,1e+21,1.2345678901234569e+23".
Proof. vm_compute. reflexivity. Qed.

Example to_string_own_toString :
  to_string (VArr [VNum 1; VObj [("toString", VNull)]])
  = Throw "Cannot convert object to primitive value".
Proof. reflexivity. Qed.

End JSFacts.

(* ===================================================================== *)
(** ** Properties of the tool executor *)
(* ===================================================================== *)

Module ToolExecutorFacts.

Import ToolExecutor.

Lemma try_catch_failure_total (m : Result ToolResult) :
  exists r, ResultMonad.try_catch m (fun message => Ok (failure message)) = Ok r.
Proof.
  destruct m as [r | e]; simpl; eauto.
Qed.

Lemma not_registered_eqb (toolName : string) :
  ~ In toolName registry ->
  String.eqb toolName "web_search" = false
  /\ String.eqb toolName "send_email" = false
  /\ String.eqb toolName "database_query" = false
  /\ String.eqb toolName "http_request" = false
  /\ String.eqb toolName "slack_notify" = false.
Proof.
  intros Hout.
  repeat split; apply String.eqb_neq; intros ->; apply Hout; simpl; tauto.
Qed.

(** Each private tool method settles with a result as well: the two
    that reach the network catch what it throws. *)
Lemma webSearch_total (P : Platform) (query : value) :
  exists r, webSearch P query = Ok r.
Proof.
  unfold webSearch. apply try_catch_failure_total.
Qed.

Lemma httpRequest_total (P : Platform) (args : value) :
  exists r, httpRequest P args = Ok r.
Proof.
  unfold httpRequest. apply try_catch_failure_total.
Qed.

(** C8. [ToolExecutor.execute] settles with a [ToolResult] for every
    platform, tool name and argument payload: nothing it does throws
    past its [catch].  For a name outside the registry the result is
    [{ success: false, error: 'Unknown tool: <name>' }]. *)
Theorem execute_never_throws (P : Platform) (toolName : string) (args : value) :
  (exists r, execute P toolName args = Ok r)
  /\ (~ In toolName registry ->
      execute P toolName args =
      Ok {| success := false; data := None;
            error := Some ("Unknown tool: " ++ toolName) |}).
Proof.
  split.
  - unfold execute. apply try_catch_failure_total.
  - intros Hout.
    destruct (not_registered_eqb toolName Hout) as (E1 & E2 & E3 & E4 & E5).
    unfold execute. rewrite E1, E2, E3, E4, E5. reflexivity.
Qed.

Lemma execute_never_throws_witness :
  ~ In "calculator" registry
  /\ (exists r, execute Samples.unreachable_network "calculator" VNull = Ok r)
  /\ execute Samples.unreachable_network "calculator" VNull =
     Ok {| success := false; data := None;
           error := Some "Unknown tool: calculator" |}.
Proof.
  assert (Hout : ~ In "calculator" registry).
  { simpl. intros [E | [E | [E | [E | [E | []]]]]]; discriminate E. }
  split; [exact Hout|].
  split.
  - exact (proj1 (execute_never_throws Samples.unreachable_network "calculator" VNull)).
  - exact (proj2 (execute_never_throws Samples.unreachable_network "calculator" VNull) Hout).
Defined.

(** A registered tool called with no argument object at all: the
    [TypeError] of the property read is caught like any other. *)
Example execute_web_search_undefined_args :
  execute Samples.unreachable_network "web_search" VUndefined =
  Ok (failure "Cannot read properties of undefined (reading 'query')").
Proof. reflexivity. Qed.

Example execute_web_search_network_down :
  execute Samples.unreachable_network "web_search" (VObj [("query", VStr "rocq")]) =
  Ok (failure "fetch failed").
Proof. reflexivity. Qed.

End ToolExecutorFacts.

(* ===================================================================== *)
(** ** Properties of the LLM client *)
(* ===================================================================== *)

Module LLMClientFacts.

Import LLMClient.

Local Open Scope result_scope.

Lemma Role_eqb_eq (a b : Role) : Role_eqb a b = true <-> a = b.
Proof.
  destruct a, b; simpl; split; intros E; try reflexivity; discriminate E.
Qed.

Lemma Role_eqb_neq (a b : Role) : Role_eqb a b = false <-> a <> b.
Proof.
  destruct a, b; simpl; split; intros E; try reflexivity; try discriminate E;
    try (intros E'; discriminate E'); exfalso; apply E; reflexivity.
Qed.

(** Inversion of a bind that settled with a value. *)
Lemma bind_Ok_inv {A B} (m : Result A) (f : A -> Result B) (b : B) :
  ResultMonad.bind m f = Ok b -> exists a, m = Ok a /\ f a = Ok b.
Proof.
  destruct m as [a | e]; simpl; intros E; [eauto | discriminate E].
Qed.

(** *** The request sent to Anthropic *)

Lemma userMessages_no_system (messages : list Message) :
  Forall (fun p => param_role p <> system) (userMessages messages).
Proof.
  unfold userMessages.
  induction messages as [| m rest IH]; simpl; [constructor|].
  destruct (Role_eqb (role m) system) eqn:E; simpl; [exact IH|].
  constructor; [| exact IH].
  simpl. destruct (Role_eqb (role m) assistant); discriminate.
Qed.

Lemma systemMessage_first (before : list Message) (m : Message) (after : list Message) :
  role m = system ->
  Forall (fun m' => role m' <> system) before ->
  systemMessage (before ++ m :: after)%list = content m.
Proof.
  intros Hm Hbefore. unfold systemMessage.
  induction Hbefore as [| m' rest Hm' _ IH]; simpl.
  - rewrite Hm. reflexivity.
  - apply Role_eqb_neq in Hm'. rewrite Hm'. exact IH.
Qed.

Lemma systemMessage_absent (messages : list Message) :
  Forall (fun m => role m <> system) messages ->
  systemMessage messages = "".
Proof.
  intros Hnone. unfold systemMessage.
  induction Hnone as [| m rest Hm _ IH]; simpl; [reflexivity|].
  apply Role_eqb_neq in Hm. rewrite Hm. exact IH.
Qed.

Lemma userMessages_function (messages : list Message) (m : Message) :
  In m messages ->
  role m = function ->
  In {| param_role := user; param_content := content m |} (userMessages messages).
Proof.
  intros Hin Hrole. unfold userMessages.
  apply in_map_iff. exists m. split.
  - rewrite Hrole. reflexivity.
  - apply filter_In. split; [exact Hin|]. rewrite Hrole. reflexivity.
Qed.

Lemma userMessages_ignores_names (messages : list Message) :
  userMessages messages =
  userMessages
    (map (fun m => {| role := role m; content := content m; name := None |}) messages).
Proof.
  unfold userMessages.
  induction messages as [| m rest IH]; simpl; [reflexivity|].
  destruct (Role_eqb (role m) system); simpl; [exact IH | f_equal; exact IH].
Qed.

Lemma userMessages_forwarded (messages : list Message) :
  Forall2 Wire.forwarded (Wire.turns messages) (userMessages messages).
Proof.
  unfold Wire.turns, userMessages.
  induction messages as [| m rest IH]; simpl; [constructor|].
  destruct (Role_eqb (role m) system); simpl; [exact IH|].
  constructor; [| exact IH].
  split; [reflexivity|]. simpl. split.
  - intros ->. reflexivity.
  - intros Hne. apply Role_eqb_neq in Hne. now rewrite Hne.
Qed.

(** C9. In the Anthropic branch, once the tools are mapped, one
    request is sent to the provider, and [chatAnthropic] throws what
    the provider throws on it and answers with what the provider
    answers to it.  The turn-message list of that request holds no
    system-role entry: it is made of the messages that are not system
    messages, in their order, each forwarded as its content alone
    under the role [assistant] or [user], so that a function-role
    message goes under [user] without its tool name.  The [system]
    field of the request is the content of the first system-role
    message, and the empty string when there is none. *)
Theorem anthropic_turn_messages (P : Providers) (turn : nat)
  (messages : list Message) (model : string) (tools : list value)
  (temperature : Binary64.number) (maxTokens : Z) (tools' : list AnthropicTool) :
  anthropicTools tools = Ok tools' ->
  exists request,
    Forall (fun p => param_role p <> system) (anthropic_messages request)
    /\ Forall2 Wire.forwarded (Wire.turns messages) (anthropic_messages request)
    /\ (forall m,
           In m messages ->
           role m = function ->
           In {| param_role := user; param_content := content m |}
              (anthropic_messages request))
    /\ (forall (before : list Message) (m : Message) (after : list Message),
           messages = (before ++ m :: after)%list ->
           role m = system ->
           Forall (fun m' => role m' <> system) before ->
           anthropic_system request = content m)
    /\ (Forall (fun m => role m <> system) messages ->
        anthropic_system request = "")
    /\ (forall e,
           anthropic_messages_create P turn request = Throw e ->
           chatAnthropic P turn messages model tools temperature maxTokens = Throw e)
    /\ (forall response,
           anthropic_messages_create P turn request = Ok response ->
           exists r,
             chatAnthropic P turn messages model tools temperature maxTokens = Ok r
             /\ responseModel r = message_model response
             /\ promptTokens (usage r) = input_tokens (message_usage response)
             /\ completionTokens (usage r) = output_tokens (message_usage response)).
Proof.
  intros Htools.
  exists {| anthropic_model := model;
            anthropic_system := systemMessage messages;
            anthropic_messages := userMessages messages;
            anthropic_tools := if (0 <? List.length tools')%nat
                               then Some tools' else None;
            anthropic_temperature := temperature;
            anthropic_max_tokens := maxTokens |}.
  simpl.
  split; [apply userMessages_no_system|].
  split; [apply userMessages_forwarded|].
  split; [intros m; apply userMessages_function|].
  split; [intros before m after -> Hm Hbefore; now apply systemMessage_first|].
  split; [apply systemMessage_absent|].
  split.
  - intros e Hthrow. unfold chatAnthropic. rewrite Htools. simpl.
    now rewrite Hthrow.
  - intros response Hanswer. unfold chatAnthropic. rewrite Htools. simpl.
    rewrite Hanswer. simpl. eexists. split; [reflexivity|]. repeat split.
Qed.

Lemma anthropic_turn_messages_witness :
  exists request,
    anthropic_messages request =
    [ {| param_role := user; param_content := "Capital of France?" |};
      {| param_role := assistant; param_content := "Let me look it up." |};
      {| param_role := user; param_content := "{'success':true}" |} ]
    /\ anthropic_system request = "Be brief."
    /\ exists r,
         chatAnthropic Samples.answering_providers 0 Samples.conversation
           "claude-3-haiku-20240307" [] (Binary64.literal 7 10) 4096 = Ok r
         /\ responseModel r = "claude-3-haiku-20240307".
Proof.
  destruct (anthropic_turn_messages Samples.answering_providers 0
              Samples.conversation "claude-3-haiku-20240307" []
              (Binary64.literal 7 10) 4096 [] eq_refl)
    as (request & _ & Hturns & _ & Hsystem & _ & _ & Hanswer).
  exists request.
  split; [| split].
  - unfold Wire.turns in Hturns. simpl in Hturns.
    inversion Hturns as [| m1 p1 l1 l1' (C1 & _ & U1) T1 E1 E1']. subst.
    inversion T1 as [| m2 p2 l2 l2' (C2 & A2 & _) T2 E2 E2']. subst.
    inversion T2 as [| m3 p3 l3 l3' (C3 & _ & U3) T3 E3 E3']. subst.
    inversion T3. subst.
    destruct p1 as [r1 c1], p2 as [r2 c2], p3 as [r3 c3]. simpl in *.
    rewrite C1, C2, C3, (U1 ltac:(discriminate)), (A2 eq_refl),
      (U3 ltac:(discriminate)).
    reflexivity.
  - apply (Hsystem [] (hd {| role := user; content := ""; name := None |}
                         Samples.conversation)
             (tl Samples.conversation)); [reflexivity | reflexivity | constructor].
  - destruct (Hanswer Samples.claude_reply eq_refl) as (r & Hr & Hmodel & _).
    exists r. split; [exact Hr | exact Hmodel].
Defined.

(** *** Usage counters *)

Lemma chatAnthropic_usage (P : Providers) (turn : nat) (messages : list Message)
  (model : string) (tools : list value) (temperature : Binary64.number) (maxTokens : Z)
  (r : LLMResponse) :
  chatAnthropic P turn messages model tools temperature maxTokens = Ok r ->
  totalTokens (usage r) = promptTokens (usage r) + completionTokens (usage r).
Proof.
  unfold chatAnthropic. intros E.
  apply bind_Ok_inv in E. destruct E as (tools' & _ & E).
  apply bind_Ok_inv in E. destruct E as (response & _ & E).
  injection E as <-. reflexivity.
Qed.

Lemma chatOpenAI_usage (P : Providers) (turn : nat) (messages : list Message)
  (model : string) (tools : list value) (temperature : Binary64.number) (maxTokens : Z)
  (r : LLMResponse) :
  chatOpenAI P turn messages model tools temperature maxTokens = Ok r ->
  exists request completion,
    openai_chat_completions_create P turn request = Ok completion
    /\ match completion_usage completion with
       | Some u =>
           promptTokens (usage r) = prompt_tokens u
           /\ completionTokens (usage r) = completion_tokens u
           /\ totalTokens (usage r) = total_tokens u
       | None =>
           promptTokens (usage r) = 0
           /\ completionTokens (usage r) = 0
           /\ totalTokens (usage r) = 0
       end.
Proof.
  unfold chatOpenAI. intros E.
  apply bind_Ok_inv in E. destruct E as (response & Hcreate & E).
  eexists. exists response. split; [exact Hcreate|].
  destruct (choices response) as [| choice rest]; [discriminate E|].
  apply bind_Ok_inv in E. destruct E as (calls & _ & E).
  injection E as <-. simpl.
  destruct (completion_usage response); auto.
Qed.

(** C6, as the code has it.  A response that [chat] obtained through
    the Anthropic branch has [totalTokens] equal to [promptTokens +
    completionTokens].  Through the OpenAI branch the three counters
    are those of the provider's [usage] object, each copied on its own
    (and 0 when the object is absent), so that the equality holds
    exactly when the provider's [total_tokens] is the sum of its two
    other counters. *)
Theorem usage_total_by_branch (P : Providers) (turn : nat)
  (messages : list Message) (options : ChatOptions) (r : LLMResponse) :
  chat P turn messages options = Ok r ->
  let model := match model options with
               | Some m => m
               | None => config_execution_defaultModel P
               end in
  if String.prefix "gpt-" model || String.prefix "o1-" model then
    exists request completion,
      openai_chat_completions_create P turn request = Ok completion
      /\ match completion_usage completion with
         | Some u =>
             promptTokens (usage r) = prompt_tokens u
             /\ completionTokens (usage r) = completion_tokens u
             /\ totalTokens (usage r) = total_tokens u
             /\ (totalTokens (usage r)
                 = promptTokens (usage r) + completionTokens (usage r)
                 <-> total_tokens u = prompt_tokens u + completion_tokens u)
         | None =>
             promptTokens (usage r) = 0
             /\ completionTokens (usage r) = 0
             /\ totalTokens (usage r) = 0
         end
  else
    totalTokens (usage r) = promptTokens (usage r) + completionTokens (usage r).
Proof.
  unfold chat. intros E. cbv zeta.
  destruct (String.prefix "gpt-" _ || String.prefix "o1-" _).
  - apply chatOpenAI_usage in E.
    destruct E as (request & completion & Hcreate & Hcopy).
    exists request, completion. split; [exact Hcreate|].
    destruct (completion_usage completion) as [u |]; [| exact Hcopy].
    destruct Hcopy as (Hp & Hc & Ht).
    repeat split; try assumption; rewrite Hp, Hc, Ht; auto.
  - destruct (String.prefix "claude-" _); [| discriminate E].
    now apply chatAnthropic_usage in E.
Qed.

Lemma usage_total_by_branch_witness :
  exists r,
    chat Samples.answering_providers 0 Samples.conversation
      (Samples.only_model "claude-3-haiku-20240307") = Ok r
    /\ totalTokens (usage r) = promptTokens (usage r) + completionTokens (usage r).
Proof.
  eexists. split; [reflexivity|].
  exact (usage_total_by_branch Samples.answering_providers 0 Samples.conversation
           (Samples.only_model "claude-3-haiku-20240307") _ eq_refl).
Defined.

(** The equality of C6 does not hold of every response of [chat]: an
    OpenAI-compatible endpoint that reports 10 prompt tokens, 5
    completion tokens and a total of 20 yields those three counters. *)
Lemma chat_usage_total_counterexample :
  ~ (forall (P : Providers) (turn : nat) (messages : list Message)
       (options : ChatOptions) (r : LLMResponse),
        chat P turn messages options = Ok r ->
        totalTokens (usage r) = promptTokens (usage r) + completionTokens (usage r)).
Proof.
  intros Hclaim.
  specialize (Hclaim Samples.skewed_providers 0%nat [] (Samples.only_model "gpt-4")
                _ eq_refl).
  discriminate Hclaim.
Qed.

End LLMClientFacts.

(* ===================================================================== *)
(** ** Properties of the engine *)
(* ===================================================================== *)

Module ReActEngineFacts.

Import ReActEngine Trace.

Local Open Scope list_scope.

(** *** Rules for [triple] *)

Section Rules.

Variable H : Host.

Lemma triple_weaken {A} (P P' : Vars -> Prop) (m : M A)
  (Q Q' : Result A -> Vars -> Prop) :
  triple P' m Q' ->
  (forall v, P v -> P' v) ->
  (forall out v, Q' out v -> Q out v) ->
  triple P m Q.
Proof.
  intros Hm Hpre Hpost s out s' E Hp. eauto.
Qed.

Lemma triple_ret {A} (P : Vars -> Prop) (a : A) (Q : Result A -> Vars -> Prop) :
  (forall v, P v -> Q (Ok a) v) -> triple P (ret a) Q.
Proof.
  intros HQ s out s' E Hp. injection E as <- <-. auto.
Qed.

Lemma triple_lift {A} (P : Vars -> Prop) (r : Result A)
  (Q : Result A -> Vars -> Prop) :
  (forall v, P v -> Q r v) -> triple P (lift r) Q.
Proof.
  intros HQ s out s' E Hp. injection E as <- <-. auto.
Qed.

Lemma triple_modify (P : Vars -> Prop) (f : Vars -> Vars)
  (Q : Result unit -> Vars -> Prop) :
  (forall v, P v -> Q (Ok tt) (f v)) -> triple P (modify f) Q.
Proof.
  intros HQ s out s' E Hp. injection E as <- <-. simpl. auto.
Qed.

Lemma triple_now (P : Vars -> Prop) (Q : Result Z -> Vars -> Prop) :
  (forall t v, P v -> Q (Ok t) v) -> triple P (now H) Q.
Proof.
  intros HQ s out s' E Hp. injection E as <- <-. simpl. auto.
Qed.

(** A statement may be accepted or rejected. *)
Lemma triple_query (P : Vars -> Prop) (q : Query) (Q : Result unit -> Vars -> Prop) :
  (forall out v, P v -> Q out v) -> triple P (query H q) Q.
Proof.
  intros HQ s out s' E Hp. injection E as <- <-. simpl. auto.
Qed.

(** An entry of the step log is accepted when the store accepts them
    all. *)
Lemma triple_logStep (P : Vars -> Prop) (executionId : string) (n : Z)
  (ty : StepType) (r : option string) (a : option value)
  (Q : Result unit -> Vars -> Prop) :
  accepts_step_logs H ->
  (forall v, P v -> Q (Ok tt) v) ->
  triple P (logStep H executionId n ty r a) Q.
Proof.
  intros Hlogs HQ s out s' E Hp.
  unfold logStep, query in E. rewrite Hlogs in E.
  injection E as <- <-. simpl. auto.
Qed.

Lemma triple_chat (P : Vars -> Prop) (ms : list LLMClient.Message)
  (options : LLMClient.ChatOptions)
  (Q : Result LLMClient.LLMResponse -> Vars -> Prop) :
  (forall turn v, P v -> Q (LLMClient.chat (llmClient H) turn ms options) v) ->
  triple P (chat H ms options) Q.
Proof.
  intros HQ s out s' E Hp. injection E as <- <-. simpl. auto.
Qed.

Lemma triple_invoke (P : Vars -> Prop) (toolName : string) (args : value)
  (Q : Result ToolExecutor.ToolResult -> Vars -> Prop) :
  (forall k v, P v -> Q (toolExecutor_execute H k toolName args) v) ->
  triple P (invoke H toolName args) Q.
Proof.
  intros HQ s out s' E Hp. injection E as <- <-. simpl. auto.
Qed.

Lemma triple_bind {A B} (P : Vars -> Prop) (m : M A) (R : A -> Vars -> Prop)
  (f : A -> M B) (Q : Result B -> Vars -> Prop) :
  triple P m (fun out v => match out with
                           | Ok a => R a v
                           | Throw e => Q (Throw e) v
                           end) ->
  (forall a, triple (R a) (f a) Q) ->
  triple P (bind m f) Q.
Proof.
  intros Hm Hf s out s' E Hp. unfold bind in E.
  destruct (m s) as [[a | e] s1] eqn:Em.
  - apply (Hf a s1 out s' E). exact (Hm s _ s1 Em Hp).
  - injection E as <- <-. exact (Hm s _ s1 Em Hp).
Qed.

(** Reading the variables: what follows may rely on what was read. *)
Lemma triple_get {B} (P : Vars -> Prop) (f : State -> M B)
  (Q : Result B -> Vars -> Prop) :
  (forall s, triple (fun v => P v /\ v = vars s) (f s) Q) ->
  triple P (bind get f) Q.
Proof.
  intros Hf s out s' E Hp. unfold bind, get in E.
  apply (Hf s s out s' E). auto.
Qed.

Lemma triple_try_catch {A} (P : Vars -> Prop) (m : M A) (R : string -> Vars -> Prop)
  (h : string -> M A) (Q : Result A -> Vars -> Prop) :
  triple P m (fun out v => match out with
                           | Ok a => Q (Ok a) v
                           | Throw e => R e v
                           end) ->
  (forall e, triple (R e) (h e) Q) ->
  triple P (try_catch m h) Q.
Proof.
  intros Hm Hh s out s' E Hp. unfold try_catch in E.
  destruct (m s) as [[a | e] s1] eqn:Em.
  - injection E as <- <-. exact (Hm s _ s1 Em Hp).
  - apply (Hh e s1 out s' E). exact (Hm s _ s1 Em Hp).
Qed.

Lemma triple_for_of {A} (I : Vars -> Prop) (xs : list A) (f : A -> M unit)
  (Q : Result unit -> Vars -> Prop) :
  (forall x, triple I (f x) (fun out v => match out with
                                          | Ok _ => I v
                                          | Throw e => Q (Throw e) v
                                          end)) ->
  (forall v, I v -> Q (Ok tt) v) ->
  triple I (for_of xs f) Q.
Proof.
  intros Hf Hend. induction xs as [| x rest IH]; simpl.
  - now apply triple_ret.
  - eapply triple_bind with (R := fun _ => I); [apply Hf | intros _; exact IH].
Qed.

End Rules.

(** *** Properties that the loop cannot break *)

Section Stable.

Variable H : Host.
Variable I : Vars -> Prop.
Hypothesis HI : assignments_stable I.

Lemma logStep_stable executionId n ty r a (Q : Result unit -> Vars -> Prop) :
  (forall out v, I v -> Q out v) ->
  triple I (logStep H executionId n ty r a) Q.
Proof.
  intros HQ. unfold logStep. now apply triple_query.
Qed.

Lemma observe_stable toolName args (Q : Result string -> Vars -> Prop) :
  (forall out v, I v -> Q out v) ->
  triple I (observe H toolName args) Q.
Proof.
  intros HQ. unfold observe.
  eapply triple_try_catch with (R := fun _ => I).
  - eapply triple_bind with (R := fun _ => I).
    + apply triple_invoke. intros k v Hv.
      destruct (toolExecutor_execute H k toolName args); exact Hv.
    + intros r. apply triple_ret. auto.
  - intros e. apply triple_ret. auto.
Qed.

Ltac stable_step :=
  first
    [ apply triple_now; now auto
    | apply triple_modify; intros; apply HI; now auto
    | apply logStep_stable; intros [? | ?] ? ?; now auto
    | apply observe_stable; intros [? | ?] ? ?; now auto ].

Ltac stable_walk :=
  repeat (eapply triple_bind with (R := fun _ => I); [stable_step | intro]).

Lemma processToolCall_stable executionId response toolCall
  (Q : Result unit -> Vars -> Prop) :
  (forall out v, I v -> Q out v) ->
  triple I (processToolCall H executionId response toolCall) Q.
Proof.
  intros HQ. unfold processToolCall.
  apply triple_get. intros s.
  eapply triple_weaken with (P' := I) (Q' := Q);
    [| intros v [Hv _]; exact Hv | auto].
  stable_walk.
  apply triple_modify. intros. apply HQ. now apply HI.
Qed.

Lemma tool_calls_stable executionId response calls
  (Q : Result unit -> Vars -> Prop) :
  (forall out v, I v -> Q out v) ->
  triple I (for_of calls (processToolCall H executionId response)) Q.
Proof.
  intros HQ. apply triple_for_of; [| auto].
  intros toolCall. apply processToolCall_stable. intros [? | ?]; auto.
Qed.

Lemma answer_stable executionId response (Q : Result Control -> Vars -> Prop) :
  (forall out v, I v -> Q out v) ->
  triple I (answer H executionId response) Q.
Proof.
  intros HQ. unfold answer.
  apply triple_get. intros s.
  eapply triple_weaken with (P' := I) (Q' := Q);
    [| intros v [Hv _]; exact Hv | auto].
  stable_walk. apply triple_ret. auto.
Qed.

Variable agentConfig : AgentConfig.
Hypothesis HU : loop_stable H agentConfig I.

Lemma loop_body_stable executionId startTime tools
  (Q : Result Control -> Vars -> Prop) :
  (forall out v, I v -> Q out v) ->
  triple I (loop_body H agentConfig executionId startTime tools) Q.
Proof.
  intros HQ. unfold loop_body.
  eapply triple_bind with (R := fun _ => I);
    [apply triple_modify; intros; now apply HU | intros _].
  stable_walk.
  destruct (Z.ltb _ _).
  - stable_walk. apply triple_ret. auto.
  - apply triple_get. intros s.
    eapply triple_bind
      with (R := fun r v => I v /\ exists turn ms options,
                    LLMClient.model options = Some (model agentConfig)
                    /\ LLMClient.chat (llmClient H) turn ms options = Ok r).
    + apply triple_chat. intros turn v [Hv _].
      destruct (LLMClient.chat _ _ _ _) eqn:E; [| auto].
      split; [exact Hv|]. do 3 eexists. split; [| exact E]. reflexivity.
    + intros response.
      eapply triple_bind with (R := fun _ => I).
      * apply triple_modify. intros v (Hv & turn & ms & options & Hmodel & E).
        now apply (stable_usage _ _ _ HU turn ms options).
      * intros _.
        destruct (no_tool_calls response).
        -- now apply answer_stable.
        -- eapply triple_bind with (R := fun _ => I).
           ++ apply tool_calls_stable. intros [? | ?]; auto.
           ++ intros _. apply triple_ret. auto.
Qed.

Lemma while_loop_stable fuel executionId startTime tools
  (Q : Result unit -> Vars -> Prop) :
  (forall out v, I v -> Q out v) ->
  triple I (while_loop H fuel agentConfig executionId startTime tools) Q.
Proof.
  intros HQ. induction fuel as [| fuel IH]; simpl.
  - apply triple_ret. auto.
  - apply triple_get. intros s.
    eapply triple_weaken with (P' := I) (Q' := Q);
      [| intros v [Hv _]; exact Hv | auto].
    destruct (Z.ltb _ _); [| apply triple_ret; auto].
    eapply triple_bind with (R := fun _ => I).
    + apply loop_body_stable. intros [? | ?]; auto.
    + intros [|]; [apply triple_ret; auto | exact IH].
Qed.

End Stable.

(** *** The bound on the number of passes

    [execute] runs [while_loop] with [Z.to_nat maxIterations] units of
    fuel.  Every pass adds one to the counter, so that the loop test
    fails before the fuel runs out: more fuel changes nothing. *)

Section Fuel.

Variable H : Host.
Variable agentConfig : AgentConfig.
Variable executionId : string.
Variable startTime : Z.
Variable tools : list value.

Lemma loop_body_increments (n : Z) :
  triple (fun v => iteration v = n)
    (loop_body H agentConfig executionId startTime tools)
    (fun _ v => iteration v = n + 1).
Proof.
  set (J := fun v => iteration v = n + 1).
  assert (HJ : assignments_stable J) by (split; unfold J; simpl; auto).
  unfold loop_body.
  eapply triple_bind with (R := fun _ => J).
  { apply triple_modify. intros v Hv. unfold J. simpl. now rewrite Hv. }
  intros _.
  eapply triple_bind with (R := fun _ => J); [apply triple_now; auto | intros t].
  destruct (Z.ltb _ _).
  - eapply triple_bind with (R := fun _ => J);
      [apply triple_modify; intros; now apply HJ | intros _].
    eapply triple_bind with (R := fun _ => J);
      [apply triple_modify; intros; now apply HJ | intros _].
    apply triple_ret. auto.
  - apply triple_get. intros s.
    eapply triple_bind with (R := fun _ => J).
    { apply triple_chat. intros turn v [Hv _].
      destruct (LLMClient.chat _ _ _ _); exact Hv. }
    intros response.
    eapply triple_bind with (R := fun _ => J);
      [apply triple_modify; intros v Hv; exact Hv | intros _].
    destruct (no_tool_calls response).
    + apply answer_stable; auto.
    + eapply triple_bind with (R := fun _ => J).
      * apply tool_calls_stable; [exact HJ|]. intros [? | ?]; auto.
      * intros _. apply triple_ret. auto.
Qed.

Lemma while_loop_enough_fuel (fuel extra : nat) (s : State) :
  (Z.to_nat (maxIterations agentConfig - iteration (vars s)) <= fuel)%nat ->
  while_loop H (fuel + extra) agentConfig executionId startTime tools s =
  while_loop H fuel agentConfig executionId startTime tools s.
Proof.
  revert s. induction fuel as [| fuel IH]; intros s Hfuel.
  - assert (Htest : (iteration (vars s) <? maxIterations agentConfig) = false)
      by (apply Z.ltb_ge; lia).
    destruct extra as [| extra]; simpl; [reflexivity|].
    unfold bind, get. now rewrite Htest.
  - simpl. unfold bind at 1 3, get.
    destruct (iteration (vars s) <? maxIterations agentConfig) eqn:Htest;
      [| reflexivity].
    apply Z.ltb_lt in Htest.
    unfold bind.
    destruct (loop_body H agentConfig executionId startTime tools s)
      as [[[|] | e] s1] eqn:Hbody; try reflexivity.
    apply IH.
    pose proof (loop_body_increments (iteration (vars s)) s _ s1 Hbody eq_refl)
      as Hnext.
    simpl in Hnext. lia.
Qed.

(** In particular the fuel given by [execute] is enough from the
    initial value of the counter. *)
Lemma while_loop_fuel_of_execute (extra : nat) (s : State) :
  iteration (vars s) = 0 ->
  while_loop H (Z.to_nat (maxIterations agentConfig) + extra)
    agentConfig executionId startTime tools s =
  while_loop H (Z.to_nat (maxIterations agentConfig))
    agentConfig executionId startTime tools s.
Proof.
  intros Hzero. apply while_loop_enough_fuel. rewrite Hzero.
  now rewrite Z.sub_0_r.
Qed.

End Fuel.

(** [chat] answers only for a model whose identifier has one of the
    provider prefixes, so that [calculateCost] is never reached with
    another one. *)
Lemma chat_model_supported (P : LLMClient.Providers) (turn : nat)
  (ms : list LLMClient.Message) (options : LLMClient.ChatOptions)
  (r : LLMClient.LLMResponse) :
  LLMClient.chat P turn ms options = Ok r ->
  let model := match LLMClient.model options with
               | Some m => m
               | None => LLMClient.config_execution_defaultModel P
               end in
  String.prefix "gpt-" model || String.prefix "o1-" model
  || String.prefix "claude-" model = true.
Proof.
  unfold LLMClient.chat. cbv zeta.
  destruct (String.prefix "gpt-" _ || String.prefix "o1-" _); [reflexivity|].
  destruct (String.prefix "claude-" _); [reflexivity | discriminate].
Qed.

(** *** Tool calls, when the store accepts the step log *)

Section ToolCalls.

Variable H : Host.
Hypothesis Hlogs : accepts_step_logs H.

(** The run of one tool call, whatever the executor does: three steps
    and two messages are pushed and nothing is thrown. *)
Lemma processToolCall_run (executionId : string) (response : LLMClient.LLMResponse)
  (toolCall : LLMClient.ToolCall) (s : State) :
  let n := iteration (vars s) in
  let text :=
    observation_text H
      (toolExecutor_execute H (List.length (invocations (world s)))
         (LLMClient.toolName toolCall) (LLMClient.arguments toolCall)) in
  exists w t1 t2 t3,
    processToolCall H executionId response toolCall s =
    (Ok tt,
     {| world := w;
        vars :=
          push_message
            {| LLMClient.role := LLMClient.function;
               LLMClient.content := text;
               LLMClient.name := Some (LLMClient.toolName toolCall) |}
            (push_message
               {| LLMClient.role := LLMClient.assistant;
                  LLMClient.content := LLMClient.responseContent response;
                  LLMClient.name := None |}
               (push_step (observation_step n text t3)
                  (push_step
                     (action_step n (LLMClient.toolName toolCall)
                        (LLMClient.arguments toolCall) t2)
                     (push_step
                        (reasoning_step n (LLMClient.responseContent response) t1)
                        (vars s))))) |}).
Proof.
  intros n text.
  unfold processToolCall, logStep, observe, bind, get, now, modify, query,
    try_catch, invoke, ret.
  cbn.
  rewrite !Hlogs.
  subst text.
  destruct (toolExecutor_execute H _ _ _) as [result | message]; cbn;
    rewrite !Hlogs; do 4 eexists; reflexivity.
Qed.

Lemma tool_calls_run (executionId : string) (response : LLMClient.LLMResponse)
  (calls : list LLMClient.ToolCall) (s : State) :
  exists s',
    for_of calls (processToolCall H executionId response) s = (Ok tt, s')
    /\ tool_calls_effect H response calls (vars s) (vars s').
Proof.
  revert s.
  induction calls as [| toolCall rest IH]; intros s.
  - exists s. split; [reflexivity|].
    split; try reflexivity.
    exists []. simpl. rewrite app_nil_r. split; [reflexivity | constructor].
  - destruct (processToolCall_run executionId response toolCall s)
      as (w & t1 & t2 & t3 & Hrun).
    cbv zeta in Hrun.
    simpl for_of. unfold bind at 1. rewrite Hrun.
    match goal with |- context [for_of rest _ ?s1] =>
      destruct (IH s1) as (s' & Hrest & Heff) end.
    exists s'. split; [exact Hrest|].
    destruct Heff as [(groups & Hsteps & Hgroups) Hit Htok Hcost Hst Hans].
    cbn in Hsteps, Hgroups, Hit, Htok, Hcost, Hst, Hans.
    split; try assumption.
    exists ([ reasoning_step (iteration (vars s))
                (LLMClient.responseContent response) t1;
              action_step (iteration (vars s)) (LLMClient.toolName toolCall)
                (LLMClient.arguments toolCall) t2;
              observation_step (iteration (vars s))
                (observation_text H
                   (toolExecutor_execute H (List.length (invocations (world s)))
                      (LLMClient.toolName toolCall)
                      (LLMClient.arguments toolCall))) t3 ] :: groups).
    split.
    + rewrite Hsteps. repeat rewrite <- app_assoc. reflexivity.
    + constructor; [constructor | exact Hgroups].
Qed.

Lemma tool_calls_not_empty (response : LLMClient.LLMResponse) :
  no_tool_calls response = false -> tool_calls_of response <> [].
Proof.
  unfold no_tool_calls, tool_calls_of.
  destruct (LLMClient.toolCalls response) as [[| c cs] |];
    simpl; intros E; discriminate.
Qed.

(** A response with tool calls is processed to the end: the pass
    neither breaks out of the loop nor throws. *)
Lemma tool_calls_continue (executionId : string)
  (response : LLMClient.LLMResponse) (s : State) :
  exists s',
    bind (for_of (tool_calls_of response)
            (processToolCall H executionId response))
         (fun _ => ret Continue) s = (Ok Continue, s')
    /\ tool_calls_effect H response (tool_calls_of response) (vars s) (vars s').
Proof.
  destruct (tool_calls_run executionId response (tool_calls_of response) s)
    as (s' & Hrun & Heff).
  exists s'. unfold bind. rewrite Hrun. split; [reflexivity | exact Heff].
Qed.

End ToolCalls.

(** *** One pass through the loop, case by case *)

Section Pass.

Variable H : Host.
Variable agentConfig : AgentConfig.
Variable executionId : string.
Variable startTime : Z.
Variable tools : list value.

(** The time budget is exceeded: nothing is asked of the gateway. *)
Lemma loop_body_timed_out (s : State) :
  timed_out H agentConfig startTime s = true ->
  exists w,
    loop_body H agentConfig executionId startTime tools s =
    (Ok Break,
     {| world := w;
        vars := set_finalAnswer "Execution timed out"
                  (set_status Timeout (increment_iteration (vars s))) |})
    /\ chats w = chats (world s)
    /\ invocations w = invocations (world s).
Proof.
  unfold timed_out. intros Hlate.
  unfold loop_body, bind, modify, now, ret. cbn.
  rewrite Hlate. cbn. eexists. repeat split.
Qed.

(** The gateway throws: so does the pass, before any step is pushed. *)
Lemma loop_body_gateway_throws (s : State) (message : string) :
  timed_out H agentConfig startTime s = false ->
  gateway_answer H agentConfig tools s = Throw message ->
  exists w,
    loop_body H agentConfig executionId startTime tools s =
    (Throw message, {| world := w; vars := increment_iteration (vars s) |}).
Proof.
  unfold timed_out, gateway_answer, gateway_options. intros Hlate Hanswer.
  unfold loop_body, bind, modify, now, get, chat, ret. cbn.
  rewrite Hlate. cbn. rewrite Hanswer. eexists. reflexivity.
Qed.

Hypothesis Hlogs : accepts_step_logs H.

(** The gateway answers without tool calls: one final step. *)
Lemma loop_body_answers (s : State) (response : LLMClient.LLMResponse) :
  timed_out H agentConfig startTime s = false ->
  gateway_answer H agentConfig tools s = Ok response ->
  no_tool_calls response = true ->
  exists w t,
    loop_body H agentConfig executionId startTime tools s =
    (Ok Break,
     {| world := w;
        vars := push_step
                  (final_step (iteration (vars s) + 1)
                     (LLMClient.responseContent response) t)
                  (set_finalAnswer (LLMClient.responseContent response)
                     (accounted agentConfig response (vars s))) |}).
Proof.
  unfold timed_out, gateway_answer, gateway_options. intros Hlate Hanswer Hcalls.
  unfold loop_body, answer, logStep, bind, modify, now, get, chat, query, ret. cbn.
  rewrite Hlate. cbn. rewrite Hanswer. cbn. rewrite Hcalls. cbn.
  rewrite Hlogs. do 2 eexists. reflexivity.
Qed.

(** The gateway asks for tool calls: they are all processed and the
    pass falls through to the loop test. *)
Lemma loop_body_calls_tools (s : State) (response : LLMClient.LLMResponse) :
  timed_out H agentConfig startTime s = false ->
  gateway_answer H agentConfig tools s = Ok response ->
  no_tool_calls response = false ->
  exists s',
    loop_body H agentConfig executionId startTime tools s = (Ok Continue, s')
    /\ tool_calls_effect H response (tool_calls_of response)
         (accounted agentConfig response (vars s)) (vars s').
Proof.
  unfold timed_out, gateway_answer, gateway_options. intros Hlate Hanswer Hcalls.
  unfold loop_body.
  unfold bind at 1, modify at 1. unfold bind at 1, now at 1. cbn.
  rewrite Hlate.
  unfold bind at 1, get at 1. unfold bind at 1. unfold chat at 1. cbn.
  rewrite Hanswer, Hcalls.
  match goal with |- context [bind (for_of _ _) _ ?s1] =>
    destruct (tool_calls_continue H Hlogs executionId response s1)
      as (s' & Hrun & Heff)
  end.
  exists s'. split; [exact Hrun | exact Heff].
Qed.

End Pass.

(** *** The price table and the cost of a response *)

Import Binary64.

Lemma table_lookup_In (model : string) (table : list (string * Rates)) (r : Rates) :
  table_lookup model table = Some r -> In (model, r) table.
Proof.
  induction table as [| [m r'] rest IH]; simpl; [discriminate|].
  destruct (String.eqb_spec model m) as [-> | Hne].
  - intros E. injection E as <-. now left.
  - intros E. right. now apply IH.
Qed.

Lemma table_lookup_listed (model : string) (r : Rates) :
  In (model, r) TOKEN_COSTS -> table_lookup model TOKEN_COSTS = Some r.
Proof.
  unfold TOKEN_COSTS. simpl.
  intros [E | [E | [E | [E | [E | [E | []]]]]]]; injection E as <- <-; reflexivity.
Qed.

Lemma table_lookup_None (model : string) (table : list (string * Rates)) :
  (forall r, ~ In (model, r) table) -> table_lookup model table = None.
Proof.
  induction table as [| [m r] rest IH]; intros Hout; simpl; [reflexivity|].
  destruct (String.eqb_spec model m) as [-> | Hne].
  - exfalso. apply (Hout r). now left.
  - apply IH. intros r' Hin. apply (Hout r'). now right.
Qed.

(** No member that the table inherits has the name of a model that a
    provider serves. *)
Lemma served_not_inherited (model : string) :
  String.prefix "gpt-" model || String.prefix "o1-" model
  || String.prefix "claude-" model = true ->
  existsb (String.eqb model) Object_prototype_members = false.
Proof.
  intros Hserved.
  destruct (existsb (String.eqb model) Object_prototype_members) eqn:E;
    [| reflexivity].
  apply existsb_exists in E. destruct E as (member & Hin & Heq).
  apply String.eqb_eq in Heq. subst member.
  unfold Object_prototype_members in Hin. simpl in Hin.
  repeat (destruct Hin as [<- | Hin]; [discriminate Hserved|]).
  destruct Hin.
Qed.

(** The rates under which a served model is priced. *)
Lemma costs_of_served (model : string) :
  String.prefix "gpt-" model || String.prefix "o1-" model
  || String.prefix "claude-" model = true ->
  exists r, costs_of model = rates r /\ priced model r.
Proof.
  intros Hserved. unfold costs_of.
  destruct (table_lookup model TOKEN_COSTS) as [r |] eqn:E.
  - exists r. split; [reflexivity|]. split.
    + intros r' Hin. apply table_lookup_listed in Hin. congruence.
    + intros Hout. exfalso. apply (Hout r). now apply table_lookup_In.
  - rewrite (served_not_inherited model Hserved).
    exists default_rates. split; [reflexivity|]. split.
    + intros r' Hin. apply table_lookup_listed in Hin. congruence.
    + reflexivity.
Qed.

(** Every rate of the table, and of the default pair, is a valid
    positive number. *)
Lemma priced_positive (model : string) (r : Rates) :
  priced model r ->
  (valid (rate_input r) /\ positive_finite (rate_input r))
  /\ (valid (rate_output r) /\ positive_finite (rate_output r)).
Proof.
  intros [Hlisted Hdefault].
  assert (Hcase : In (model, r) TOKEN_COSTS \/ r = default_rates).
  { destruct (table_lookup model TOKEN_COSTS) as [r' |] eqn:E.
    - left. apply table_lookup_In in E. now rewrite (Hlisted r' E).
    - right. apply Hdefault. intros r' Hin.
      apply table_lookup_listed in Hin. congruence. }
  assert (Hdefault_ok :
            (valid (rate_input default_rates)
             /\ positive_finite (rate_input default_rates))
            /\ (valid (rate_output default_rates)
                /\ positive_finite (rate_output default_rates))).
  { repeat split; try (vm_compute; reflexivity);
      vm_compute; do 2 eexists; reflexivity. }
  destruct Hcase as [Hin | ->]; [| exact Hdefault_ok].
  unfold TOKEN_COSTS in Hin. simpl in Hin.
  repeat (destruct Hin as [E | Hin];
          [injection E as _ <-;
           repeat split; try (vm_compute; reflexivity);
           vm_compute; do 2 eexists; reflexivity |]).
  destruct Hin.
Qed.

(** The cost of a response with counts that are not negative. *)
Lemma cost_of_not_negative (r : Rates) (model : string) (p c : Z) :
  priced model r -> 0 <= p -> 0 <= c ->
  valid (cost_of r p c) /\ not_negative (cost_of r p c).
Proof.
  intros Hr Hp Hc. unfold cost_of.
  destruct (priced_positive model r Hr) as [[Vi Pi] [Vo Po]].
  destruct (Binary64Facts.of_Z_not_negative p Hp) as [Vp Np].
  destruct (Binary64Facts.of_Z_not_negative c Hc) as [Vc Nc].
  destruct (Binary64Facts.mul_not_negative _ _ Vp Vi Np Pi) as [V1 N1].
  destruct (Binary64Facts.mul_not_negative _ _ Vc Vo Nc Po) as [V2 N2].
  destruct (Binary64Facts.add_not_below _ _ V1 V2 N1 N2) as (V & N & _).
  now split.
Qed.

(** The cost that [calculateCost] gives for the model of a response
    that the gateway returned. *)
Lemma calculateCost_served (H : Host) (agentConfig : AgentConfig)
  (turn : nat) (ms : list LLMClient.Message) (options : LLMClient.ChatOptions)
  (response : LLMClient.LLMResponse) (p c : Z) :
  LLMClient.model options = Some (model agentConfig) ->
  LLMClient.chat (llmClient H) turn ms options = Ok response ->
  exists r,
    priced (model agentConfig) r
    /\ calculateCost (model agentConfig) p c = cost_of r p c.
Proof.
  intros Hmodel Hchat.
  pose proof (chat_model_supported _ _ _ _ _ Hchat) as Hserved.
  cbv zeta in Hserved. rewrite Hmodel in Hserved.
  destruct (costs_of_served (model agentConfig) Hserved) as (r & Hcosts & Hr).
  exists r. split; [exact Hr|].
  unfold calculateCost. cbv zeta. now rewrite Hcosts.
Qed.

Lemma cost_floor_stable (H : Host) (agentConfig : AgentConfig) (floor : number) :
  counts_not_negative H ->
  not_negative floor ->
  loop_stable H agentConfig
    (fun v => sound_total v /\ leb floor (totalCost v) = true).
Proof.
  intros Hcounts Hfloor. split; [split; simpl; auto | simpl; auto |].
  intros turn ms options response v Hmodel E [[Vv Nv] Hv]. simpl.
  destruct (Hcounts turn ms options response E) as [Hp Hc].
  destruct (calculateCost_served H agentConfig turn ms options response
              (LLMClient.promptTokens (LLMClient.usage response))
              (LLMClient.completionTokens (LLMClient.usage response)) Hmodel E)
    as (r & Hr & ->).
  destruct (cost_of_not_negative r (model agentConfig) _ _ Hr Hp Hc) as [Vc Nc].
  destruct (Binary64Facts.add_not_below _ _ Vv Vc Nv Nc) as (V & N & Hle).
  split; [now split|].
  now apply (Binary64Facts.leb_trans floor (totalCost v)).
Qed.

(** The total cost is the same before and after the steps of a
    response are recorded. *)
Lemma recording_keeps_cost (H : Host) (executionId : string)
  (response : LLMClient.LLMResponse) (total : number) :
  triple (fun v => totalCost v = total)
    (if no_tool_calls response
     then answer H executionId response
     else bind (for_of (tool_calls_of response)
                  (processToolCall H executionId response))
            (fun _ => ret Continue))
    (fun _ v => totalCost v = total).
Proof.
  assert (HI : assignments_stable (fun v => totalCost v = total))
    by (split; simpl; auto).
  destruct (no_tool_calls response).
  - apply answer_stable; auto.
  - eapply triple_bind with (R := fun _ v => totalCost v = total).
    + apply tool_calls_stable; [exact HI|]. intros [? | ?]; auto.
    + intros _. apply triple_ret. auto.
Qed.

(** A pass in which the gateway answers adds the cost of the
    response, whatever happens while its steps are recorded. *)
Lemma loop_body_cost_added (H : Host) (agentConfig : AgentConfig)
  (executionId : string) (startTime : Z) (tools : list value)
  (s : State) (response : LLMClient.LLMResponse) (out : Result Control) (s' : State) :
  timed_out H agentConfig startTime s = false ->
  gateway_answer H agentConfig tools s = Ok response ->
  loop_body H agentConfig executionId startTime tools s = (out, s') ->
  totalCost (vars s') =
  add (totalCost (vars s))
    (calculateCost (model agentConfig)
       (LLMClient.promptTokens (LLMClient.usage response))
       (LLMClient.completionTokens (LLMClient.usage response))).
Proof.
  unfold timed_out, gateway_answer, gateway_options. intros Hlate Hanswer.
  unfold loop_body.
  unfold bind at 1, modify at 1. unfold bind at 1, now at 1. cbn.
  rewrite Hlate.
  unfold bind at 1, get at 1. unfold bind at 1. unfold chat at 1. cbn.
  rewrite Hanswer.
  intros E.
  exact (recording_keeps_cost H executionId response _ _ _ _ E eq_refl).
Qed.

(** A pass in which the gateway is not asked, or does not answer,
    adds nothing. *)
Lemma loop_body_cost_kept (H : Host) (agentConfig : AgentConfig)
  (executionId : string) (startTime : Z) (tools : list value)
  (s : State) (out : Result Control) (s' : State) :
  timed_out H agentConfig startTime s = true
  \/ (exists e, gateway_answer H agentConfig tools s = Throw e) ->
  loop_body H agentConfig executionId startTime tools s = (out, s') ->
  totalCost (vars s') = totalCost (vars s).
Proof.
  intros Hcase E.
  destruct (timed_out H agentConfig startTime s) eqn:Hlate.
  - destruct (loop_body_timed_out H agentConfig executionId startTime tools s Hlate)
      as (w & Hrun & _).
    rewrite Hrun in E. injection E as _ <-. reflexivity.
  - destruct Hcase as [Habs | [e Hthrow]]; [discriminate Habs|].
    destruct (loop_body_gateway_throws H agentConfig executionId startTime tools
                s e Hlate Hthrow) as (w & Hrun).
    rewrite Hrun in E. injection E as _ <-. reflexivity.
Qed.

(** C5. In a pass in which the gateway answers, the total cost
    becomes its sum with [promptTokens * input + completionTokens *
    output], computed as the code computes it, for the pair of rates
    that the price table lists under the model, and for the default
    pair when the table does not list the model; in a pass in which
    the gateway is not asked or does not answer, the total cost stays
    what it was.  When the token counts reported by the gateway are
    not negative, the total cost after a pass, and after any number of
    further passes, is not below what it was before, from the total of
    0 with which an execution starts onwards. *)
Theorem cost_accumulation (H : Host) (agentConfig : AgentConfig)
  (executionId : string) (startTime : Z) (tools : list value) :
  (forall s response out s',
      timed_out H agentConfig startTime s = false ->
      gateway_answer H agentConfig tools s = Ok response ->
      loop_body H agentConfig executionId startTime tools s = (out, s') ->
      exists r,
        priced (model agentConfig) r
        /\ totalCost (vars s') =
           add (totalCost (vars s))
             (add (mul (of_Z (LLMClient.promptTokens (LLMClient.usage response)))
                     (rate_input r))
                  (mul (of_Z (LLMClient.completionTokens (LLMClient.usage response)))
                     (rate_output r))))
  /\ (forall s out s',
         timed_out H agentConfig startTime s = true
         \/ (exists e, gateway_answer H agentConfig tools s = Throw e) ->
         loop_body H agentConfig executionId startTime tools s = (out, s') ->
         totalCost (vars s') = totalCost (vars s))
  /\ sound_total (vars initial_state)
  /\ (counts_not_negative H ->
      (forall s out s',
          sound_total (vars s) ->
          loop_body H agentConfig executionId startTime tools s = (out, s') ->
          sound_total (vars s')
          /\ leb (totalCost (vars s)) (totalCost (vars s')) = true)
      /\ (forall fuel s out s',
             sound_total (vars s) ->
             while_loop H fuel agentConfig executionId startTime tools s = (out, s') ->
             sound_total (vars s')
             /\ leb (totalCost (vars s)) (totalCost (vars s')) = true)).
Proof.
  split; [| split; [| split]].
  - intros s response out s' Hlate Hanswer E.
    destruct (calculateCost_served H agentConfig (chats (world s))
                (messages (vars s)) (gateway_options agentConfig tools) response
                (LLMClient.promptTokens (LLMClient.usage response))
                (LLMClient.completionTokens (LLMClient.usage response))
                eq_refl Hanswer) as (r & Hr & Hcost).
    exists r. split; [exact Hr|].
    rewrite (loop_body_cost_added H agentConfig executionId startTime tools
               s response out s' Hlate Hanswer E).
    now rewrite Hcost.
  - intros s out s'. apply loop_body_cost_kept.
  - split; reflexivity.
  - intros Hcounts. split.
    + intros s out s' Hsound E.
      pose proof (cost_floor_stable H agentConfig (totalCost (vars s)) Hcounts
                    (proj2 Hsound)) as Hstable.
      apply (loop_body_stable H _ (stable_assignments _ _ _ Hstable)
               agentConfig Hstable executionId startTime tools
               (fun _ v => sound_total v /\ leb (totalCost (vars s)) (totalCost v) = true)
               (fun _ _ Hv => Hv) s out s' E).
      split; [exact Hsound|]. apply Binary64Facts.leb_refl. apply Hsound.
    + intros fuel s out s' Hsound E.
      pose proof (cost_floor_stable H agentConfig (totalCost (vars s)) Hcounts
                    (proj2 Hsound)) as Hstable.
      apply (while_loop_stable H _ (stable_assignments _ _ _ Hstable)
               agentConfig Hstable fuel executionId startTime tools
               (fun _ v => sound_total v /\ leb (totalCost (vars s)) (totalCost v) = true)
               (fun _ _ Hv => Hv) s out s' E).
      split; [exact Hsound|]. apply Binary64Facts.leb_refl. apply Hsound.
Qed.

(** The sample gateway reports counts that are not negative. *)
Lemma answering_host_counts : counts_not_negative Samples.answering_host.
Proof.
  intros turn ms options r. unfold LLMClient.chat.
  destruct (String.prefix "gpt-" _ || String.prefix "o1-" _).
  - intros E. vm_compute in E. injection E as <-. simpl. lia.
  - destruct (String.prefix "claude-" _); [| discriminate].
    unfold LLMClient.chatAnthropic.
    destruct (LLMClient.anthropicTools _) as [tools' | e]; simpl; [| discriminate].
    intros E. injection E as <-. simpl. lia.
Qed.

Lemma cost_accumulation_witness :
  leb (totalCost (vars initial_state))
    (totalCost
       (vars (snd (loop_body Samples.answering_host
                     (Samples.agent "gpt-4" 10 300 []) "exec-1" 1700000000000 []
                     initial_state)))) = true.
Proof.
  apply (proj1 (proj2 (proj2 (proj2 (cost_accumulation Samples.answering_host
                                       (Samples.agent "gpt-4" 10 300 []) "exec-1"
                                       1700000000000 [])))
                  answering_host_counts)
           initial_state
           (fst (loop_body Samples.answering_host
                   (Samples.agent "gpt-4" 10 300 []) "exec-1" 1700000000000 []
                   initial_state))).
  - split; reflexivity.
  - apply surjective_pairing.
Defined.

(** The cost of the sample response, 10 prompt tokens and 5 completion
    tokens at the rates of [gpt-4], is the number that prints as
    0.0006. *)
Example cost_of_sample_response :
  totalCost
    (vars (snd (loop_body Samples.answering_host
                  (Samples.agent "gpt-4" 10 300 []) "exec-1" 1700000000000 []
                  initial_state)))
  = S754_finite false 5534023222112865 (-63).
Proof. vm_compute. reflexivity. Qed.

(** One prompt token at the rate of [gpt-4]: the number that prints as
    0.000029999999999999997, next below 0.00003. *)
Example cost_of_one_token :
  calculateCost "gpt-4" 1 0 = S754_finite false 8854437155380584 (-68).
Proof. vm_compute. reflexivity. Qed.

(** Outside [execute], a model named like a member that the table
    inherits is priced at neither pair: its cost is [NaN]. *)
Example cost_of_inherited_member :
  calculateCost "constructor" 10 5 = NaN.
Proof. vm_compute. reflexivity. Qed.


(** *** The shape of the recorded steps *)

Section Shape.

Variable H : Host.

Lemma tool_call_steps_number (n : Z) (response : LLMClient.LLMResponse)
  (toolCall : LLMClient.ToolCall) (group : list ExecutionStep) :
  tool_call_steps H n response toolCall group ->
  Forall (fun st => stepNumber st = n) group.
Proof.
  intros []. repeat constructor.
Qed.

Lemma iteration_steps_number (n : Z) (response : LLMClient.LLMResponse)
  (block : list ExecutionStep) :
  iteration_steps H n response block -> Forall (fun st => stepNumber st = n) block.
Proof.
  intros [t _ | groups _ Hgroups].
  - repeat constructor.
  - induction Hgroups as [| toolCall group calls rest Hgroup _ IH]; simpl;
      [constructor|].
    apply Forall_app. split; [now apply tool_call_steps_number in Hgroup | exact IH].
Qed.

Lemma recorded_not_negative (n : Z) (l : list ExecutionStep) :
  recorded H n l -> 0 <= n.
Proof.
  induction 1; lia.
Qed.

(** Step numbers start at 1 and do not exceed the number of the last
    iteration recorded. *)
Lemma recorded_bounds (n : Z) (l : list ExecutionStep) :
  recorded H n l -> Forall (fun st => 0 < stepNumber st <= n) l.
Proof.
  induction 1 as [| n m l block turn ms options response Hl IH Hnm _ Hblock];
    [constructor|].
  pose proof (recorded_not_negative n l Hl) as Hn.
  apply Forall_app. split.
  - eapply Forall_impl; [| exact IH]. simpl. intros st Hst. lia.
  - eapply Forall_impl; [| exact (iteration_steps_number m response block Hblock)].
    simpl. intros st Hst. lia.
Qed.

Lemma StronglySorted_app {A} (R : A -> A -> Prop) (l1 l2 : list A) :
  StronglySorted R l1 ->
  StronglySorted R l2 ->
  (forall x y, In x l1 -> In y l2 -> R x y) ->
  StronglySorted R (l1 ++ l2).
Proof.
  intros H1 H2 Hcross.
  induction H1 as [| x l1 H1 IH Hx]; simpl; [exact H2|].
  constructor.
  - apply IH. intros x' y Hx' Hy. apply Hcross; [now right | exact Hy].
  - apply Forall_app. split; [exact Hx|].
    apply Forall_forall. intros y Hy. apply Hcross; [now left | exact Hy].
Qed.

Lemma StronglySorted_prefix {A} (R : A -> A -> Prop) (l1 l2 : list A) :
  StronglySorted R (l1 ++ l2) -> StronglySorted R l1.
Proof.
  induction l1 as [| x l1 IH]; simpl; intros Hs; [constructor|].
  inversion Hs as [| x' l' Hl Hx]; subst.
  constructor; [now apply IH|].
  apply Forall_app in Hx. apply Hx.
Qed.

Lemma constant_sorted (m : Z) (l : list Z) :
  Forall (fun x => x = m) l -> StronglySorted Z.le l.
Proof.
  induction 1 as [| x l Hx Hl IH]; constructor; [exact IH|].
  eapply Forall_impl; [| exact Hl]. simpl. intros y Hy. lia.
Qed.

Lemma recorded_sorted (n : Z) (l : list ExecutionStep) :
  recorded H n l -> StronglySorted Z.le (map stepNumber l).
Proof.
  induction 1 as [| n m l block turn ms options response Hl IH Hnm _ Hblock];
    [constructor|].
  rewrite map_app. apply StronglySorted_app.
  - exact IH.
  - apply constant_sorted with (m := m).
    apply Forall_map. now apply iteration_steps_number in Hblock.
  - intros x y Hx Hy.
    apply in_map_iff in Hx. destruct Hx as (sx & <- & Hsx).
    apply in_map_iff in Hy. destruct Hy as (sy & <- & Hsy).
    pose proof (recorded_bounds n l Hl) as Hb.
    rewrite Forall_forall in Hb. specialize (Hb sx Hsx).
    pose proof (iteration_steps_number m response block Hblock) as Hm.
    rewrite Forall_forall in Hm. specialize (Hm sy Hsy). simpl in Hm. lia.
Qed.

Lemma cut_short_sorted (l : list ExecutionStep) :
  cut_short H l -> StronglySorted Z.le (map stepNumber l).
Proof.
  intros (n & whole & rest & Hrec & ->).
  apply recorded_sorted in Hrec. rewrite map_app in Hrec.
  now apply StronglySorted_prefix in Hrec.
Qed.

Lemma tool_calls_action_followed (n : Z) (response : LLMClient.LLMResponse)
  (calls : list LLMClient.ToolCall) (groups : list (list ExecutionStep)) :
  Forall2 (tool_call_steps H n response) calls groups ->
  forall before a after,
    concat groups = before ++ a :: after ->
    stepType a = Action ->
    followed_by_its_observation H a after.
Proof.
  induction 1 as [| toolCall group calls rest Hgroup _ IH];
    intros before a after E Ha.
  - destruct before; discriminate E.
  - destruct Hgroup as [k t1 t2 t3].
    simpl in E.
    destruct before as [| x1 [| x2 [| x3 before]]]; simpl in E;
      injection E as; subst.
    + discriminate Ha.
    + exists (LLMClient.toolName toolCall), (LLMClient.arguments toolCall),
        k, t3, (concat rest).
      split; reflexivity.
    + discriminate Ha.
    + eapply IH; eauto.
Qed.

Lemma recorded_action_followed (n : Z) (l : list ExecutionStep) :
  recorded H n l ->
  forall before a after,
    l = before ++ a :: after ->
    stepType a = Action ->
    followed_by_its_observation H a after.
Proof.
  induction 1 as [| n m l block turn ms options response Hl IH Hnm _ Hblock];
    intros before a after E Ha.
  - destruct before; discriminate E.
  - apply app_eq_app in E. destruct E as (l' & [[E1 E2] | [E1 E2]]).
    + destruct l' as [| x l'].
      * simpl in E2. revert E2.
        destruct Hblock as [t _ | groups _ Hgroups]; intros E2.
        -- injection E2 as -> ->. discriminate Ha.
        -- eapply (tool_calls_action_followed m response _ groups Hgroups []);
             eauto.
      * simpl in E2. injection E2 as <- ->.
        destruct (IH before a l' E1 Ha)
          as (toolName & args & k & t & rest & Hact & ->).
        exists toolName, args, k, t, (rest ++ block).
        split; [exact Hact | reflexivity].
    + revert E2.
      destruct Hblock as [t _ | groups _ Hgroups]; intros E2.
      * destruct l' as [| x [| y l']]; simpl in E2; try discriminate E2.
        injection E2 as <- <-. discriminate Ha.
      * eapply (tool_calls_action_followed m response _ groups Hgroups l'); eauto.
Qed.

(** *** The steps recorded by the loop, whatever the store does *)

Lemma recorded_before_so_far (v : Vars) :
  recorded_before H v -> recorded_so_far H v.
Proof.
  intros (j & Hj & Hrec). exists j. split; [lia | exact Hrec].
Qed.

Lemma recorded_so_far_cut_short (v : Vars) :
  recorded_so_far H v -> cut_short H (cur_steps v).
Proof.
  intros (j & _ & Hrec). exists j, (cur_steps v), []. split; [exact Hrec|].
  now rewrite app_nil_r.
Qed.

(** What follows may rely on a fact that holds of no variable. *)
Lemma triple_pure {A} (P : Vars -> Prop) (F : Prop) (m : M A)
  (Q : Result A -> Vars -> Prop) :
  (F -> triple P m Q) -> triple (fun v => P v /\ F) m Q.
Proof.
  intros Hm s out s' E [Hp Hf]. exact (Hm Hf s out s' E Hp).
Qed.

(** The final step is pushed before its log entry is written: it is
    recorded whether the store accepts the entry or not. *)
Lemma answer_recorded (executionId : string) (response : LLMClient.LLMResponse) :
  given H response ->
  no_tool_calls response = true ->
  triple (recorded_before H) (answer H executionId response)
    (fun _ v => recorded_so_far H v).
Proof.
  intros (turn & ms & options & Hgiven) Hcalls.
  unfold answer. apply triple_get. intros s.
  set (P := fun v => recorded_before H v /\ iteration v = iteration (vars s)).
  eapply triple_bind with (R := fun _ => P).
  { apply triple_modify. intros v [Hv ->]. split; [exact Hv | reflexivity]. }
  intros _.
  eapply triple_bind with (R := fun _ => P).
  { apply triple_now. auto. }
  intros t.
  eapply triple_bind with (R := fun _ => recorded_so_far H).
  { apply triple_modify. intros v [(j & Hj & Hrec) Hit].
    exists (iteration v). split; [simpl; lia|]. simpl.
    rewrite <- Hit.
    apply recorded_iteration with (n := j) (turn := turn) (ms := ms)
                                  (options := options) (response := response);
      [exact Hrec | exact Hj | exact Hgiven|].
    now apply iteration_final. }
  intros _.
  eapply triple_bind with (R := fun _ => recorded_so_far H).
  { unfold logStep. apply triple_query. intros [? | ?] v Hv; exact Hv. }
  intros _. apply triple_ret. auto.
Qed.

(** Groups of steps can be made up for tool calls that were not
    processed. *)
Lemma tool_call_steps_exist (n : Z) (response : LLMClient.LLMResponse)
  (calls : list LLMClient.ToolCall) :
  exists groups, Forall2 (tool_call_steps H n response) calls groups.
Proof.
  induction calls as [| toolCall rest [groups IH]].
  - exists []. constructor.
  - eexists (_ :: groups). constructor; [| exact IH].
    apply (tool_call_steps_intro H n response toolCall 0%nat 0 0 0).
Qed.

(** The steps pushed while a tool call is processed are the first ones
    of its group, and the whole group when nothing is thrown. *)
Lemma processToolCall_steps (executionId : string)
  (response : LLMClient.LLMResponse) (toolCall : LLMClient.ToolCall)
  (s : State) (out : Result unit) (s' : State) :
  processToolCall H executionId response toolCall s = (out, s') ->
  iteration (vars s') = iteration (vars s)
  /\ exists group rest,
       tool_call_steps H (iteration (vars s)) response toolCall group
       /\ cur_steps (vars s) ++ group = cur_steps (vars s') ++ rest
       /\ (out = Ok tt -> rest = []).
Proof.
  pose (k := List.length (invocations (world s))).
  unfold processToolCall, logStep, observe, bind, get, now, modify, query,
    try_catch, invoke, ret.
  cbn.
  destruct (db_query H _ _) as [rejection |]; cbn.
  { intros E. injection E as <- <-. split; [reflexivity|].
    eexists. eexists.
    split; [eapply (tool_call_steps_intro H _ response toolCall k)|].
    cbn. split.
    - repeat rewrite <- app_assoc. simpl. reflexivity.
    - intros E. discriminate E. }
  destruct (db_query H _ _) as [rejection |]; cbn.
  { intros E. injection E as <- <-. split; [reflexivity|].
    eexists. eexists.
    split; [eapply (tool_call_steps_intro H _ response toolCall k)|].
    cbn. split.
    - repeat rewrite <- app_assoc. simpl. reflexivity.
    - intros E. discriminate E. }
  fold k.
  destruct (toolExecutor_execute H k _ _) as [result | message] eqn:Hinvoke; cbn;
    destruct (db_query H _ _) as [rejection |]; cbn;
    intros E; injection E as <- <-; (split; [reflexivity|]);
    eexists; eexists;
    (split; [eapply (tool_call_steps_intro H _ response toolCall k)|]);
    cbn; rewrite Hinvoke; cbn;
    (split;
     [ repeat rewrite <- app_assoc; simpl; try rewrite app_nil_r; reflexivity
     | intros E; try discriminate E; reflexivity ]).
  Unshelve. all: exact 0.
Qed.

Lemma tool_calls_steps (executionId : string) (response : LLMClient.LLMResponse)
  (calls : list LLMClient.ToolCall) (s : State) (out : Result unit) (s' : State) :
  for_of calls (processToolCall H executionId response) s = (out, s') ->
  iteration (vars s') = iteration (vars s)
  /\ exists groups rest,
       Forall2 (tool_call_steps H (iteration (vars s)) response) calls groups
       /\ cur_steps (vars s) ++ concat groups = cur_steps (vars s') ++ rest
       /\ (out = Ok tt -> rest = []).
Proof.
  revert s. induction calls as [| toolCall calls IH]; intros s; simpl.
  - intros E. injection E as <- <-. split; [reflexivity|].
    exists [], []. split; [constructor|]. split; [reflexivity | auto].
  - unfold bind.
    destruct (processToolCall H executionId response toolCall s)
      as [[[] | e] s1] eqn:Hcall.
    + destruct (processToolCall_steps _ _ _ _ _ _ Hcall)
        as (Hit & group & rest & Hgroup & Hsteps & Hdone).
      rewrite (Hdone eq_refl), app_nil_r in Hsteps.
      intros E. destruct (IH s1 E) as (Hit' & groups & rest' & Hgroups & Hsteps' & Hdone').
      split; [congruence|].
      exists (group :: groups), rest'.
      split; [constructor; [exact Hgroup | now rewrite <- Hit]|].
      split; [| exact Hdone'].
      simpl. rewrite app_assoc, Hsteps. exact Hsteps'.
    + intros E. injection E as <- <-.
      destruct (processToolCall_steps _ _ _ _ _ _ Hcall)
        as (Hit & group & rest & Hgroup & Hsteps & _).
      split; [exact Hit|].
      destruct (tool_call_steps_exist (iteration (vars s)) response calls)
        as [groups Hgroups].
      exists (group :: groups), (rest ++ concat groups).
      split; [now constructor|].
      split; [| intros E; discriminate E].
      simpl. now rewrite !app_assoc, Hsteps.
Qed.

(** The steps of the tool calls of a response: all of them when
    nothing is thrown, and the first ones otherwise. *)
Lemma tool_calls_cut_short (executionId : string) (response : LLMClient.LLMResponse) :
  given H response ->
  no_tool_calls response = false ->
  triple (recorded_before H)
    (bind (for_of (tool_calls_of response)
             (processToolCall H executionId response))
          (fun _ => ret Continue))
    (fun out v => match out with
                  | Ok _ => recorded_so_far H v
                  | Throw _ => cut_short H (cur_steps v)
                  end).
Proof.
  intros (turn & ms & options & Hgiven) Hcalls s out s' E (j & Hj & Hrec).
  unfold bind in E.
  destruct (for_of _ _ s) as [[[] | e] s1] eqn:Hrun;
    destruct (tool_calls_steps _ _ _ _ _ _ Hrun)
      as (Hit & groups & rest & Hgroups & Hsteps & Hdone);
    injection E as <- <-.
  - rewrite (Hdone eq_refl), app_nil_r in Hsteps.
    exists (iteration (vars s)). split; [lia|]. rewrite <- Hsteps.
    apply recorded_iteration with (n := j) (turn := turn) (ms := ms)
                                  (options := options) (response := response);
      [exact Hrec | exact Hj | exact Hgiven|].
    now apply iteration_tool_calls.
  - exists (iteration (vars s)), (cur_steps (vars s) ++ concat groups), rest.
    split; [| exact Hsteps].
    apply recorded_iteration with (n := j) (turn := turn) (ms := ms)
                                  (options := options) (response := response);
      [exact Hrec | exact Hj | exact Hgiven|].
    now apply iteration_tool_calls.
Qed.

Lemma loop_body_cut_short (agentConfig : AgentConfig) (executionId : string)
  (startTime : Z) (tools : list value) :
  triple (recorded_so_far H)
    (loop_body H agentConfig executionId startTime tools)
    (fun out v => match out with
                  | Ok _ => recorded_so_far H v
                  | Throw _ => cut_short H (cur_steps v)
                  end).
Proof.
  unfold loop_body.
  eapply triple_bind with (R := fun _ => recorded_before H).
  { apply triple_modify. intros v (j & Hj & Hrec).
    exists j. split; [simpl; lia | exact Hrec]. }
  intros _.
  eapply triple_bind with (R := fun _ => recorded_before H).
  { apply triple_now. auto. }
  intros t.
  destruct (Z.ltb _ _).
  - eapply triple_bind with (R := fun _ => recorded_before H).
    { apply triple_modify. intros v Hv. exact Hv. }
    intros _.
    eapply triple_bind with (R := fun _ => recorded_before H).
    { apply triple_modify. intros v Hv. exact Hv. }
    intros _. apply triple_ret. intros v. apply recorded_before_so_far.
  - apply triple_get. intros s.
    eapply triple_bind
      with (R := fun response v => recorded_before H v /\ given H response).
    { apply triple_chat. intros turn v [Hv _].
      destruct (LLMClient.chat _ _ _ _) eqn:E.
      - split; [exact Hv|]. do 3 eexists. exact E.
      - apply recorded_so_far_cut_short. now apply recorded_before_so_far. }
    intros response. apply triple_pure. intros Hgiven.
    eapply triple_bind with (R := fun _ => recorded_before H).
    { apply triple_modify. intros v Hv. exact Hv. }
    intros _.
    destruct (no_tool_calls response) eqn:Hcalls.
    + eapply triple_weaken; [now apply answer_recorded | auto |].
      intros [? | ?] v Hv; [exact Hv | now apply recorded_so_far_cut_short].
    + now apply tool_calls_cut_short.
Qed.

Lemma while_loop_cut_short (fuel : nat) (agentConfig : AgentConfig)
  (executionId : string) (startTime : Z) (tools : list value) :
  triple (recorded_so_far H)
    (while_loop H fuel agentConfig executionId startTime tools)
    (fun out v => match out with
                  | Ok _ => recorded_so_far H v
                  | Throw _ => cut_short H (cur_steps v)
                  end).
Proof.
  induction fuel as [| fuel IH]; simpl.
  - apply triple_ret. auto.
  - apply triple_get. intros s.
    eapply triple_weaken
      with (P' := recorded_so_far H)
           (Q' := fun out v => match out with
                               | Ok _ => recorded_so_far H v
                               | Throw _ => cut_short H (cur_steps v)
                               end);
      [| intros v [Hv _]; exact Hv | auto].
    destruct (Z.ltb _ _); [| apply triple_ret; auto].
    eapply triple_bind with (R := fun _ => recorded_so_far H).
    + apply loop_body_cut_short.
    + intros [|]; [apply triple_ret; auto | exact IH].
Qed.

(** *** The steps recorded by the loop, when the store accepts the
    step log *)

Hypothesis Hlogs : accepts_step_logs H.

Lemma tool_calls_recorded (executionId : string) (response : LLMClient.LLMResponse) :
  given H response ->
  no_tool_calls response = false ->
  triple (recorded_before H)
    (bind (for_of (tool_calls_of response)
             (processToolCall H executionId response))
          (fun _ => ret Continue))
    (fun _ v => recorded_so_far H v).
Proof.
  intros Hgiven Hcalls s out s' E Hbefore.
  pose proof (tool_calls_cut_short executionId response Hgiven Hcalls
                s out s' E Hbefore) as Hpost.
  destruct (tool_calls_continue H Hlogs executionId response s)
    as (s1 & Hrun & _).
  rewrite Hrun in E. injection E as <- <-. exact Hpost.
Qed.

Lemma loop_body_recorded (agentConfig : AgentConfig) (executionId : string)
  (startTime : Z) (tools : list value) :
  triple (recorded_so_far H)
    (loop_body H agentConfig executionId startTime tools)
    (fun _ v => recorded_so_far H v).
Proof.
  unfold loop_body.
  eapply triple_bind with (R := fun _ => recorded_before H).
  { apply triple_modify. intros v (j & Hj & Hrec).
    exists j. split; [simpl; lia | exact Hrec]. }
  intros _.
  eapply triple_bind with (R := fun _ => recorded_before H).
  { apply triple_now. auto. }
  intros t.
  destruct (Z.ltb _ _).
  - eapply triple_bind with (R := fun _ => recorded_before H).
    { apply triple_modify. intros v Hv. exact Hv. }
    intros _.
    eapply triple_bind with (R := fun _ => recorded_before H).
    { apply triple_modify. intros v Hv. exact Hv. }
    intros _. apply triple_ret. intros v. apply recorded_before_so_far.
  - apply triple_get. intros s.
    eapply triple_bind
      with (R := fun response v => recorded_before H v /\ given H response).
    { apply triple_chat. intros turn v [Hv _].
      destruct (LLMClient.chat _ _ _ _) eqn:E.
      - split; [exact Hv|]. do 3 eexists. exact E.
      - now apply recorded_before_so_far. }
    intros response. apply triple_pure. intros Hgiven.
    eapply triple_bind with (R := fun _ => recorded_before H).
    { apply triple_modify. intros v Hv. exact Hv. }
    intros _.
    destruct (no_tool_calls response) eqn:Hcalls.
    + now apply answer_recorded.
    + now apply tool_calls_recorded.
Qed.

Lemma while_loop_recorded (fuel : nat) (agentConfig : AgentConfig)
  (executionId : string) (startTime : Z) (tools : list value) :
  triple (recorded_so_far H)
    (while_loop H fuel agentConfig executionId startTime tools)
    (fun _ v => recorded_so_far H v).
Proof.
  induction fuel as [| fuel IH]; simpl.
  - apply triple_ret. auto.
  - apply triple_get. intros s.
    eapply triple_weaken
      with (P' := recorded_so_far H) (Q' := fun _ v => recorded_so_far H v);
      [| intros v [Hv _]; exact Hv | auto].
    destruct (Z.ltb _ _); [| apply triple_ret; auto].
    eapply triple_bind with (R := fun _ => recorded_so_far H).
    + eapply triple_weaken; [apply loop_body_recorded | auto |].
      intros [? | ?]; auto.
    + intros [|]; [apply triple_ret; auto | exact IH].
Qed.

End Shape.

(** *** From the loop to the result of [execute] *)

Section Execute.

Variable H : Host.

(** Calls to the collaborators assign no variable. *)
Lemma triple_keep {A B} (I : Vars -> Prop) (m : M A)
  (Q : Result B -> Vars -> Prop) :
  triple I m (fun _ v => I v) ->
  (forall e v, I v -> Q (Throw e) v) ->
  triple I m (fun out v => match out with
                           | Ok _ => I v
                           | Throw e => Q (Throw e) v
                           end).
Proof.
  intros Hm HQ. eapply triple_weaken; [exact Hm | auto |].
  intros [a | e] v Hv; auto.
Qed.

Lemma now_keeps (I : Vars -> Prop) : triple I (now H) (fun _ v => I v).
Proof. apply triple_now. auto. Qed.

Lemma query_keeps (I : Vars -> Prop) (q : Query) :
  triple I (query H q) (fun _ v => I v).
Proof. apply triple_query. auto. Qed.

Lemma lift_keeps {A} (I : Vars -> Prop) (r : Result A) :
  triple I (lift r) (fun _ v => I v).
Proof. apply triple_lift. auto. Qed.

Section Invariant.

Variable agentConfig : AgentConfig.
Variable I : Vars -> Prop.

(** [I] survives the assignments made outside the loop, and the loop. *)
Hypothesis I_messages : forall ms v, I v -> I (set_messages ms v).
Hypothesis I_status : forall st v, I v -> I (set_status st v).
Hypothesis I_answer : forall a v, I v -> I (set_finalAnswer a v).
Hypothesis I_loop :
  forall fuel executionId startTime tools,
    triple I (while_loop H fuel agentConfig executionId startTime tools)
      (fun _ v => I v).

Let post : Result ExecutionResult -> Vars -> Prop :=
  fun out v => I v /\ forall r, out = Ok r -> carries r v.

Lemma post_Throw (e : string) (v : Vars) : I v -> post (Throw e) v.
Proof.
  intros Hv. split; [exact Hv|]. intros r E. discriminate E.
Qed.

Lemma conclude_invariant (userId executionId : string) (startTime : Z) :
  triple I (conclude H agentConfig userId executionId startTime) post.
Proof.
  unfold conclude.
  apply triple_get. intros s.
  eapply triple_bind with (R := fun _ => I).
  { eapply triple_weaken with (P' := I) (Q' := fun _ v => I v);
      [| intros v [Hv _]; exact Hv | intros [[] | e] v Hv; auto using post_Throw].
    destruct (_ && _).
    - eapply triple_bind with (R := fun _ => I);
        [apply triple_modify; now auto | intros _].
      apply triple_modify. auto.
    - apply triple_ret. auto. }
  intros _.
  eapply triple_bind with (R := fun _ => I);
    [apply triple_keep; [apply now_keeps | apply post_Throw] | intros t].
  apply triple_get. intros s1.
  set (P := fun v => I v /\ v = vars s1).
  eapply triple_bind with (R := fun _ => P).
  { apply triple_query. intros [[] | e] v Hv; [exact Hv|].
    apply post_Throw. apply Hv. }
  intros _.
  eapply triple_bind with (R := fun _ => P).
  { apply triple_query. intros [[] | e] v Hv; [exact Hv|].
    apply post_Throw. apply Hv. }
  intros _.
  apply triple_ret. intros v [Hv ->].
  split; [exact Hv|]. intros r E. injection E as <-.
  repeat split.
Qed.

Lemma try_block_invariant (input userId executionId : string) (startTime : Z) :
  triple I (try_block H agentConfig input userId executionId startTime) post.
Proof.
  unfold try_block.
  eapply triple_bind with (R := fun _ => I);
    [apply triple_keep; [apply query_keeps | apply post_Throw] | intros _].
  eapply triple_bind with (R := fun _ => I);
    [apply triple_keep; [apply lift_keeps | apply post_Throw] | intros prompt].
  eapply triple_bind with (R := fun _ => I);
    [apply triple_modify; now auto | intros _].
  eapply triple_bind with (R := fun _ => I);
    [apply triple_keep; [apply lift_keeps | apply post_Throw] | intros tools].
  eapply triple_bind with (R := fun _ => I);
    [apply triple_keep; [apply I_loop | apply post_Throw] | intros _].
  apply conclude_invariant.
Qed.

Lemma catch_block_invariant (executionId : string) (startTime : Z)
  (message : string) :
  triple I (catch_block H executionId startTime message) post.
Proof.
  unfold catch_block.
  eapply triple_bind with (R := fun _ => I);
    [apply triple_keep; [apply now_keeps | apply post_Throw] | intros t].
  eapply triple_bind with (R := fun _ => I);
    [apply triple_keep; [apply query_keeps | apply post_Throw] | intros _].
  apply triple_get. intros s.
  apply triple_ret. intros v [Hv ->].
  split; [exact Hv|]. intros r E. injection E as <-.
  repeat split.
Qed.

Lemma execute_invariant (input userId : string) :
  triple I (execute H agentConfig input userId) post.
Proof.
  unfold execute.
  eapply triple_bind with (R := fun _ => I);
    [apply triple_keep; [apply now_keeps | apply post_Throw] | intros startTime].
  eapply triple_try_catch with (R := fun _ => I).
  - eapply triple_weaken; [apply try_block_invariant | auto |].
    intros [r | e] v Hv; [exact Hv | apply Hv].
  - intros e. apply catch_block_invariant.
Qed.

End Invariant.

(** The same, for a property [I] that the loop keeps as long as
    nothing is thrown, and that leaves [K] behind when something is. *)
Section Partial.

Variable agentConfig : AgentConfig.
Variables I K : Vars -> Prop.

Hypothesis I_K : forall v, I v -> K v.
Hypothesis I_messages : forall ms v, I v -> I (set_messages ms v).
Hypothesis I_status : forall st v, I v -> I (set_status st v).
Hypothesis I_answer : forall a v, I v -> I (set_finalAnswer a v).
Hypothesis I_loop :
  forall fuel executionId startTime tools,
    triple I (while_loop H fuel agentConfig executionId startTime tools)
      (fun out v => match out with
                    | Ok _ => I v
                    | Throw _ => K v
                    end).

Let left_behind : Result ExecutionResult -> Vars -> Prop :=
  fun out v => K v /\ forall r, out = Ok r -> carries r v.

Lemma left_behind_Throw (e : string) (v : Vars) : K v -> left_behind (Throw e) v.
Proof.
  intros Hv. split; [exact Hv|]. intros r E. discriminate E.
Qed.

Lemma try_block_partial (input userId executionId : string) (startTime : Z) :
  triple I (try_block H agentConfig input userId executionId startTime)
    (fun out v => match out with
                  | Ok r => left_behind (Ok r) v
                  | Throw _ => K v
                  end).
Proof.
  unfold try_block.
  eapply triple_bind with (R := fun _ => I).
  { apply triple_query. intros [? | ?] v Hv; auto. }
  intros _.
  eapply triple_bind with (R := fun _ => I).
  { apply triple_lift. intros v Hv. destruct (buildSystemPrompt _ _ _); auto. }
  intros prompt.
  eapply triple_bind with (R := fun _ => I);
    [apply triple_modify; now auto | intros _].
  eapply triple_bind with (R := fun _ => I).
  { apply triple_lift. intros v Hv. destruct (ResultMonad.mapM _ _); auto. }
  intros tools.
  eapply triple_bind with (R := fun _ => I); [apply I_loop | intros _].
  eapply triple_weaken;
    [apply (conclude_invariant agentConfig I I_status I_answer) | auto |].
  intros [r | e] v [Hv Hcarries]; [| auto].
  split; [auto | exact Hcarries].
Qed.

Lemma execute_partial (input userId : string) :
  triple I (execute H agentConfig input userId) left_behind.
Proof.
  unfold execute.
  eapply triple_bind with (R := fun _ => I).
  { apply triple_now. auto. }
  intros startTime.
  eapply triple_try_catch with (R := fun _ => K).
  - apply try_block_partial.
  - intros e. apply (catch_block_invariant K).
Qed.

End Partial.

(** Whatever the store does, the steps of a result are those of whole
    iterations, but for the last steps of the last one. *)
Lemma run_cut_short (agentConfig : AgentConfig) (input userId : string)
  (r : ExecutionResult) (s : State) :
  run H agentConfig input userId = (Ok r, s) ->
  cut_short H (steps r).
Proof.
  intros E.
  assert (Hinit : recorded_so_far H (vars initial_state)).
  { exists 0. split; [simpl; lia | constructor]. }
  destruct (execute_partial agentConfig (recorded_so_far H)
              (fun v => cut_short H (cur_steps v))
              (recorded_so_far_cut_short H)
              (fun _ _ Hv => Hv) (fun _ _ Hv => Hv) (fun _ _ Hv => Hv)
              (fun fuel executionId startTime tools =>
                 while_loop_cut_short H fuel agentConfig executionId
                   startTime tools)
              input userId initial_state (Ok r) s E Hinit)
    as [Hcut Hcarries].
  destruct (Hcarries r eq_refl) as (Hsteps & _).
  now rewrite Hsteps.
Qed.

(** When the store accepts the step log, the steps of a result are
    those of whole iterations. *)
Lemma run_recorded (agentConfig : AgentConfig) (input userId : string)
  (r : ExecutionResult) (s : State) :
  accepts_step_logs H ->
  run H agentConfig input userId = (Ok r, s) ->
  exists n, recorded H n (steps r).
Proof.
  intros Hlogs E.
  assert (Hinit : recorded_so_far H (vars initial_state)).
  { exists 0. split; [simpl; lia | constructor]. }
  destruct (execute_invariant agentConfig (recorded_so_far H)
              (fun _ _ Hv => Hv) (fun _ _ Hv => Hv) (fun _ _ Hv => Hv)
              (fun fuel executionId startTime tools =>
                 while_loop_recorded H Hlogs fuel agentConfig executionId
                   startTime tools)
              input userId initial_state (Ok r) s E Hinit)
    as [(j & _ & Hrec) Hcarries].
  destruct (Hcarries r eq_refl) as (Hsteps & _).
  exists j. now rewrite Hsteps.
Qed.

End Execute.

(** *** The two ways out of [execute] *)

Section Exits.

Variable H : Host.

Lemma bind_Ok {A B} (m : M A) (f : A -> M B) (s s1 : State) (a : A) :
  m s = (Ok a, s1) -> bind m f s = f a s1.
Proof.
  intros E. unfold bind. now rewrite E.
Qed.

Lemma bind_Throw {A B} (m : M A) (f : A -> M B) (s s1 : State) (e : string) :
  m s = (Throw e, s1) -> bind m f s = (Throw e, s1).
Proof.
  intros E. unfold bind. now rewrite E.
Qed.

(** The [catch] block resolves with an error result when the store
    accepts its update, and rejects with what the store threw when it
    does not. *)
Lemma catch_block_run (executionId : string) (startTime : Z) (message : string)
  (s : State) :
  accepts_error_update H ->
  exists w,
    catch_block H executionId startTime message s =
    (Ok {| executionId := executionId;
           status := Error;
           output := "";
           steps := cur_steps (vars s);
           tokensUsed := totalTokensUsed (vars s);
           cost := totalCost (vars s);
           executionTimeMs := Date_now H (clock_reads (world s)) - startTime;
           error := Some message |},
     {| world := w; vars := vars s |})
    /\ chats w = chats (world s)
    /\ invocations w = invocations (world s).
Proof.
  intros Hupdate.
  unfold catch_block, bind, now, query, get, ret. cbn.
  rewrite Hupdate. eexists. repeat split.
Qed.

Lemma catch_block_rejected (executionId : string) (startTime : Z)
  (message cause : string) (s : State) :
  db_query H (List.length (queries (world s)))
    (update_execution_error message
       (Date_now H (clock_reads (world s)) - startTime) executionId)
  = Some cause ->
  exists s', catch_block H executionId startTime message s = (Throw cause, s').
Proof.
  intros Hreject.
  unfold catch_block, bind, now, query, get, ret. cbn.
  rewrite Hreject. eexists. reflexivity.
Qed.

(** The code after the loop, when the store accepts its statements. *)
Lemma conclude_run (agentConfig : AgentConfig) (userId executionId : string)
  (startTime : Z) (s : State) :
  accepts_every_statement H ->
  let exhausted :=
    (maxIterations agentConfig <=? iteration (vars s))
    && Status_eqb (cur_status (vars s)) Success in
  exists s',
    conclude H agentConfig userId executionId startTime s =
    (Ok {| executionId := executionId;
           status := if exhausted then MaxIterations else cur_status (vars s);
           output :=
             if exhausted
             then "Maximum iterations reached without finding a final answer"
             else finalAnswer (vars s);
           steps := cur_steps (vars s);
           tokensUsed := totalTokensUsed (vars s);
           cost := totalCost (vars s);
           executionTimeMs := Date_now H (clock_reads (world s)) - startTime;
           error := None |}, s')
    /\ chats (world s') = chats (world s)
    /\ invocations (world s') = invocations (world s).
Proof.
  intros Hstore exhausted.
  unfold conclude, bind, get, now, query, modify, ret. cbn.
  fold exhausted.
  destruct exhausted; cbn; rewrite !Hstore; eexists; repeat split.
Qed.

End Exits.

(** *** Entering the loop, or failing before it *)

Section Setup.

Variable H : Host.
Variable agentConfig : AgentConfig.
Variables input userId executionId : string.
Variable startTime : Z.

Lemma try_block_enters_loop (s : State) (prompt : string) (parsed : list value) :
  db_query H (List.length (queries (world s)))
    (insert_execution executionId (id agentConfig) userId input) = None ->
  buildSystemPrompt H (systemPrompt agentConfig) (tools agentConfig) = Ok prompt ->
  ResultMonad.mapM (fun t => JSON_parse (JSON H) (schema t)) (tools agentConfig)
  = Ok parsed ->
  exists w,
    try_block H agentConfig input userId executionId startTime s =
    bind (while_loop H (Z.to_nat (maxIterations agentConfig))
            agentConfig executionId startTime parsed)
         (fun _ => conclude H agentConfig userId executionId startTime)
         {| world := w; vars := opened input prompt (vars s) |}
    /\ clock_reads w = clock_reads (world s)
    /\ chats w = chats (world s)
    /\ invocations w = invocations (world s).
Proof.
  intros Hinsert Hprompt Hparsed.
  unfold try_block.
  unfold bind at 1, query at 1. rewrite Hinsert.
  unfold bind at 1, lift at 1. rewrite Hprompt.
  unfold bind at 1, modify at 1.
  unfold bind at 1, lift at 1. rewrite Hparsed.
  eexists. split; [reflexivity|]. repeat split.
Qed.

Lemma mapM_throws {A B} (f : A -> Result B) (xs : list A) (x : A) (message : string) :
  In x xs ->
  f x = Throw message ->
  exists e, ResultMonad.mapM f xs = Throw e.
Proof.
  intros Hin Hx.
  induction xs as [| x0 rest IH]; [destruct Hin|].
  simpl. destruct Hin as [-> | Hin].
  - rewrite Hx. simpl. eauto.
  - destruct (f x0) as [y | e]; simpl; [| eauto].
    destruct (IH Hin) as [e He]. rewrite He. simpl. eauto.
Qed.

(** A schema that is not JSON makes the construction of the system
    prompt throw, at that tool or at an earlier one. *)
Lemma buildSystemPrompt_throws (basePrompt : string) (attached : list AttachedTool)
  (t : AttachedTool) (message : string) :
  In t attached ->
  JSON_parse (JSON H) (schema t) = Throw message ->
  exists e, buildSystemPrompt H basePrompt attached = Throw e.
Proof.
  intros Hin Hschema. unfold buildSystemPrompt.
  match goal with |- context [ResultMonad.mapM ?f attached] =>
    destruct (mapM_throws f attached t message Hin) as [e He]
  end.
  - simpl. now rewrite Hschema.
  - exists e. now rewrite He.
Qed.

(** Whatever the [try] block throws before the loop, it throws with
    the variables as they were and without a call to the gateway or
    to the executor. *)
Lemma try_block_fails_before_loop (s : State) (e : string) :
  buildSystemPrompt H (systemPrompt agentConfig) (tools agentConfig) = Throw e ->
  exists e' w,
    try_block H agentConfig input userId executionId startTime s =
    (Throw e', {| world := w; vars := vars s |})
    /\ chats w = chats (world s)
    /\ invocations w = invocations (world s)
    /\ (db_query H (List.length (queries (world s)))
          (insert_execution executionId (id agentConfig) userId input) = None ->
        e' = e).
Proof.
  intros Hprompt.
  unfold try_block.
  unfold bind at 1, query at 1.
  destruct (db_query H _ _) as [cause |].
  - exists cause. eexists. split; [reflexivity|].
    repeat split. intros E. discriminate E.
  - unfold bind at 1, lift at 1. rewrite Hprompt.
    exists e. eexists. split; [reflexivity|]. repeat split.
Qed.

End Setup.

(** *** The claims about [execute] *)

(** A pass in which the model answers, from any state of the loop that
    still has the status [Success]: the final step is recorded; the
    answer is the output when the counter stays below [maxIterations],
    and is replaced by the fixed text when the counter reaches it. *)
Lemma answer_in_pass (H : Host) (agentConfig : AgentConfig)
  (userId executionId : string) (startTime : Z) (tools : list value)
  (fuel : nat) (s : State) (response : LLMClient.LLMResponse) :
  accepts_every_statement H ->
  cur_status (vars s) = Success ->
  iteration (vars s) < maxIterations agentConfig ->
  timed_out H agentConfig startTime s = false ->
  gateway_answer H agentConfig tools s = Ok response ->
  no_tool_calls response = true ->
  exists r s' t,
    bind (while_loop H (S fuel) agentConfig executionId startTime tools)
         (fun _ => conclude H agentConfig userId executionId startTime) s
    = (Ok r, s')
    /\ steps r =
       cur_steps (vars s)
       ++ [final_step (iteration (vars s) + 1)
             (LLMClient.responseContent response) t]
    /\ (iteration (vars s) + 1 < maxIterations agentConfig ->
        status r = Success /\ output r = LLMClient.responseContent response)
    /\ (iteration (vars s) + 1 = maxIterations agentConfig ->
        status r = MaxIterations
        /\ output r = "Maximum iterations reached without finding a final answer").
Proof.
  intros Hstore Hstatus Hbelow Hlate Hanswer Hcalls.
  assert (Hlogs : accepts_step_logs H).
  { intros n execution_id step_number step_type reasoning action. apply Hstore. }
  destruct (loop_body_answers H agentConfig executionId startTime tools Hlogs
              s response Hlate Hanswer Hcalls) as (w & t & Hbody).
  simpl while_loop.
  unfold bind at 1. unfold bind at 1, get at 1.
  apply Z.ltb_lt in Hbelow. rewrite Hbelow. apply Z.ltb_lt in Hbelow.
  unfold bind at 1. rewrite Hbody. unfold ret at 1.
  match goal with |- context [conclude _ _ _ _ _ ?s1] =>
    destruct (conclude_run H agentConfig userId executionId startTime s1 Hstore)
      as (s' & Hend & _)
  end.
  cbv zeta in Hend. rewrite Hend.
  eexists. exists s', t. split; [reflexivity|].
  simpl. rewrite Hstatus. simpl. rewrite andb_true_r.
  split; [reflexivity|]. split.
  - intros Hlt. apply Z.leb_gt in Hlt. rewrite Hlt. split; reflexivity.
  - intros Heq. rewrite Heq, Z.leb_refl. split; reflexivity.
Qed.

(** C1 at [i = maxIterations].  The agent allows one iteration and the
    model answers '42' without tool calls on that iteration.  The final
    step is recorded, and then the check made after the loop, which
    only looks at the counter and at the status, takes the execution
    for one that ran out of iterations: the status is [MaxIterations]
    and the output is the fixed text, not '42'. *)
Theorem answer_on_last_iteration_is_overwritten :
  exists r s,
    run Samples.answering_host (Samples.agent "gpt-4" 1 300 [])
      "What is 6 x 7?" "user-1" = (Ok r, s)
    /\ map stepType (steps r) = [Final]
    /\ map reasoning (steps r) = [Some "42"]
    /\ status r = MaxIterations
    /\ output r = "Maximum iterations reached without finding a final answer".
Proof.
  eexists. eexists. split; [vm_compute; reflexivity|].
  repeat split.
Qed.

(** With one more iteration allowed, the same answer is a success. *)
Example answer_before_last_iteration :
  exists r s,
    run Samples.answering_host (Samples.agent "gpt-4" 2 300 [])
      "What is 6 x 7?" "user-1" = (Ok r, s)
    /\ map stepType (steps r) = [Final]
    /\ status r = Success
    /\ output r = "42".
Proof.
  eexists. eexists. split; [vm_compute; reflexivity|].
  repeat split.
Qed.



(** Scenario E: the gateway throws on the first pass. *)
Example gateway_failure_on_first_pass :
  fst (run Samples.gateway_down_host (Samples.agent "gpt-4" 10 300 [])
         "What is 6 x 7?" "user-1") =
  Ok {| executionId := "exec-6";
        status := Error;
        output := "";
        steps := [];
        tokensUsed := 0;
        cost := Binary64.zero;
        executionTimeMs := 0;
        error := Some "Connection error." |}.
Proof. reflexivity. Qed.


(** The executor throws while a tool call is processed: whatever the
    store does, the three steps are pushed, the last of which is the
    observation made of the message thrown, and the outcome is that of
    the log entry of that observation. *)
Lemma processToolCall_absorbs (H : Host) (executionId : string)
  (response : LLMClient.LLMResponse) (toolCall : LLMClient.ToolCall)
  (s : State) (message : string) (out : Result unit) (s' : State) :
  toolExecutor_execute H (List.length (invocations (world s)))
    (LLMClient.toolName toolCall) (LLMClient.arguments toolCall)
  = Throw message ->
  processToolCall H executionId response toolCall s = (out, s') ->
  invocations (world s') <> invocations (world s) ->
  (exists t1 t2 t3,
      cur_steps (vars s') =
      cur_steps (vars s)
      ++ [ reasoning_step (iteration (vars s))
             (LLMClient.responseContent response) t1;
           action_step (iteration (vars s)) (LLMClient.toolName toolCall)
             (LLMClient.arguments toolCall) t2;
           observation_step (iteration (vars s)) ("Error: " ++ message)%string t3 ])
  /\ out =
     match db_query H (S (S (List.length (queries (world s)))))
             (insert_execution_log executionId (iteration (vars s)) Observation
                (Some ("Error: " ++ message)%string) None)
     with
     | None => Ok tt
     | Some rejection => Throw rejection
     end.
Proof.
  intros Hthrow.
  unfold processToolCall, logStep, observe, bind, get, now, modify, query,
    try_catch, invoke, ret.
  cbn.
  destruct (db_query H (List.length (queries (world s))) _) as [rejection |].
  { intros E Hinvoked. injection E as _ <-. now contradiction Hinvoked. }
  cbn. rewrite length_app. simpl List.length. rewrite Nat.add_1_r.
  destruct (db_query H (S (List.length (queries (world s)))) _) as [rejection |].
  { intros E Hinvoked. injection E as _ <-. now contradiction Hinvoked. }
  cbn. rewrite Hthrow. cbn.
  rewrite !length_app. simpl List.length. rewrite !Nat.add_1_r.
  destruct (db_query H (S (S (List.length (queries (world s))))) _)
    as [rejection |]; cbn; intros E _; injection E as <- <-; cbn;
    (split; [| reflexivity]); do 3 eexists;
    repeat rewrite <- app_assoc; reflexivity.
Qed.



(** The store rejects the log entry of the observation: the tool's
    exception is absorbed all the same, the observation step is in the
    steps, and what is thrown is what the store threw. *)
Example tool_throw_absorbed_store_rejects :
  exists s',
    processToolCall Samples.observation_log_rejected_host "exec-7"
      Samples.search_response Samples.search_request initial_state
    = (Throw "invalid byte sequence for encoding UTF8", s')
    /\ map observation (cur_steps (vars s'))
       = [None; None; Some "Error: socket hang up"]
    /\ messages (vars s') = [].
Proof.
  eexists. split; [vm_compute; reflexivity|]. split; reflexivity.
Qed.




(** The store rejects the log entry of the action step: the steps of
    the error result are the first two of the three that the tool call
    would have had, and their numbers do not decrease. *)
Example steps_cut_short_by_the_store :
  exists r s,
    run Samples.action_log_rejected_host (Samples.agent "gpt-4" 10 300 [])
      "What is 6 x 7?" "user-1" = (Ok r, s)
    /\ status r = Error
    /\ map stepType (steps r) = [Reasoning; Action]
    /\ map stepNumber (steps r) = [1; 1].
Proof.
  eexists. eexists. split; [vm_compute; reflexivity|]. repeat split.
Qed.








End ReActEngineFacts.


(* ===================================================================== *)
(** ** The tools, case by case *)
(* ===================================================================== *)

Module ToolExecutorCases.

Import ToolExecutor Notions.

Local Open Scope result_scope.

Lemma get_prop_defined (o : value) (k : string) :
  nullish o = false -> get_prop o k = Ok (prop o k).
Proof.
  unfold prop. destruct o; simpl; intros E; try discriminate E; reflexivity.
Qed.

(** X1. The three placeholder tools ([send_email], [database_query],
    [slack_notify]) settle with a result on every argument value.  On
    [null] and [undefined] the first property read throws, and the
    result is a failure that carries the message of the [TypeError].
    On any other value [database_query] succeeds and echoes the query
    that was read, [undefined] included.  [send_email] and
    [slack_notify] put their first argument into a template literal:
    they succeed, with the converted argument in the message, unless
    the argument hides [toString], in which case the conversion throws
    and the result is a failure with the message of that
    [TypeError]. *)
Theorem placeholder_tools (P : Platform) (toolName : string) (args : value) :
  In toolName placeholders ->
  exists r,
    execute P toolName args = Ok r
    /\ (nullish args = true ->
        r = failure ("Cannot read properties of " ++ nullish_name args
                     ++ " (reading '" ++ first_argument toolName ++ "')"))
    /\ (nullish args = false ->
        match announcement toolName with
        | Some prefix =>
            if hides_toString (prop args (first_argument toolName))
            then r = failure "Cannot convert object to primitive value"
            else
              success r = true /\ error r = None
              /\ exists text others,
                   to_string (prop args (first_argument toolName)) = Ok text
                   /\ data r =
                      Some (VObj (("message", VStr (prefix ++ text))
                                  :: (first_argument toolName,
                                      prop args (first_argument toolName))
                                  :: others))
        | None =>
            r = {| success := true;
                   data := Some (VObj
                     [("message",
                       VStr "Database query execution requires proper configuration");
                      ("query", prop args "query")]);
                   error := None |}
        end).
Proof.
  intros Hin. unfold placeholders in Hin. simpl in Hin.
  destruct (nullish args) eqn:Hargs.
  - assert (Hthrow : forall k,
               get_prop args k
               = Throw ("Cannot read properties of " ++ nullish_name args
                        ++ " (reading '" ++ k ++ "')")).
    { intros k. destruct args; try discriminate Hargs; reflexivity. }
    destruct Hin as [<- | [<- | [<- | []]]]; unfold execute; simpl;
      rewrite Hthrow; simpl;
      (eexists; split; [reflexivity|]; split; [reflexivity | discriminate]).
  - destruct Hin as [<- | [<- | [<- | []]]]; unfold execute; simpl;
      rewrite !get_prop_defined by exact Hargs;
      unfold first_argument, announcement; simpl.
    + unfold sendEmail.
      destruct (hides_toString (prop args "to")) eqn:Eto.
      * rewrite (JSFacts.to_string_hidden _ Eto). simpl.
        eexists; split; [reflexivity|]; split; [discriminate | reflexivity].
      * destruct (JSFacts.to_string_shown _ Eto) as [text Etext].
        rewrite Etext. simpl.
        eexists; split; [reflexivity|]; split; [discriminate|]. intros _.
        simpl. split; [reflexivity|]. split; [reflexivity|].
        exists text, [("subject", prop args "subject")]. now split.
    + eexists; split; [reflexivity|]; split; [discriminate | reflexivity].
    + unfold slackNotify.
      destruct (hides_toString (prop args "channel")) eqn:Echannel.
      * rewrite (JSFacts.to_string_hidden _ Echannel). simpl.
        eexists; split; [reflexivity|]; split; [discriminate | reflexivity].
      * destruct (JSFacts.to_string_shown _ Echannel) as [text Etext].
        rewrite Etext. simpl.
        eexists; split; [reflexivity|]; split; [discriminate|]. intros _.
        simpl. split; [reflexivity|]. split; [reflexivity|].
        exists text, []. now split.
Qed.

Lemma placeholder_tools_witness :
  exists r,
    execute Samples.unreachable_network "send_email" (VObj []) = Ok r
    /\ success r = true
    /\ data r =
       Some (VObj [("message", VStr "Email queued to undefined");
                   ("to", VUndefined); ("subject", VUndefined)]).
Proof.
  destruct (placeholder_tools Samples.unreachable_network "send_email" (VObj []))
    as (r & Hr & _ & Hdefined).
  - simpl. tauto.
  - exists r. split; [exact Hr|].
    destruct (Hdefined eq_refl) as (Hsuccess & _).
    split; [exact Hsuccess|].
    vm_compute in Hr. injection Hr as <-. reflexivity.
Defined.

(** A recipient that hides [toString] cannot be put into the message:
    the [TypeError] of the template literal is caught by [execute]. *)
Example send_email_hidden_toString :
  execute Samples.unreachable_network "send_email"
    (VObj [("to", VObj [("toString", VStr "me")])])
  = Ok (failure "Cannot convert object to primitive value").
Proof. reflexivity. Qed.

Example slack_notify_channels :
  execute Samples.unreachable_network "slack_notify"
    (VObj [("channel", VArr [VStr "ops"; VNum 7])])
  = Ok {| success := true;
          data := Some (VObj
            [("message", VStr "Notification queued for channel ops,7");
             ("channel", VArr [VStr "ops"; VNum 7])]);
          error := None |}.
Proof. reflexivity. Qed.



Lemma try_catch_success (m : Result ToolResult) (r : ToolResult) :
  ResultMonad.try_catch m (fun message => Ok (failure message)) = Ok r ->
  success r = true ->
  m = Ok r.
Proof.
  destruct m as [r' | e]; simpl; intros E Hs.
  - exact E.
  - injection E as <-. discriminate Hs.
Qed.

(** X3. The two tools that reach the network report no success that
    the network did not grant: when [web_search] with a key, or
    [http_request], returns [success: true], [fetch] has resolved with
    a response whose [ok] is true, and the result carries no error. *)
Theorem network_tools_success (P : Platform) (toolName : string) (args : value)
  (r : ToolResult) :
  toolName = "web_search" /\ (exists key, PERPLEXITY_API_KEY P = Some key /\ key <> "")
  \/ toolName = "http_request" ->
  execute P toolName args = Ok r ->
  success r = true ->
  exists url init response,
    fetch P url init = Ok response
    /\ ok response = true
    /\ error r = None.
Proof.
  intros Htool Hrun Hsuccess.
  unfold execute in Hrun. apply try_catch_success in Hrun; [| exact Hsuccess].
  destruct Htool as [[-> (key & Hkey & Hnonempty)] | ->]; simpl in Hrun.
  - apply LLMClientFacts.bind_Ok_inv in Hrun. destruct Hrun as (q & _ & Hrun).
    unfold webSearch in Hrun. apply try_catch_success in Hrun; [| exact Hsuccess].
    rewrite Hkey in Hrun.
    destruct key as [| c key]; [now contradiction Hnonempty|].
    apply LLMClientFacts.bind_Ok_inv in Hrun.
    destruct Hrun as (response & Hfetch & Hrun).
    destruct (ok response) eqn:Hok; simpl in Hrun; [| discriminate Hrun].
    repeat (apply LLMClientFacts.bind_Ok_inv in Hrun; destruct Hrun as (? & _ & Hrun)).
    injection Hrun as <-. eauto 6.
  - unfold httpRequest in Hrun. apply try_catch_success in Hrun; [| exact Hsuccess].
    repeat (apply LLMClientFacts.bind_Ok_inv in Hrun; destruct Hrun as (? & ? & Hrun)).
    injection Hrun as <-. simpl in Hsuccess. eauto 6.
Qed.

Lemma network_tools_success_witness :
  exists r,
    execute Networks.answering_network "web_search"
      (VObj [("query", VStr "rocq")]) = Ok r
    /\ data r
       = Some (VObj [("query", VStr "rocq");
                     ("answer", VStr "Rocq is a proof assistant.");
                     ("sources", VArr [])])
    /\ exists url init response,
         fetch Networks.answering_network url init = Ok response
         /\ ok response = true
         /\ error r = None.
Proof.
  eexists. split; [reflexivity|]. split; [reflexivity|].
  apply (network_tools_success Networks.answering_network "web_search"
           (VObj [("query", VStr "rocq")])).
  - left. split; [reflexivity|]. exists "pplx-key". split; [reflexivity | discriminate].
  - reflexivity.
  - reflexivity.
Defined.

(** X4. [http_request] copies [success] from [response.ok]: on a
    network that answers with an error status the result is a failure
    that holds the status and the body under [data], and no [error]
    text. *)
Theorem http_request_mirrors_status (P : Platform) (args : value)
  (response : Response) (body : string) :
  nullish args = false ->
  (forall url init, fetch P url init = Ok response) ->
  text response = Ok body ->
  execute P "http_request" args =
  Ok {| success := ok response;
        data := Some (VObj [("status", VNum (status response));
                            ("statusText", VStr (statusText response));
                            ("body", VStr body)]);
        error := None |}.
Proof.
  intros Hargs Hfetch Htext.
  unfold execute. simpl. unfold httpRequest.
  rewrite !get_prop_defined by exact Hargs. simpl.
  rewrite Hfetch. simpl. rewrite Htext. reflexivity.
Qed.

Lemma http_request_mirrors_status_witness :
  execute Networks.not_found_network "http_request"
    (VObj [("url", VStr "https://example.org/missing"); ("method", VStr "GET")])
  = Ok {| success := false;
          data := Some (VObj [("status", VNum 404);
                              ("statusText", VStr "Not Found");
                              ("body", VStr "no such page")]);
          error := None |}.
Proof.
  apply (http_request_mirrors_status Networks.not_found_network
           (VObj [("url", VStr "https://example.org/missing");
                  ("method", VStr "GET")])
           Networks.not_found "no such page").
  - reflexivity.
  - intros url init. reflexivity.
  - reflexivity.
Defined.

End ToolExecutorCases.


(* ===================================================================== *)
(** ** The responses of the two providers *)
(* ===================================================================== *)

Module LLMClientCases.

Import LLMClient Wire.

Local Open Scope result_scope.

Lemma mapM_Forall2 {A B} (f : A -> Result B) (xs : list A) (ys : list B) :
  ResultMonad.mapM f xs = Ok ys -> Forall2 (fun x y => f x = Ok y) xs ys.
Proof.
  revert ys. induction xs as [| x rest IH]; simpl; intros ys E.
  - injection E as <-. constructor.
  - apply LLMClientFacts.bind_Ok_inv in E. destruct E as (y & Hy & E).
    apply LLMClientFacts.bind_Ok_inv in E. destruct E as (ys' & Hys & E).
    injection E as <-. constructor; [exact Hy | now apply IH].
Qed.

(** X5. A response that came through the OpenAI branch is made of the
    first choice of the completion: its text, or the empty string when
    there is none, and its tool calls in their order, each with its id
    and name and with its arguments parsed. *)
Theorem openai_first_choice (P : Providers) (turn : nat) (messages : list Message)
  (model : string) (tools : list value) (temperature : Binary64.number) (maxTokens : Z)
  (r : LLMResponse) :
  chatOpenAI P turn messages model tools temperature maxTokens = Ok r ->
  exists request completion choice others,
    openai_chat_completions_create P turn request = Ok completion
    /\ openai_messages request = messages
    /\ choices completion = choice :: others
    /\ responseContent r = match message_content choice with
                           | Some text => text
                           | None => ""
                           end
    /\ responseModel r = completion_model completion
    /\ match message_tool_calls choice with
       | None => toolCalls r = None
       | Some tcs =>
           exists calls,
             toolCalls r = Some calls
             /\ Forall2 (parsed_from (JSON P)) tcs calls
       end.
Proof.
  unfold chatOpenAI. intros E.
  apply LLMClientFacts.bind_Ok_inv in E. destruct E as (completion & Hsent & E).
  destruct (choices completion) as [| choice others] eqn:Hchoices;
    [discriminate E|].
  apply LLMClientFacts.bind_Ok_inv in E. destruct E as (calls & Hcalls & E).
  injection E as <-.
  eexists. exists completion, choice, others.
  split; [exact Hsent|]. split; [reflexivity|]. split; [exact Hchoices|].
  simpl. split; [reflexivity|]. split; [reflexivity|].
  destruct (message_tool_calls choice) as [tcs |].
  - apply LLMClientFacts.bind_Ok_inv in Hcalls.
    destruct Hcalls as (parsed & Hparsed & Hcalls).
    injection Hcalls as <-.
    exists parsed. split; [reflexivity|].
    apply mapM_Forall2 in Hparsed.
    induction Hparsed as [| tc call tcs' calls' Hone _ IH]; constructor;
      [| exact IH].
    apply LLMClientFacts.bind_Ok_inv in Hone.
    destruct Hone as (args & Hargs & Hone).
    injection Hone as <-. repeat split. exact Hargs.
  - injection Hcalls as <-. reflexivity.
Qed.

Lemma openai_first_choice_witness :
  exists r,
    chatOpenAI Replies.searching_providers 0 Samples.conversation "gpt-4" []
      (Binary64.literal 7 10) 4096 = Ok r
    /\ responseContent r = ""
    /\ toolCalls r = Some [Samples.search_request]
    /\ exists request completion choice others,
         openai_chat_completions_create Replies.searching_providers 0 request
         = Ok completion
         /\ openai_messages request = Samples.conversation
         /\ choices completion = choice :: others
         /\ responseContent r = match message_content choice with
                                | Some text => text
                                | None => ""
                                end
         /\ responseModel r = completion_model completion
         /\ match message_tool_calls choice with
            | None => toolCalls r = None
            | Some tcs =>
                exists calls,
                  toolCalls r = Some calls
                  /\ Forall2 (parsed_from (JSON Replies.searching_providers))
                       tcs calls
            end.
Proof.
  eexists. split; [reflexivity|]. split; [reflexivity|]. split; [reflexivity|].
  apply (openai_first_choice Replies.searching_providers 0 Samples.conversation
           "gpt-4" [] (Binary64.literal 7 10) 4096).
  reflexivity.
Defined.

(** X6. A completion without a choice, or with a tool call whose
    arguments are not JSON, makes [chatOpenAI] throw: no response is
    made of the part that could be read. *)
Theorem openai_malformed_completion (P : Providers) (turn : nat)
  (messages : list Message) (model : string) (tools : list value)
  (temperature : Binary64.number) (maxTokens : Z) (completion : ChatCompletion) :
  (forall request, openai_chat_completions_create P turn request = Ok completion) ->
  choices completion = []
  \/ (exists choice others tcs tc message,
         choices completion = choice :: others
         /\ message_tool_calls choice = Some tcs
         /\ In tc tcs
         /\ JSON_parse (JSON P) (function_arguments tc) = Throw message) ->
  exists e,
    chatOpenAI P turn messages model tools temperature maxTokens = Throw e.
Proof.
  intros Hsent Hmalformed. unfold chatOpenAI. rewrite Hsent. simpl.
  destruct Hmalformed
    as [-> | (choice & others & tcs & tc & message & -> & -> & Hin & Hargs)];
    [eauto|].
  match goal with |- context [ResultMonad.mapM ?f tcs] =>
    destruct (ReActEngineFacts.mapM_throws f tcs tc message Hin) as [e He]
  end.
  - simpl. now rewrite Hargs.
  - rewrite He. simpl. eauto.
Qed.

Lemma openai_malformed_completion_witness :
  exists e,
    chatOpenAI Replies.searching_providers 1 Samples.conversation "gpt-4" []
      (Binary64.literal 7 10) 4096 = Throw e.
Proof.
  apply (openai_malformed_completion Replies.searching_providers 1
           Samples.conversation "gpt-4" [] (Binary64.literal 7 10) 4096
           (Samples.one_choice None
              (Some [ {| call_id := "call_2";
                         function_name := "web_search";
                         function_arguments := "{query:" |} ])
              10 5 15)).
  - intros request. reflexivity.
  - right. do 5 eexists. split; [reflexivity|]. split; [reflexivity|].
    split; [left; reflexivity | reflexivity].
Defined.

Lemma tool_uses_filter (blocks : list ContentBlock) :
  flat_map (fun tc => match tc with
                      | tool_use_block i n a =>
                          [{| id := i; toolName := n; arguments := a |}]
                      | _ => []
                      end) (filter is_tool_use blocks)
  = flat_map tool_use_of blocks.
Proof.
  induction blocks as [| block rest IH]; simpl; [reflexivity|].
  destruct block; simpl; rewrite IH; reflexivity.
Qed.

Lemma find_first_text (blocks : list ContentBlock) :
  match List.find is_text blocks with
  | Some (text_block t) => t
  | _ => ""
  end = first_text blocks.
Proof.
  induction blocks as [| block rest IH]; simpl; [reflexivity|].
  destruct block; simpl; [reflexivity | exact IH | exact IH].
Qed.

(** X7. A response that came through the Anthropic branch: its text is
    that of the first text block, its tool calls are the tool-use
    blocks in their order, and a response without tool use has no
    [toolCalls] at all rather than an empty list. *)
Theorem anthropic_blocks (P : Providers) (turn : nat) (messages : list Message)
  (model : string) (tools : list value) (temperature : Binary64.number) (maxTokens : Z)
  (r : LLMResponse) :
  chatAnthropic P turn messages model tools temperature maxTokens = Ok r ->
  exists request message,
    anthropic_messages_create P turn request = Ok message
    /\ responseContent r = first_text (message_blocks message)
    /\ calls_of r = flat_map tool_use_of (message_blocks message)
    /\ toolCalls r <> Some []
    /\ responseModel r = message_model message.
Proof.
  unfold chatAnthropic. intros E.
  apply LLMClientFacts.bind_Ok_inv in E. destruct E as (tools' & _ & E).
  apply LLMClientFacts.bind_Ok_inv in E. destruct E as (message & Hsent & E).
  injection E as <-.
  eexists. exists message. split; [exact Hsent|].
  unfold calls_of. simpl.
  rewrite tool_uses_filter, find_first_text.
  split; [reflexivity|].
  destruct (flat_map tool_use_of (message_blocks message)) as [| call calls];
    simpl; repeat split; discriminate.
Qed.

Lemma anthropic_blocks_witness :
  exists r,
    chatAnthropic Replies.searching_providers 0 Samples.conversation
      "claude-3-haiku-20240307" [] (Binary64.literal 7 10) 4096 = Ok r
    /\ responseContent r = "Let me look it up."
    /\ exists request message,
         anthropic_messages_create Replies.searching_providers 0 request
         = Ok message
         /\ responseContent r = first_text (message_blocks message)
         /\ calls_of r = flat_map tool_use_of (message_blocks message)
         /\ toolCalls r <> Some []
         /\ responseModel r = message_model message.
Proof.
  eexists. split; [reflexivity|]. split; [reflexivity|].
  apply (anthropic_blocks Replies.searching_providers 0 Samples.conversation
           "claude-3-haiku-20240307" [] (Binary64.literal 7 10) 4096).
  reflexivity.
Defined.

End LLMClientCases.


(* ===================================================================== *)
(** ** Whole executions

    What [execute] has asked of its collaborators when it ends, and
    what the result holds, for every host.  The statements are about
    the state, which records the calls made, and are proved by
    following the code of [execute] with [holds]. *)
(* ===================================================================== *)

Module ExecutionFacts.

Import ReActEngine Trace Protocol.

Local Open Scope list_scope.

(** *** Rules for [holds] *)

Section Logic.

Variable H : Host.

Lemma holds_weaken {A} (P P' : State -> Prop) (m : M A)
  (Q Q' : Result A -> State -> Prop) :
  holds P' m Q' ->
  (forall s, P s -> P' s) ->
  (forall out s, Q' out s -> Q out s) ->
  holds P m Q.
Proof.
  intros Hm Hpre Hpost s out s' E Hp. eauto.
Qed.

(** A computation is described by what it returns on each state. *)
Lemma holds_run {A} (P : State -> Prop) (m : M A) (Q : Result A -> State -> Prop) :
  (forall s, P s -> Q (fst (m s)) (snd (m s))) -> holds P m Q.
Proof.
  intros HQ s out s' E Hp. specialize (HQ s Hp). now rewrite E in HQ.
Qed.

Lemma holds_bind {A B} (P : State -> Prop) (m : M A) (R : A -> State -> Prop)
  (f : A -> M B) (Q : Result B -> State -> Prop) :
  holds P m (fun out s => match out with
                          | Ok a => R a s
                          | Throw e => Q (Throw e) s
                          end) ->
  (forall a, holds (R a) (f a) Q) ->
  holds P (bind m f) Q.
Proof.
  intros Hm Hf s out s' E Hp. unfold bind in E.
  destruct (m s) as [[a | e] s1] eqn:Em.
  - apply (Hf a s1 out s' E). exact (Hm s _ s1 Em Hp).
  - injection E as <- <-. exact (Hm s _ s1 Em Hp).
Qed.

Lemma holds_get {B} (P : State -> Prop) (f : State -> M B)
  (Q : Result B -> State -> Prop) :
  (forall s0, holds (fun s => P s /\ s = s0) (f s0) Q) ->
  holds P (bind get f) Q.
Proof.
  intros Hf s out s' E Hp. unfold bind, get in E.
  apply (Hf s s out s' E). auto.
Qed.

Lemma holds_try_catch {A} (P : State -> Prop) (m : M A) (R : string -> State -> Prop)
  (h : string -> M A) (Q : Result A -> State -> Prop) :
  holds P m (fun out s => match out with
                          | Ok a => Q (Ok a) s
                          | Throw e => R e s
                          end) ->
  (forall e, holds (R e) (h e) Q) ->
  holds P (try_catch m h) Q.
Proof.
  intros Hm Hh s out s' E Hp. unfold try_catch in E.
  destruct (m s) as [[a | e] s1] eqn:Em.
  - injection E as <- <-. exact (Hm s _ s1 Em Hp).
  - apply (Hh e s1 out s' E). exact (Hm s _ s1 Em Hp).
Qed.

Lemma holds_for_of {A} (I : State -> Prop) (xs : list A) (f : A -> M unit) :
  (forall x, holds I (f x) (fun _ s => I s)) ->
  holds I (for_of xs f) (fun _ s => I s).
Proof.
  intros Hf. induction xs as [| x rest IH]; simpl.
  - apply holds_run. auto.
  - eapply holds_bind with (R := fun _ => I); [| intros _; exact IH].
    eapply holds_weaken; [apply Hf | auto |]. intros [? | ?]; auto.
Qed.

(** Sequencing under an invariant. *)
Lemma holds_then {A B} (I : State -> Prop) (m : M A) (f : A -> M B) :
  holds I m (fun _ s => I s) ->
  (forall a, holds I (f a) (fun _ s => I s)) ->
  holds I (bind m f) (fun _ s => I s).
Proof.
  intros Hm Hf. eapply holds_bind with (R := fun _ => I); [| exact Hf].
  eapply holds_weaken; [exact Hm | auto |]. intros [? | ?]; auto.
Qed.

(** One step that keeps [I], then the rest. *)
Lemma holds_pass {A B} (I : State -> Prop) (m : M A) (k : A -> M B)
  (Q : Result B -> State -> Prop) :
  (forall s, I s -> I (snd (m s))) ->
  (forall e s, I s -> Q (Throw e) s) ->
  (forall a, holds I (k a) Q) ->
  holds I (bind m k) Q.
Proof.
  intros Hm Hthrow Hk.
  eapply holds_bind with (R := fun _ => I); [| exact Hk].
  apply holds_run. intros s Hs. apply Hm in Hs.
  destruct (fst (m s)); auto.
Qed.

(** Reading the variables: what is known of the state is known of what
    was read. *)
Lemma holds_from {B} (P : State -> Prop) (f : State -> M B)
  (Q : Result B -> State -> Prop) :
  (forall s0, P s0 -> holds (fun s => s = s0) (f s0) Q) ->
  holds P (bind get f) Q.
Proof.
  intros Hf s out s' E Hp. unfold bind, get in E.
  exact (Hf s Hp s out s' E eq_refl).
Qed.

(** Reading the variables under an invariant. *)
Lemma holds_look {B} (I : State -> Prop) (f : State -> M B)
  (Q : Result B -> State -> Prop) :
  (forall s0, holds I (f s0) Q) ->
  holds I (bind get f) Q.
Proof.
  intros Hf. apply holds_get. intros s0.
  eapply holds_weaken; [apply Hf | intros s [Hs _]; exact Hs | auto].
Qed.

(** [observe] leaves the state as the invocation leaves it. *)
Lemma observe_state (toolName : string) (args : value) (s : State) :
  snd (observe H toolName args s) = snd (invoke H toolName args s).
Proof.
  unfold observe, try_catch, bind, invoke, ret. simpl.
  destruct (toolExecutor_execute H _ _ _); reflexivity.
Qed.

Lemma holds_read {B} (I : State -> Prop) (f : State -> M B) :
  (forall s0, holds I (f s0) (fun _ s => I s)) ->
  holds I (bind get f) (fun _ s => I s).
Proof.
  intros Hf. apply holds_get. intros s0.
  eapply holds_weaken; [apply Hf | intros s [Hs _]; exact Hs | auto].
Qed.

End Logic.

(** *** What the processing of tool calls cannot break *)

Section Quiet.

Variable H : Host.
Variable I : State -> Prop.
Hypothesis HI : calls_stable H I.

Lemma now_quiet : holds I (now H) (fun _ s => I s).
Proof. apply holds_run. intros s. apply HI. Qed.

Lemma query_quiet (q : Query) : holds I (query H q) (fun _ s => I s).
Proof. apply holds_run. intros s. apply HI. Qed.

Lemma push_step_quiet (st : ExecutionStep) :
  holds I (modify (push_step st)) (fun _ s => I s).
Proof. apply holds_run. intros s. apply HI. Qed.

Lemma push_message_quiet (m : LLMClient.Message) :
  holds I (modify (push_message m)) (fun _ s => I s).
Proof. apply holds_run. intros s. apply HI. Qed.

Lemma observe_quiet (toolName : string) (args : value) :
  holds I (observe H toolName args) (fun _ s => I s).
Proof.
  apply holds_run. intros s Hs.
  unfold observe, try_catch, bind, ret.
  pose proof (kept_by_invoke H I HI toolName args s Hs) as Hnext.
  destruct (invoke H toolName args s) as [[result | e] s1]; exact Hnext.
Qed.

Ltac quiet_step :=
  first
    [ apply now_quiet
    | apply push_step_quiet
    | apply push_message_quiet
    | apply query_quiet
    | apply observe_quiet ].

Ltac quiet_walk :=
  repeat (apply holds_then; [quiet_step | intro]).

Lemma processToolCall_quiet (executionId : string)
  (response : LLMClient.LLMResponse) (toolCall : LLMClient.ToolCall) :
  holds I (processToolCall H executionId response toolCall) (fun _ s => I s).
Proof.
  unfold processToolCall, logStep.
  apply holds_read. intros s0.
  quiet_walk. quiet_step.
Qed.

Lemma tool_calls_quiet (executionId : string)
  (response : LLMClient.LLMResponse) (calls : list LLMClient.ToolCall) :
  holds I (for_of calls (processToolCall H executionId response)) (fun _ s => I s).
Proof.
  apply holds_for_of. intros toolCall. apply processToolCall_quiet.
Qed.

End Quiet.

(** *** From the loop to the whole execution *)

Section Around.

Variable H : Host.
Variable agentConfig : AgentConfig.
Variable I : State -> Prop.
Hypothesis HA : around_stable H I.

Lemma conclude_quiet (userId executionId : string) (startTime : Z) :
  holds I (conclude H agentConfig userId executionId startTime) (fun _ s => I s).
Proof.
  unfold conclude.
  apply holds_look. intros s0.
  apply holds_pass.
  { intros s Hs. destruct (_ && _); [| exact Hs].
    unfold bind, modify. simpl. now repeat apply HA. }
  { auto. }
  intros _.
  apply holds_pass; [apply HA | auto | intros t].
  apply holds_look. intros s1.
  apply holds_pass; [apply HA | auto | intros _].
  apply holds_pass; [apply HA | auto | intros _].
  apply holds_run. auto.
Qed.

Lemma catch_block_quiet (executionId : string) (startTime : Z) (message : string) :
  holds I (catch_block H executionId startTime message) (fun _ s => I s).
Proof.
  unfold catch_block.
  apply holds_pass; [apply HA | auto | intros t].
  apply holds_pass; [apply HA | auto | intros _].
  apply holds_look. intros s0. apply holds_run. auto.
Qed.

Hypothesis I_loop :
  forall fuel executionId startTime tools,
    holds I (while_loop H fuel agentConfig executionId startTime tools)
      (fun _ s => I s).

Lemma try_block_quiet (input userId executionId : string) (startTime : Z) :
  holds I (try_block H agentConfig input userId executionId startTime)
    (fun _ s => I s).
Proof.
  unfold try_block.
  apply holds_pass; [apply HA | auto | intros _].
  apply holds_pass; [intros s Hs; exact Hs | auto | intros prompt].
  apply holds_pass; [intros s; apply HA | auto | intros _].
  apply holds_pass; [intros s Hs; exact Hs | auto | intros tools].
  apply holds_then; [apply I_loop | intros _].
  apply conclude_quiet.
Qed.

Lemma execute_quiet (input userId : string) :
  holds I (execute H agentConfig input userId) (fun _ s => I s).
Proof.
  unfold execute.
  apply holds_pass; [apply HA | auto | intros startTime].
  eapply holds_try_catch with (R := fun _ => I).
  - eapply holds_weaken; [apply try_block_quiet | auto |]. intros [? | ?]; auto.
  - intros e. apply catch_block_quiet.
Qed.

Lemma run_quiet (input userId : string) :
  I initial_state -> I (snd (run H agentConfig input userId)).
Proof.
  intros Hinit. unfold run.
  destruct (execute H agentConfig input userId initial_state) as [out s] eqn:E.
  exact (execute_quiet input userId initial_state out s E Hinit).
Qed.

End Around.

Lemma answer_quiet (H : Host) (I : State -> Prop) (executionId : string)
  (response : LLMClient.LLMResponse) :
  execution_stable H I ->
  holds I (answer H executionId response) (fun _ s => I s).
Proof.
  intros [HC HA]. unfold answer, logStep.
  apply holds_look. intros s0.
  apply holds_pass; [apply HA | auto | intros _].
  apply holds_pass; [apply HC | auto | intros t].
  apply holds_pass; [apply HC | auto | intros _].
  apply holds_pass; [apply HC | auto | intros _].
  apply holds_run. auto.
Qed.

(** The loop keeps what every pass keeps, and what is thrown out of a
    pass is thrown out of the loop. *)
Lemma while_loop_exits (H : Host) (agentConfig : AgentConfig)
  (I J : State -> Prop) (executionId : string) (startTime : Z)
  (tools : list value) :
  holds (fun s => I s /\ iteration (vars s) < maxIterations agentConfig)
    (loop_body H agentConfig executionId startTime tools)
    (fun out s => match out with Ok _ => I s | Throw _ => J s end) ->
  forall fuel,
    holds I (while_loop H fuel agentConfig executionId startTime tools)
      (fun out s => match out with Ok _ => I s | Throw _ => J s end).
Proof.
  intros Hpass fuel.
  induction fuel as [| fuel IH]; simpl.
  - apply holds_run. auto.
  - apply holds_get. intros s0.
    destruct (Z.ltb _ _) eqn:Htest.
    + apply Z.ltb_lt in Htest.
      eapply holds_bind with (R := fun _ => I).
      * eapply holds_weaken; [apply Hpass | |].
        -- intros s [Hs ->]. auto.
        -- intros [? | ?]; auto.
      * intros [|]; [apply holds_run; auto | exact IH].
    + apply holds_run. intros s [Hs _]. exact Hs.
Qed.

(** The loop keeps what every pass keeps. *)
Lemma while_loop_quiet (H : Host) (agentConfig : AgentConfig) (I : State -> Prop)
  (executionId : string) (startTime : Z) (tools : list value) :
  holds (fun s => I s /\ iteration (vars s) < maxIterations agentConfig)
    (loop_body H agentConfig executionId startTime tools) (fun _ s => I s) ->
  forall fuel,
    holds I (while_loop H fuel agentConfig executionId startTime tools)
      (fun _ s => I s).
Proof.
  intros Hpass fuel.
  eapply holds_weaken;
    [apply while_loop_exits with (I := I) (J := I) | auto |].
  - eapply holds_weaken; [exact Hpass | auto |]. intros [? | ?]; auto.
  - intros [? | ?]; auto.
Qed.

(** *** The bound on the calls of the gateway *)

Lemma calls_within_passes_stable (H : Host) (agentConfig : AgentConfig) :
  execution_stable H (calls_within_passes agentConfig).
Proof.
  split; split; intros; assumption.
Qed.

Lemma loop_body_calls_within_passes (H : Host) (agentConfig : AgentConfig)
  (executionId : string) (startTime : Z) (tools : list value) :
  holds (fun s => calls_within_passes agentConfig s
                  /\ iteration (vars s) < maxIterations agentConfig)
    (loop_body H agentConfig executionId startTime tools)
    (fun _ s => calls_within_passes agentConfig s).
Proof.
  pose proof (calls_within_passes_stable H agentConfig) as HE.
  pose proof (kept_by_calls H _ HE) as HC.
  set (early := fun s : State =>
         Z.of_nat (chats (world s)) + 1 <= iteration (vars s)
         /\ iteration (vars s) <= Z.max 0 (maxIterations agentConfig)).
  assert (Hearly : forall s, early s -> calls_within_passes agentConfig s).
  { intros s [H1 H2]. split; [lia | exact H2]. }
  unfold loop_body.
  eapply holds_bind with (R := fun _ => early).
  { apply holds_run. intros s [[H1 H2] H3]. unfold early. simpl. lia. }
  intros _.
  apply holds_pass; [intros s Hs; exact Hs | auto | intros t].
  destruct (Z.ltb _ _).
  - apply holds_run. intros s Hs. apply Hearly. exact Hs.
  - apply holds_look. intros s0.
    eapply holds_bind with (R := fun _ => calls_within_passes agentConfig).
    { apply holds_run. intros s [H1 H2].
      assert (Hnext : calls_within_passes agentConfig (snd (chat H (messages (vars s0))
                 {| LLMClient.model := Some (model agentConfig);
                    LLMClient.tools := Some tools;
                    LLMClient.temperature := None;
                    LLMClient.maxTokens := None |} s))).
      { split; simpl; [lia | exact H2]. }
      destruct (fst _); exact Hnext. }
    intros response.
    apply holds_pass; [intros s Hs; exact Hs | auto | intros _].
    destruct (no_tool_calls response).
    + now apply answer_quiet.
    + apply holds_then; [now apply tool_calls_quiet | intros _].
      apply holds_run. auto.
Qed.

(** X8. Whatever the outcome, [execute] has called the gateway at most
    [maxIterations] times, and not at all when [maxIterations] is not
    positive. *)
Theorem gateway_calls_bounded (H : Host) (agentConfig : AgentConfig)
  (input userId : string) :
  (chats (world (snd (run H agentConfig input userId)))
   <= Z.to_nat (maxIterations agentConfig))%nat.
Proof.
  assert (Hend : calls_within_passes agentConfig
                   (snd (run H agentConfig input userId))).
  { apply run_quiet.
    - apply calls_within_passes_stable.
    - intros fuel executionId startTime tools.
      apply while_loop_quiet. apply loop_body_calls_within_passes.
    - split; simpl; lia. }
  destruct Hend as [H1 H2]. lia.
Qed.

(** The result carries the steps held by the variables. *)
Lemma run_carries (H : Host) (agentConfig : AgentConfig) (input userId : string)
  (r : ExecutionResult) (s : State) :
  run H agentConfig input userId = (Ok r, s) -> carries r (vars s).
Proof.
  intros E.
  destruct (ReActEngineFacts.execute_invariant H agentConfig (fun _ => True)
              (fun _ _ _ => I) (fun _ _ _ => I) (fun _ _ _ => I)
              (fun fuel executionId startTime tools s0 out s1 _ _ => I)
              input userId initial_state (Ok r) s E I) as [_ Hcarries].
  exact (Hcarries r eq_refl).
Qed.

(** *** The tools invoked *)

Section Invocations.

Variable H : Host.

Lemma requested_push (st : ExecutionStep) (steps : list ExecutionStep) :
  requested (steps ++ [st])
  = requested steps ++ match action st with Some call => [call] | None => [] end.
Proof.
  unfold requested. rewrite flat_map_app. simpl. now rewrite app_nil_r.
Qed.

Lemma invoked_pending (s : State) : invoked s -> invoked_or_pending s.
Proof.
  intros Hs. exists []. split; [| simpl; lia].
  rewrite app_nil_r. symmetry. exact Hs.
Qed.

Lemma invoked_but_pending (call : string * value) (s : State) :
  invoked_but call s -> invoked_or_pending s.
Proof.
  intros Hs. exists [call]. split; [| simpl; lia].
  symmetry. exact Hs.
Qed.

Let exits : forall {A}, Result A -> State -> Prop :=
  fun A out s => match out with Ok _ => invoked s | Throw _ => invoked_or_pending s end.

(** Pushing a step that records no action. *)
Lemma push_plain_step (st : ExecutionStep) (s : State) :
  action st = None -> invoked s -> invoked (snd (modify (push_step st) s)).
Proof.
  intros Hplain Hs. unfold invoked in *. simpl.
  rewrite requested_push, Hplain, app_nil_r. exact Hs.
Qed.

Lemma processToolCall_invoked (executionId : string)
  (response : LLMClient.LLMResponse) (toolCall : LLMClient.ToolCall) :
  holds invoked (processToolCall H executionId response toolCall) exits.
Proof.
  unfold processToolCall, logStep.
  set (call := (LLMClient.toolName toolCall, LLMClient.arguments toolCall)).
  assert (Hthrow : forall (e : string) s, invoked s -> @exits unit (Throw e) s)
    by (intros e s; apply invoked_pending).
  apply holds_look. intros s0.
  apply holds_pass; [intros s Hs; exact Hs | exact Hthrow | intros t1].
  apply holds_pass; [intros s; now apply push_plain_step | exact Hthrow | intros _].
  apply holds_pass; [intros s Hs; exact Hs | exact Hthrow | intros _].
  apply holds_pass; [intros s Hs; exact Hs | exact Hthrow | intros t2].
  eapply holds_bind with (R := fun _ => invoked_but call).
  { apply holds_run. intros s Hs. unfold invoked, invoked_but in *. simpl.
    rewrite requested_push. simpl. now rewrite Hs. }
  intros _.
  eapply holds_bind with (R := fun _ => invoked_but call).
  { apply holds_run. intros s Hs.
    assert (Hnext : invoked_but call (snd (query H
              (insert_execution_log executionId (iteration (vars s0)) Action None
                 (Some (JSON_stringify (JSON H)
                          (VObj [("tool", VStr (LLMClient.toolName toolCall));
                                 ("arguments", LLMClient.arguments toolCall)])))) s)))
      by exact Hs.
    destruct (fst _); [exact Hnext | now apply invoked_but_pending in Hnext]. }
  intros _.
  eapply holds_bind with (R := fun _ => invoked).
  { apply holds_run. intros s Hs.
    assert (Hnext : invoked (snd (observe H (LLMClient.toolName toolCall)
                                    (LLMClient.arguments toolCall) s))).
    { rewrite observe_state. unfold invoked, invoked_but in *. simpl.
      exact Hs. }
    destruct (fst _); [exact Hnext | now apply invoked_pending]. }
  intros text.
  apply holds_pass; [intros s Hs; exact Hs | exact Hthrow | intros t3].
  apply holds_pass; [intros s; now apply push_plain_step | exact Hthrow | intros _].
  apply holds_pass; [intros s Hs; exact Hs | exact Hthrow | intros _].
  apply holds_pass; [intros s Hs; exact Hs | exact Hthrow | intros _].
  apply holds_run. intros s Hs. exact Hs.
Qed.

Lemma tool_calls_invoked (executionId : string)
  (response : LLMClient.LLMResponse) (calls : list LLMClient.ToolCall) :
  holds invoked (for_of calls (processToolCall H executionId response)) exits.
Proof.
  induction calls as [| toolCall rest IH]; simpl.
  - apply holds_run. auto.
  - eapply holds_bind with (R := fun _ => invoked); [| intros _; exact IH].
    eapply holds_weaken; [apply processToolCall_invoked | auto |].
    intros [? | ?]; auto.
Qed.

Lemma loop_body_invoked (agentConfig : AgentConfig) (executionId : string)
  (startTime : Z) (tools : list value) :
  holds invoked (loop_body H agentConfig executionId startTime tools) exits.
Proof.
  assert (Hthrow : forall A (e : string) s, invoked s -> @exits A (Throw e) s)
    by (intros A e s; apply invoked_pending).
  unfold loop_body.
  apply holds_pass; [intros s Hs; exact Hs | apply Hthrow | intros _].
  apply holds_pass; [intros s Hs; exact Hs | apply Hthrow | intros t].
  destruct (Z.ltb _ _).
  - apply holds_pass; [intros s Hs; exact Hs | apply Hthrow | intros _].
    apply holds_pass; [intros s Hs; exact Hs | apply Hthrow | intros _].
    apply holds_run. auto.
  - apply holds_look. intros s0.
    apply holds_pass; [intros s Hs; exact Hs | apply Hthrow | intros response].
    apply holds_pass; [intros s Hs; exact Hs | apply Hthrow | intros _].
    destruct (no_tool_calls response).
    + unfold answer, logStep.
      apply holds_look. intros s1.
      apply holds_pass; [intros s Hs; exact Hs | apply Hthrow | intros _].
      apply holds_pass; [intros s Hs; exact Hs | apply Hthrow | intros t1].
      apply holds_pass;
        [intros s; now apply push_plain_step | apply Hthrow | intros _].
      apply holds_pass; [intros s Hs; exact Hs | apply Hthrow | intros _].
      apply holds_run. auto.
    + eapply holds_bind with (R := fun _ => invoked).
      * eapply holds_weaken; [apply tool_calls_invoked | auto |].
        intros [? | ?]; auto.
      * intros _. apply holds_run. auto.
Qed.

Lemma try_block_invoked (agentConfig : AgentConfig)
  (input userId executionId : string) (startTime : Z) :
  holds invoked (try_block H agentConfig input userId executionId startTime) exits.
Proof.
  assert (Hthrow : forall A (e : string) s, invoked s -> @exits A (Throw e) s)
    by (intros A e s; apply invoked_pending).
  unfold try_block.
  apply holds_pass; [intros s Hs; exact Hs | apply Hthrow | intros _].
  apply holds_pass; [intros s Hs; exact Hs | apply Hthrow | intros prompt].
  apply holds_pass; [intros s Hs; exact Hs | apply Hthrow | intros _].
  apply holds_pass; [intros s Hs; exact Hs | apply Hthrow | intros tools].
  eapply holds_bind with (R := fun _ => invoked).
  { eapply holds_weaken;
      [apply while_loop_exits with (I := invoked) (J := invoked_or_pending) | auto |].
    - eapply holds_weaken;
        [apply loop_body_invoked | intros s [Hs _]; exact Hs | auto].
    - intros [? | ?]; auto. }
  intros _. unfold conclude.
  apply holds_look. intros s0.
  apply holds_pass.
  { intros s Hs. destruct (_ && _); exact Hs. }
  { apply Hthrow. }
  intros _.
  apply holds_pass; [intros s Hs; exact Hs | apply Hthrow | intros t].
  apply holds_look. intros s1.
  apply holds_pass; [intros s Hs; exact Hs | apply Hthrow | intros _].
  apply holds_pass; [intros s Hs; exact Hs | apply Hthrow | intros _].
  apply holds_run. auto.
Qed.

Lemma catch_block_invoked (executionId : string) (startTime : Z) (message : string) :
  holds invoked_or_pending (catch_block H executionId startTime message)
    (fun _ s => invoked_or_pending s).
Proof.
  unfold catch_block.
  apply holds_pass; [intros s Hs; exact Hs | auto | intros t].
  apply holds_pass; [intros s Hs; exact Hs | auto | intros _].
  apply holds_look. intros s0. apply holds_run. auto.
Qed.

End Invocations.

(** X9. The executor is invoked for the actions recorded in the steps,
    in their order and with their arguments, and for nothing else.  At
    most the last action recorded has not been invoked, and none when
    the result carries no error. *)
Theorem tools_invoked_as_recorded (H : Host) (agentConfig : AgentConfig)
  (input userId : string) (r : ExecutionResult) (s : State) :
  run H agentConfig input userId = (Ok r, s) ->
  exists pending,
    requested (steps r) = invocations (world s) ++ pending
    /\ (List.length pending <= 1)%nat
    /\ (error r = None -> pending = []).
Proof.
  intros Hrun.
  destruct (run_carries H agentConfig input userId r s Hrun) as (-> & _).
  unfold run, execute in Hrun.
  unfold bind at 1, now at 1 in Hrun. cbn in Hrun.
  unfold try_catch in Hrun.
  match type of Hrun with
  | context [try_block H agentConfig input userId (uuidv4 H) ?t ?s0] =>
      pose proof (try_block_invoked H agentConfig input userId (uuidv4 H) t
                    s0) as Htry;
      destruct (try_block H agentConfig input userId (uuidv4 H) t s0)
        as [[r0 | e] s1] eqn:Etry
  end.
  - injection Hrun as <- <-.
    specialize (Htry _ _ eq_refl eq_refl). cbn in Htry.
    exists []. rewrite app_nil_r. repeat split; [symmetry; exact Htry | simpl; lia].
  - specialize (Htry _ _ eq_refl eq_refl). cbn in Htry.
    pose proof (catch_block_invoked H _ _ e s1 _ _ Hrun Htry)
      as (pending & Hreq & Hlen).
    exists pending. repeat split; [exact Hreq | exact Hlen |].
    intros Herr.
    unfold catch_block, bind, now, query, get, ret in Hrun. cbn in Hrun.
    destruct (db_query H _ _); [discriminate Hrun|].
    injection Hrun as <- _. discriminate Herr.
Qed.

Lemma tools_invoked_as_recorded_witness :
  exists r s,
    run Samples.action_log_rejected_host (Samples.agent "gpt-4" 5 300 [])
      "What is 6 x 7?" "user-1" = (Ok r, s)
    /\ requested (steps r) = [("web_search", VObj [])]
    /\ invocations (world s) = []
    /\ exists pending,
         requested (steps r) = invocations (world s) ++ pending
         /\ (List.length pending <= 1)%nat
         /\ (error r = None -> pending = []).
Proof.
  eexists. eexists. split; [vm_compute; reflexivity|].
  split; [reflexivity|]. split; [reflexivity|].
  eapply (tools_invoked_as_recorded Samples.action_log_rejected_host
           (Samples.agent "gpt-4" 5 300 []) "What is 6 x 7?" "user-1").
  vm_compute. reflexivity.
Defined.

(** *** The result, status by status *)

Section Outcomes.

Variable H : Host.
Variable agentConfig : AgentConfig.

Lemma loop_body_leaves (executionId : string) (startTime : Z)
  (tools : list value) (n : Z) :
  holds (fun s => searching s /\ iteration (vars s) = n)
    (loop_body H agentConfig executionId startTime tools)
    (fun out s =>
       match out with
       | Ok Break => left agentConfig s
       | Ok Continue => searching s /\ iteration (vars s) = n + 1
       | Throw _ => True
       end).
Proof.
  set (begun := fun s : State =>
         cur_status (vars s) = Success /\ 0 <= n /\ iteration (vars s) = n + 1).
  assert (Hbegun : calls_stable H begun) by (split; intros; assumption).
  unfold loop_body.
  eapply holds_bind with (R := fun _ => begun).
  { apply holds_run. intros s [[Hstatus Hpos] Hn]. unfold begun. simpl.
    repeat split; [exact Hstatus | lia | lia]. }
  intros _.
  apply holds_pass; [intros s Hs; exact Hs | auto | intros t].
  destruct (Z.ltb _ _).
  - apply holds_run. intros s _. right. split; reflexivity.
  - apply holds_look. intros s0.
    apply holds_pass; [intros s Hs; exact Hs | auto | intros response].
    apply holds_pass; [intros s Hs; exact Hs | auto | intros _].
    destruct (no_tool_calls response).
    + unfold answer, logStep. apply holds_run. intros s (Hstatus & Hpos & Hn).
      unfold bind, get, modify, now, query, ret. cbn.
      destruct (db_query H _ _); cbn; [exact I|].
      left. split; [exact Hstatus|]. right. split; [| simpl; lia].
      unfold answered. simpl. eexists. eexists. reflexivity.
    + eapply holds_bind with (R := fun _ => begun).
      * eapply holds_weaken; [apply (tool_calls_quiet H begun Hbegun) | auto |].
        intros [? | ?]; auto.
      * intros _. apply holds_run. intros s (Hstatus & Hpos & Hn).
        repeat split; [exact Hstatus | simpl; lia | exact Hn].
Qed.

Lemma while_loop_leaves (executionId : string) (startTime : Z)
  (tools : list value) (fuel : nat) :
  holds (fun s => searching s
                  /\ maxIterations agentConfig - iteration (vars s) <= Z.of_nat fuel)
    (while_loop H fuel agentConfig executionId startTime tools)
    (fun out s => match out with Ok _ => left agentConfig s | Throw _ => True end).
Proof.
  induction fuel as [| fuel IH]; simpl while_loop.
  - apply holds_run. intros s [[Hstatus Hpos] Hfuel].
    left. split; [exact Hstatus|]. left. simpl. lia.
  - apply holds_from. intros s0 [[Hstatus Hpos] Hfuel].
    destruct (Z.ltb _ _) eqn:Htest.
    + eapply holds_bind
        with (R := fun control s =>
                     match control with
                     | Break => left agentConfig s
                     | Continue => searching s
                                   /\ iteration (vars s) = iteration (vars s0) + 1
                     end).
      * eapply holds_weaken;
          [apply loop_body_leaves with (n := iteration (vars s0)) | |].
        -- intros s ->. repeat split; assumption.
        -- intros [[|] | e] s Hs; auto.
      * intros [|]; [apply holds_run; auto|].
        eapply holds_weaken; [exact IH | | auto].
        intros s [Hs Hn]. split; [exact Hs | lia].
    + apply Z.ltb_ge in Htest.
      apply holds_run. intros s ->.
      left. split; [exact Hstatus|]. left. exact Htest.
Qed.

(** The code after the loop gives each way out its status. *)
Lemma conclude_shaped (userId executionId : string) (startTime : Z) :
  holds (left agentConfig)
    (conclude H agentConfig userId executionId startTime)
    (fun out s => forall r, out = Ok r -> shaped agentConfig r).
Proof.
  apply holds_run. intros s Hs r.
  unfold conclude, bind, get, modify, now, query, ret. cbn.
  destruct Hs as [[Hstatus Hway] | [Hstatus Hanswer]]; rewrite Hstatus; cbn.
  - rewrite andb_true_r.
    destruct (Z.leb _ _) eqn:Htest; cbn;
      (destruct (db_query H _ _); cbn; [intros E; discriminate E|]);
      (destruct (db_query H _ _); cbn; [intros E; discriminate E|]);
      intros E; injection E as <-; unfold shaped; cbn.
    + split; reflexivity.
    + rewrite Hstatus. split; [reflexivity|].
      apply Z.leb_gt in Htest.
      destruct Hway as [Hused | [(before & t & Hsteps) Hpos]]; [lia|].
      exists before, (iteration (vars s)), t. split; [exact Hsteps | lia].
  - rewrite andb_false_r. cbn.
    (destruct (db_query H _ _); cbn; [intros E; discriminate E|]);
      (destruct (db_query H _ _); cbn; [intros E; discriminate E|]).
    intros E. injection E as <-. unfold shaped. cbn. rewrite Hstatus.
    split; [reflexivity | exact Hanswer].
Qed.

Lemma try_block_shaped (input userId executionId : string) (startTime : Z) :
  holds (fun s => searching s /\ iteration (vars s) = 0)
    (try_block H agentConfig input userId executionId startTime)
    (fun out s => forall r, out = Ok r -> shaped agentConfig r).
Proof.
  unfold try_block.
  apply holds_pass;
    [intros s Hs; exact Hs | intros e s _ r E; discriminate E | intros _].
  apply holds_pass;
    [intros s Hs; exact Hs | intros e s _ r E; discriminate E | intros prompt].
  apply holds_pass;
    [intros s Hs; exact Hs | intros e s _ r E; discriminate E | intros _].
  apply holds_pass;
    [intros s Hs; exact Hs | intros e s _ r E; discriminate E | intros tools].
  eapply holds_bind with (R := fun _ => left agentConfig).
  - eapply holds_weaken; [apply while_loop_leaves | |].
    + intros s [Hs Hzero]. split; [exact Hs | lia].
    + intros [[] | e] s Hs; [exact Hs|]. intros r E. discriminate E.
  - intros _. apply conclude_shaped.
Qed.

Lemma catch_block_shaped (executionId : string) (startTime : Z) (message : string) :
  holds (fun _ => True) (catch_block H executionId startTime message)
    (fun out s => forall r, out = Ok r -> shaped agentConfig r).
Proof.
  apply holds_run. intros s _ r.
  unfold catch_block, bind, get, now, query, ret. cbn.
  destruct (db_query H _ _); cbn; intros E; [discriminate E|].
  injection E as <-. unfold shaped. cbn. eauto.
Qed.

End Outcomes.

(** X10. What a result holds, status by status: a success ends with
    the final step of a pass before the last one allowed, whose text
    is the output; a timeout and an exhaustion carry their fixed
    texts; an error carries its message and an empty output. *)
Theorem result_by_status (H : Host) (agentConfig : AgentConfig)
  (input userId : string) (r : ExecutionResult) (s : State) :
  run H agentConfig input userId = (Ok r, s) ->
  shaped agentConfig r.
Proof.
  intros Hrun. unfold run, execute in Hrun.
  unfold bind at 1, now at 1 in Hrun. cbn in Hrun.
  unfold try_catch in Hrun.
  match type of Hrun with
  | context [try_block H agentConfig input userId (uuidv4 H) ?t ?s0] =>
      pose proof (try_block_shaped H agentConfig input userId (uuidv4 H) t
                    s0) as Htry;
      destruct (try_block H agentConfig input userId (uuidv4 H) t s0)
        as [[r0 | e] s1] eqn:Etry
  end.
  - injection Hrun as <- <-.
    apply (Htry _ _ eq_refl); [| reflexivity].
    repeat split; simpl; lia.
  - exact (catch_block_shaped H agentConfig _ _ e s1 _ _ Hrun I r eq_refl).
Qed.

Lemma result_by_status_witness :
  exists r s,
    run Samples.throwing_tool_host (Samples.agent "gpt-4" 5 300 [])
      "What is 6 x 7?" "user-1" = (Ok r, s)
    /\ status r = Success
    /\ shaped (Samples.agent "gpt-4" 5 300 []) r.
Proof.
  eexists. eexists. split; [vm_compute; reflexivity|].
  split; [reflexivity|].
  eapply (result_by_status Samples.throwing_tool_host
           (Samples.agent "gpt-4" 5 300 []) "What is 6 x 7?" "user-1").
  vm_compute. reflexivity.
Defined.

(** *** A model that never answers *)

Section Exhaustion.

Variable H : Host.
Variable agentConfig : AgentConfig.
Variable executionId : string.
Variable tools : list value.

Hypothesis Hlogs : accepts_step_logs H.
Hypothesis Hcalls : always_calls_tools H agentConfig tools.
Hypothesis Hbudget : within_budget H agentConfig.

(** A pass that goes on has called the gateway once. *)
Lemma loop_body_counts (startTime : Z) (c : nat) :
  holds (fun s => chats (world s) = c)
    (loop_body H agentConfig executionId startTime tools)
    (fun out s => match out with
                  | Ok Continue => chats (world s) = S c
                  | _ => True
                  end).
Proof.
  set (called := fun s : State => chats (world s) = S c).
  assert (Hcalled : calls_stable H called) by (split; intros; assumption).
  unfold loop_body.
  apply holds_pass; [intros s Hs; exact Hs | auto | intros _].
  apply holds_pass; [intros s Hs; exact Hs | auto | intros t].
  destruct (Z.ltb _ _).
  - apply holds_run. intros s _. exact I.
  - apply holds_look. intros s0.
    eapply holds_bind with (R := fun _ => called).
    { apply holds_run. intros s Hs.
      destruct (fst _); [| exact I]. unfold called. simpl. now rewrite Hs. }
    intros response.
    apply holds_pass; [intros s Hs; exact Hs | auto | intros _].
    destruct (no_tool_calls response).
    + apply holds_run. intros s _.
      destruct (answer H executionId response s) as [[[|] | e] s1] eqn:E;
        simpl; try exact I.
      exfalso. revert E. unfold answer, bind, get, modify, now, logStep, query, ret.
      cbn. destruct (db_query H _ _); discriminate.
    + eapply holds_bind with (R := fun _ => called).
      * eapply holds_weaken; [apply (tool_calls_quiet H called Hcalled) | auto |].
        intros [? | ?]; auto.
      * intros _. apply holds_run. auto.
Qed.

Lemma tool_call_steps_no_final (n : Z) (response : LLMClient.LLMResponse)
  (calls : list LLMClient.ToolCall) (groups : list (list ExecutionStep)) :
  Forall2 (tool_call_steps H n response) calls groups -> no_final (concat groups).
Proof.
  intros Hgroups. unfold no_final.
  induction Hgroups as [| toolCall group calls rest Hgroup _ IH]; simpl;
    [constructor|].
  apply Forall_app. split; [| exact IH].
  destruct Hgroup. repeat constructor; simpl; discriminate.
Qed.

(** The loop runs until the passes are used up. *)
Lemma while_loop_exhausts (fuel : nat) (s : State) :
  cur_status (vars s) = Success ->
  no_final (cur_steps (vars s)) ->
  maxIterations agentConfig - iteration (vars s) <= Z.of_nat fuel ->
  exists s',
    while_loop H fuel agentConfig executionId (Date_now H 0) tools s = (Ok tt, s')
    /\ cur_status (vars s') = Success
    /\ no_final (cur_steps (vars s'))
    /\ maxIterations agentConfig <= iteration (vars s')
    /\ Z.of_nat (chats (world s'))
       = Z.of_nat (chats (world s))
         + Z.max 0 (maxIterations agentConfig - iteration (vars s)).
Proof.
  revert s. induction fuel as [| fuel IH]; intros s Hstatus Hsteps Hfuel.
  - exists s. simpl. repeat split; try assumption; lia.
  - simpl while_loop. unfold bind at 1, get at 1.
    destruct (Z.ltb _ _) eqn:Htest.
    + apply Z.ltb_lt in Htest.
      assert (Hlate : timed_out H agentConfig (Date_now H 0) s = false).
      { unfold timed_out. apply Z.ltb_ge. apply Hbudget. }
      destruct (Hcalls (chats (world s)) (messages (vars s)))
        as (response & Hanswer & Hasks).
      destruct (ReActEngineFacts.loop_body_calls_tools H agentConfig executionId
                  (Date_now H 0) tools Hlogs s response Hlate Hanswer Hasks)
        as (s1 & Hbody & Heff).
      pose proof (loop_body_counts (Date_now H 0) (chats (world s)) s _ s1
                    Hbody eq_refl) as Hcount.
      simpl in Hcount.
      destruct Heff as [(groups & Hpushed & Hgroups) Hit _ _ Hst _].
      simpl in Hpushed, Hit, Hst.
      unfold bind at 1. rewrite Hbody.
      destruct (IH s1) as (s' & Hrun & Hstatus' & Hsteps' & Hused & Hchats).
      * now rewrite Hst.
      * rewrite Hpushed. apply Forall_app. split; [exact Hsteps|].
        now apply (tool_call_steps_no_final (iteration (vars s) + 1) response
                     (tool_calls_of response)).
      * lia.
      * exists s'. repeat split; try assumption. lia.
    + apply Z.ltb_ge in Htest.
      exists s. unfold ret. repeat split; try assumption; lia.
Qed.

End Exhaustion.



(** *** The observations of the shipped executor *)

Section Shipped.

Variable H : Host.
Variable P : ToolExecutor.Platform.
Hypothesis Hshipped : shipped_executor H P.

Let observed (s : State) : Prop :=
  Forall (observes_result H P) (cur_steps (vars s)).

Lemma push_other_step (st : ExecutionStep) (s : State) :
  stepType st <> Observation ->
  observed s -> observed (snd (modify (push_step st) s)).
Proof.
  intros Hother Hs. unfold observed in *. simpl.
  apply Forall_app. split; [exact Hs|].
  constructor; [| constructor]. intros Hst. now contradiction Hother.
Qed.

(** With the shipped executor the [catch] around the invocation is
    never entered. *)
Lemma observe_shipped (toolName : string) (args : value) (s : State) :
  exists result,
    ToolExecutor.execute P toolName args = Ok result
    /\ fst (observe H toolName args s)
       = Ok (JSON_stringify (JSON H) (ToolResult_value result)).
Proof.
  unfold observe, try_catch, bind, invoke, ret. simpl.
  rewrite Hshipped.
  unfold ToolExecutor.execute.
  match goal with |- context [ResultMonad.try_catch ?m ?h] =>
    destruct (ToolExecutorFacts.try_catch_failure_total m) as [result Hresult]
  end.
  exists result. rewrite Hresult. split; reflexivity.
Qed.

Lemma processToolCall_observed (executionId : string)
  (response : LLMClient.LLMResponse) (toolCall : LLMClient.ToolCall) :
  holds observed (processToolCall H executionId response toolCall)
    (fun _ s => observed s).
Proof.
  unfold processToolCall, logStep.
  apply holds_look. intros s0.
  apply holds_pass; [intros s Hs; exact Hs | auto | intros t1].
  apply holds_pass;
    [intros s; apply push_other_step; discriminate | auto | intros _].
  apply holds_pass; [intros s Hs; exact Hs | auto | intros _].
  apply holds_pass; [intros s Hs; exact Hs | auto | intros t2].
  apply holds_pass;
    [intros s; apply push_other_step; discriminate | auto | intros _].
  apply holds_pass; [intros s Hs; exact Hs | auto | intros _].
  eapply holds_bind
    with (R := fun text s =>
                 observed s
                 /\ exists result,
                      ToolExecutor.execute P (LLMClient.toolName toolCall)
                        (LLMClient.arguments toolCall) = Ok result
                      /\ text = JSON_stringify (JSON H) (ToolResult_value result)).
  { apply holds_run. intros s Hs.
    destruct (observe_shipped (LLMClient.toolName toolCall)
                (LLMClient.arguments toolCall) s) as (result & Hresult & Htext).
    rewrite Htext. split.
    - rewrite observe_state. exact Hs.
    - exists result. split; [exact Hresult | reflexivity]. }
  intros text.
  apply holds_pass; [intros s Hs; exact Hs | intros e s [Hs _]; exact Hs | intros t3].
  eapply holds_bind with (R := fun _ => observed).
  { apply holds_run. intros s [Hs (result & Hresult & ->)].
    assert (Hnext : observed (snd (modify (push_step
              {| stepNumber := iteration (vars s0); stepType := Observation;
                 reasoning := None; action := None;
                 observation := Some (JSON_stringify (JSON H)
                                        (ToolResult_value result));
                 timestamp := t3 |}) s))).
    { unfold observed in *. simpl. apply Forall_app. split; [exact Hs|].
      constructor; [| constructor]. intros _.
      exists (LLMClient.toolName toolCall), (LLMClient.arguments toolCall), result.
      split; [exact Hresult | reflexivity]. }
    exact Hnext. }
  intros _.
  apply holds_pass; [intros s Hs; exact Hs | auto | intros _].
  apply holds_pass; [intros s Hs; exact Hs | auto | intros _].
  apply holds_run. intros s Hs. exact Hs.
Qed.

Lemma loop_body_observed (agentConfig : AgentConfig) (executionId : string)
  (startTime : Z) (tools : list value) :
  holds observed (loop_body H agentConfig executionId startTime tools)
    (fun _ s => observed s).
Proof.
  unfold loop_body.
  apply holds_pass; [intros s Hs; exact Hs | auto | intros _].
  apply holds_pass; [intros s Hs; exact Hs | auto | intros t].
  destruct (Z.ltb _ _).
  - apply holds_pass; [intros s Hs; exact Hs | auto | intros _].
    apply holds_pass; [intros s Hs; exact Hs | auto | intros _].
    apply holds_run. auto.
  - apply holds_look. intros s0.
    apply holds_pass; [intros s Hs; exact Hs | auto | intros response].
    apply holds_pass; [intros s Hs; exact Hs | auto | intros _].
    destruct (no_tool_calls response).
    + unfold answer, logStep.
      apply holds_look. intros s1.
      apply holds_pass; [intros s Hs; exact Hs | auto | intros _].
      apply holds_pass; [intros s Hs; exact Hs | auto | intros t1].
      apply holds_pass;
        [intros s; apply push_other_step; discriminate | auto | intros _].
      apply holds_pass; [intros s Hs; exact Hs | auto | intros _].
      apply holds_run. auto.
    + apply holds_then; [| intros _; apply holds_run; auto].
      apply holds_for_of. intros toolCall. apply processToolCall_observed.
Qed.

Lemma run_observed (agentConfig : AgentConfig) (input userId : string) :
  observed (snd (run H agentConfig input userId)).
Proof.
  apply run_quiet.
  - split; intros; assumption.
  - intros fuel executionId startTime tools. apply while_loop_quiet.
    eapply holds_weaken;
      [apply loop_body_observed | intros s [Hs _]; exact Hs | auto].
  - constructor.
Qed.

End Shipped.

(** X12. With the executor that ships with the engine, every
    observation step holds the serialised [ToolResult] of an
    invocation: a tool that fails is observed as
    [{ success: false, error }], never as an ['Error: ...'] text. *)
Theorem observations_of_shipped_executor (H : Host) (P : ToolExecutor.Platform)
  (agentConfig : AgentConfig) (input userId : string)
  (r : ExecutionResult) (s : State) :
  shipped_executor H P ->
  run H agentConfig input userId = (Ok r, s) ->
  Forall (observes_result H P) (steps r).
Proof.
  intros Hshipped Hrun.
  destruct (run_carries H agentConfig input userId r s Hrun) as (-> & _).
  pose proof (run_observed H P Hshipped agentConfig input userId) as Hend.
  rewrite Hrun in Hend. exact Hend.
Qed.

Lemma observations_of_shipped_executor_witness :
  exists r s,
    run Scenarios.offline_host (Samples.agent "gpt-4" 5 300 [])
      "What is 6 x 7?" "user-1" = (Ok r, s)
    /\ map observation (filter (fun st => match stepType st with
                                          | Observation => true
                                          | _ => false
                                          end) (steps r))
       = [Some "{'success':false,'error':'fetch failed'}"]
    /\ Forall (observes_result Scenarios.offline_host Samples.unreachable_network)
         (steps r).
Proof.
  eexists. eexists. split; [vm_compute; reflexivity|].
  split; [reflexivity|].
  eapply (observations_of_shipped_executor Scenarios.offline_host
           Samples.unreachable_network (Samples.agent "gpt-4" 5 300 [])
           "What is 6 x 7?" "user-1").
  - intros k toolName args. reflexivity.
  - vm_compute. reflexivity.
Defined.

(** *** The construction of the system prompt *)

Lemma mapM_Ok_iff {A B} (f : A -> Result B) (xs : list A) :
  (exists ys, ResultMonad.mapM f xs = Ok ys)
  <-> Forall (fun x => exists y, f x = Ok y) xs.
Proof.
  induction xs as [| x rest IH]; simpl.
  - split; [constructor | eauto].
  - split.
    + intros [ys E]. destruct (f x) as [y | e] eqn:Ex; [| discriminate E].
      simpl in E. destruct (ResultMonad.mapM f rest) as [ys' | e] eqn:Erest;
        [| discriminate E].
      constructor; [eauto | apply IH; eauto].
    + intros Hall. inversion Hall as [| x' rest' [y Hy] Hrest]; subst.
      apply IH in Hrest. destruct Hrest as [ys Hys].
      rewrite Hy, Hys. simpl. eauto.
Qed.

Lemma get_prop_Ok_iff (o : value) (k : string) :
  (exists v, get_prop o k = Ok v) <-> Notions.nullish o = false.
Proof.
  destruct o; simpl; split; intros E; try reflexivity; eauto;
    first [discriminate E | destruct E as [v' E']; discriminate E'].
Qed.

Section Prompt.

Variable H : Host.

Local Open Scope result_scope.

(** The line of the prompt for one tool, as [buildSystemPrompt] maps
    it over the tools. *)
Let line (t : AttachedTool) : Result string :=
  parsed <- JSON_parse (JSON H) (schema t) ;;
  f <- get_prop parsed "function" ;;
  description <- get_prop f "description" ;;
  text <- to_string description ;;
  Ok ("- " ++ tool_name t ++ ": " ++ text)%string.

Lemma line_described (t : AttachedTool) :
  (exists d, line t = Ok d) <-> describable H t /\ description_converts H t.
Proof.
  unfold line, describable, description_converts.
  destruct (JSON_parse (JSON H) (schema t)) as [parsed | e]; simpl.
  - split.
    + intros [d E].
      destruct (get_prop parsed "function") as [f | e] eqn:Ef;
        [| discriminate E].
      simpl in E.
      destruct (get_prop f "description") as [description | e] eqn:Ed;
        [| discriminate E].
      simpl in E.
      destruct (to_string description) as [text | e] eqn:Etext;
        [| discriminate E].
      assert (Hparsed : Notions.nullish parsed = false)
        by (apply (get_prop_Ok_iff parsed "function"); eauto).
      split; exists parsed; (split; [reflexivity|]).
      * split; [exact Hparsed|].
        unfold Notions.prop. rewrite Ef.
        apply (get_prop_Ok_iff f "description"). eauto.
      * unfold Notions.prop. rewrite Ef, Ed.
        exact (JSFacts.to_string_Ok_shown description text Etext).
    + intros [(parsed' & E & Hparsed & Hf) (parsed'' & E' & Hshown)].
      injection E as <-. injection E' as <-.
      rewrite (ToolExecutorCases.get_prop_defined parsed "function" Hparsed).
      simpl.
      rewrite (ToolExecutorCases.get_prop_defined _ "description" Hf).
      simpl.
      destruct (JSFacts.to_string_shown _ Hshown) as [text ->]. simpl. eauto.
  - split; [intros [d E]; discriminate E|].
    intros [(parsed & E & _) _]. discriminate E.
Qed.

Lemma built_lines (basePrompt prompt : string) (attached : list AttachedTool) :
  buildSystemPrompt H basePrompt attached = Ok prompt ->
  Forall (fun t => describable H t /\ description_converts H t) attached.
Proof.
  unfold buildSystemPrompt. fold line. intros E.
  destruct (ResultMonad.mapM line attached) as [lines | e] eqn:Elines;
    [| discriminate E].
  assert (Hall : Forall (fun x => exists y, line x = Ok y) attached)
    by (apply mapM_Ok_iff; eauto).
  eapply Forall_impl; [| exact Hall].
  intros t. apply line_described.
Qed.

Lemma built_described (basePrompt prompt : string) (attached : list AttachedTool) :
  buildSystemPrompt H basePrompt attached = Ok prompt ->
  Forall (describable H) attached.
Proof.
  intros E. eapply Forall_impl; [| exact (built_lines basePrompt prompt attached E)].
  intros t [Ht _]. exact Ht.
Qed.

Lemma undescribed_thrown (basePrompt : string) (attached : list AttachedTool)
  (t : AttachedTool) :
  In t attached ->
  ~ describable H t ->
  exists e, buildSystemPrompt H basePrompt attached = Throw e.
Proof.
  intros Hin Hnot.
  destruct (buildSystemPrompt H basePrompt attached) as [prompt | e] eqn:E;
    [| eauto].
  exfalso. apply Hnot.
  pose proof (built_described basePrompt prompt attached E) as Hall.
  rewrite Forall_forall in Hall. now apply Hall.
Qed.

(** X13. The system prompt is built exactly when every attached tool
    can be described and its description can be converted to a string:
    there is no other way for [buildSystemPrompt] to throw.  A
    description that is missing does not make it throw; a description
    that hides [toString] does, its schema being JSON all the same. *)
Theorem prompt_built_iff (basePrompt : string) (attached : list AttachedTool) :
  (exists prompt, buildSystemPrompt H basePrompt attached = Ok prompt)
  <-> Forall (fun t => describable H t /\ description_converts H t) attached.
Proof.
  split.
  - intros [prompt E]. exact (built_lines basePrompt prompt attached E).
  - intros Hall. unfold buildSystemPrompt. fold line.
    assert (Hlines : exists lines, ResultMonad.mapM line attached = Ok lines).
    { apply mapM_Ok_iff. eapply Forall_impl; [| exact Hall].
      intros t. apply line_described. }
    destruct Hlines as [lines ->]. simpl. eauto.
Qed.

End Prompt.

(** A tool that can be described and whose description cannot be
    converted: the template literal throws. *)
Example prompt_hidden_description :
  describable Samples.answering_host Scenarios.opaque_tool
  /\ buildSystemPrompt Samples.answering_host "You are helpful."
       [Scenarios.opaque_tool]
     = Throw "Cannot convert object to primitive value".
Proof.
  split; [| reflexivity].
  eexists. split; [reflexivity|]. split; reflexivity.
Qed.





(** *** The order of time *)

Section Clock.

Variable H : Host.
Hypothesis Hclock : monotone_clock H.

Lemma stamped_later (s s' : State) :
  cur_steps (vars s') = cur_steps (vars s) ->
  (clock_reads (world s) <= clock_reads (world s'))%nat ->
  stamped H s -> stamped H s'.
Proof.
  intros Hsteps Hreads [Hsorted Hall]. unfold stamped. rewrite Hsteps.
  split; [exact Hsorted|].
  eapply Forall_impl; [| exact Hall].
  intros st (k & Hk & Hst). exists k. split; [lia | exact Hst].
Qed.

(** Reading the clock and pushing a step that carries the reading. *)
Lemma holds_stamp {B} (st : Z -> ExecutionStep) (k : unit -> M B)
  (Q : Result B -> State -> Prop) :
  (forall t, timestamp (st t) = t) ->
  holds (stamped H) (k tt) Q ->
  holds (stamped H)
    (bind (now H) (fun t => bind (modify (push_step (st t))) k)) Q.
Proof.
  intros Hst Hk s out s' E [Hsorted Hall].
  unfold bind at 1, now at 1 in E. unfold bind at 1, modify at 1 in E.
  apply (Hk _ out s' E).
  unfold stamped. simpl. split.
  - rewrite map_app. apply ReActEngineFacts.StronglySorted_app.
    + exact Hsorted.
    + simpl. repeat constructor.
    + intros x y Hx [<- | []]. rewrite Hst.
      apply in_map_iff in Hx. destruct Hx as (st0 & <- & Hin).
      rewrite Forall_forall in Hall.
      destruct (Hall st0 Hin) as (k0 & Hk0 & ->).
      apply Hclock. lia.
  - apply Forall_app. split.
    + eapply Forall_impl; [| exact Hall].
      intros st0 (k0 & Hk0 & Hst0). exists k0. split; [lia | exact Hst0].
    + constructor; [| constructor].
      exists (clock_reads (world s)). split; [lia | apply Hst].
Qed.

Ltac aside x :=
  apply holds_pass;
    [ intros s Hs; apply (stamped_later s); [reflexivity | simpl; lia | exact Hs]
    | auto | intros x ].

Lemma processToolCall_stamped (executionId : string)
  (response : LLMClient.LLMResponse) (toolCall : LLMClient.ToolCall) :
  holds (stamped H) (processToolCall H executionId response toolCall)
    (fun _ s => stamped H s).
Proof.
  unfold processToolCall, logStep.
  apply holds_look. intros s0.
  apply holds_stamp; [reflexivity|].
  aside logged1.
  apply holds_stamp; [reflexivity|].
  aside logged2.
  apply holds_pass.
  { intros s Hs. rewrite observe_state.
    apply (stamped_later s); [reflexivity | simpl; lia | exact Hs]. }
  { auto. }
  intros text.
  apply holds_stamp; [reflexivity|].
  aside logged3. aside pushed.
  apply holds_run. intros s Hs. exact Hs.
Qed.

Lemma loop_body_stamped (agentConfig : AgentConfig) (executionId : string)
  (startTime : Z) (tools : list value) :
  holds (stamped H) (loop_body H agentConfig executionId startTime tools)
    (fun _ s => stamped H s).
Proof.
  unfold loop_body.
  aside u0. aside t.
  destruct (Z.ltb _ _).
  - aside u1. aside u2. apply holds_run. auto.
  - apply holds_look. intros s0.
    aside reply. aside u3.
    destruct (no_tool_calls reply).
    + unfold answer, logStep.
      apply holds_look. intros s1.
      aside u1.
      apply holds_stamp; [reflexivity|].
      aside u2. apply holds_run. auto.
    + apply holds_then; [| intros _; apply holds_run; auto].
      apply holds_for_of. intros toolCall. apply processToolCall_stamped.
Qed.

Lemma stamped_chronological (r : ExecutionResult) (s : State) :
  stamped H s ->
  steps r = cur_steps (vars s) ->
  executionTimeMs r = Date_now H (clock_reads (world s)) - Date_now H 0 ->
  chronological H r.
Proof.
  intros [Hsorted Hall] Hsteps Htime. unfold chronological.
  rewrite Hsteps, Htime. split; [exact Hsorted|]. split.
  - eapply Forall_impl; [| exact Hall].
    intros st (k & Hk & ->). split.
    + apply Hclock. lia.
    + assert (Date_now H k <= Date_now H (clock_reads (world s)))
        by (apply Hclock; lia).
      lia.
  - assert (Date_now H 0 <= Date_now H (clock_reads (world s)))
      by (apply Hclock; lia).
    lia.
Qed.

Lemma try_block_stamped (agentConfig : AgentConfig)
  (input userId executionId : string) :
  holds (stamped H)
    (try_block H agentConfig input userId executionId (Date_now H 0))
    (fun out s =>
       match out with
       | Ok r => chronological H r
       | Throw _ => stamped H s
       end).
Proof.
  unfold try_block.
  aside u1. aside text. aside u2. aside schemas.
  eapply holds_bind with (R := fun _ => stamped H).
  { eapply holds_weaken;
      [apply while_loop_quiet with (I := stamped H) | auto |].
    - eapply holds_weaken;
        [apply loop_body_stamped | intros s [Hs _]; exact Hs | auto].
    - intros [? | ?]; auto. }
  intros _.
  apply holds_run. intros s Hs.
  unfold conclude, bind, get, modify, now, query, ret. cbn.
  assert (Hquery : forall q s1, stamped H s1 -> stamped H (snd (query H q s1))).
  { intros q s1 Hs1.
    apply (stamped_later s1); [reflexivity | simpl; lia | exact Hs1]. }
  destruct (_ && _); cbn;
    (destruct (db_query H _ _); cbn;
     [ apply (stamped_later s); [reflexivity | simpl; lia | exact Hs] |];
     destruct (db_query H _ _); cbn;
     [ apply (stamped_later s); [reflexivity | simpl; lia | exact Hs] |];
     apply (stamped_chronological _ s Hs); reflexivity).
Qed.

Lemma catch_block_stamped (executionId : string) (message : string) :
  holds (stamped H) (catch_block H executionId (Date_now H 0) message)
    (fun out s => forall r, out = Ok r -> chronological H r).
Proof.
  apply holds_run. intros s Hs r.
  unfold catch_block, bind, get, now, query, ret. cbn.
  destruct (db_query H _ _); cbn; intros E; [discriminate E|].
  injection E as <-.
  apply (stamped_chronological _ s Hs); reflexivity.
Qed.

End Clock.

(** X16. With a clock that never goes back, the steps of a result are
    in the order of time, each of them between the start of the
    execution and the time that the result reports. *)
Theorem steps_in_order_of_time (H : Host) (agentConfig : AgentConfig)
  (input userId : string) (r : ExecutionResult) (s : State) :
  monotone_clock H ->
  run H agentConfig input userId = (Ok r, s) ->
  chronological H r.
Proof.
  intros Hclock Hrun. unfold run, execute in Hrun.
  unfold bind at 1, now at 1 in Hrun. cbn in Hrun.
  unfold try_catch in Hrun.
  match type of Hrun with
  | context [try_block H agentConfig input userId (uuidv4 H) ?t ?s0] =>
      pose proof (try_block_stamped H Hclock agentConfig input userId (uuidv4 H)
                    s0) as Htry;
      destruct (try_block H agentConfig input userId (uuidv4 H) t s0)
        as [[r0 | e] s1] eqn:Etry
  end.
  - injection Hrun as <- <-.
    apply (Htry _ _ eq_refl). split; simpl; constructor.
  - apply (catch_block_stamped H Hclock _ e s1 _ _ Hrun); [| reflexivity].
    apply (Htry _ _ eq_refl). split; simpl; constructor.
Qed.

Lemma steps_in_order_of_time_witness :
  exists r s,
    run Samples.ticking_host (Samples.agent "gpt-4" 5 300 [])
      "What is 6 x 7?" "user-1" = (Ok r, s)
    /\ executionTimeMs r = 3000
    /\ chronological Samples.ticking_host r.
Proof.
  eexists. eexists. split; [vm_compute; reflexivity|].
  split; [reflexivity|].
  eapply (steps_in_order_of_time Samples.ticking_host
           (Samples.agent "gpt-4" 5 300 []) "What is 6 x 7?" "user-1").
  - intros a b Hab. cbv [Samples.ticking_host Date_now]. lia.
  - vm_compute. reflexivity.
Defined.

(** *** The statements sent to the store *)

Section Statements.

Variable H : Host.
Variable first : Query.

Let executionId := uuidv4 H.

(** Pushing a step and sending its entry, one after the other: the
    statements sent match the steps again, whether the entry is
    accepted or not. *)
Lemma holds_push_log {B} (P : State -> Prop) (st : ExecutionStep) (q : Query)
  (k : unit -> M B) (Q : Result B -> State -> Prop) :
  q = log_entry H executionId st ->
  (forall s, P s -> logged H first s) ->
  (forall e s, logged H first s -> Q (Throw e) s) ->
  holds (logged H first) (k tt) Q ->
  holds P (bind (modify (push_step st)) (fun _ => bind (query H q) k)) Q.
Proof.
  intros -> HP Hthrow Hk s out s' E Hs. apply HP in Hs.
  unfold bind at 1, modify at 1 in E.
  assert (Hsent : logged H first (snd (query H (log_entry H executionId st)
                                         (on_vars (push_step st) s)))).
  { unfold logged in *. simpl. rewrite Hs, map_app. reflexivity. }
  unfold bind in E.
  destruct (query H _ _) as [[[] | e] s1]; simpl in Hsent.
  - exact (Hk s1 out s' E Hsent).
  - injection E as <- <-. now apply Hthrow.
Qed.

Lemma processToolCall_logged (response : LLMClient.LLMResponse)
  (toolCall : LLMClient.ToolCall) :
  holds (logged H first) (processToolCall H executionId response toolCall)
    (fun _ s => logged H first s).
Proof.
  unfold processToolCall, logStep.
  apply holds_look. intros s0.
  apply holds_pass; [intros s Hs; exact Hs | auto | intros t1].
  apply holds_push_log; [reflexivity | auto | auto |].
  apply holds_pass; [intros s Hs; exact Hs | auto | intros t2].
  apply holds_push_log; [reflexivity | auto | auto |].
  apply holds_pass;
    [intros s Hs; rewrite observe_state; exact Hs | auto | intros text].
  apply holds_pass; [intros s Hs; exact Hs | auto | intros t3].
  apply holds_push_log; [reflexivity | auto | auto |].
  apply holds_pass; [intros s Hs; exact Hs | auto | intros _].
  apply holds_run. intros s Hs. exact Hs.
Qed.

Lemma answer_logged (response : LLMClient.LLMResponse) :
  holds (logged H first) (answer H executionId response)
    (fun _ s => logged H first s).
Proof.
  unfold answer, logStep.
  apply holds_look. intros s0.
  apply holds_pass; [intros s Hs; exact Hs | auto | intros _].
  apply holds_pass; [intros s Hs; exact Hs | auto | intros t].
  apply holds_push_log; [reflexivity | auto | auto |].
  apply holds_run. auto.
Qed.

Lemma loop_body_logged (agentConfig : AgentConfig) (startTime : Z)
  (tools : list value) :
  holds (logged H first) (loop_body H agentConfig executionId startTime tools)
    (fun _ s => logged H first s).
Proof.
  unfold loop_body.
  apply holds_pass; [intros s Hs; exact Hs | auto | intros _].
  apply holds_pass; [intros s Hs; exact Hs | auto | intros t].
  destruct (Z.ltb _ _).
  - apply holds_pass; [intros s Hs; exact Hs | auto | intros _].
    apply holds_pass; [intros s Hs; exact Hs | auto | intros _].
    apply holds_run. auto.
  - apply holds_look. intros s0.
    apply holds_pass; [intros s Hs; exact Hs | auto | intros response].
    apply holds_pass; [intros s Hs; exact Hs | auto | intros _].
    destruct (no_tool_calls response).
    + apply answer_logged.
    + apply holds_then; [| intros _; apply holds_run; auto].
      apply holds_for_of. intros toolCall. apply processToolCall_logged.
Qed.

Lemma while_loop_logged (agentConfig : AgentConfig) (fuel : nat) (startTime : Z)
  (tools : list value) :
  holds (logged H first)
    (while_loop H fuel agentConfig executionId startTime tools)
    (fun _ s => logged H first s).
Proof.
  apply while_loop_quiet.
  eapply holds_weaken; [apply loop_body_logged | intros s [Hs _]; exact Hs | auto].
Qed.

Lemma logged_closing (s : State) :
  logged H first s -> logged_and_closing H first s.
Proof.
  intros Hs. exists []. split; [| constructor].
  rewrite app_nil_r. exact Hs.
Qed.

(** The code after the loop sends the two closing statements, and
    returns what it has written in the first. *)
Lemma conclude_statements (agentConfig : AgentConfig) (userId : string)
  (startTime : Z) :
  holds (logged H first)
    (conclude H agentConfig userId executionId startTime)
    (fun out s =>
       match out with
       | Ok r =>
           error r = None
           /\ queries (world s)
              = first :: map (log_entry H executionId) (steps r)
                  ++ [ update_execution (output r) (status r) (iteration (vars s))
                         (tokensUsed r) (cost r) (executionTimeMs r) executionId;
                       insert_usage_tracking userId executionId
                         (tokensUsed r) (cost r) ]
       | Throw _ => logged_and_closing H first s
       end).
Proof.
  apply holds_run. intros s Hs. unfold logged in Hs.
  unfold conclude, bind, get, modify, now, query, ret. cbn.
  destruct (_ && _); cbn;
    (destruct (db_query H _ _); cbn;
     [ eexists [_]; simpl; split; [rewrite Hs; reflexivity | repeat constructor] |];
     destruct (db_query H _ _); cbn;
     [ eexists [_; _]; simpl; split;
       [rewrite Hs, <- app_assoc; reflexivity | repeat constructor]
     | split; [reflexivity | rewrite Hs, <- app_assoc; reflexivity] ]).
Qed.

Lemma try_block_statements (agentConfig : AgentConfig) (input userId : string)
  (startTime : Z) :
  first = insert_execution executionId (id agentConfig) userId input ->
  holds (fun s => queries (world s) = [] /\ cur_steps (vars s) = [])
    (try_block H agentConfig input userId executionId startTime)
    (fun out s =>
       match out with
       | Ok r =>
           error r = None
           /\ queries (world s)
              = first :: map (log_entry H executionId) (steps r)
                  ++ [ update_execution (output r) (status r) (iteration (vars s))
                         (tokensUsed r) (cost r) (executionTimeMs r) executionId;
                       insert_usage_tracking userId executionId
                         (tokensUsed r) (cost r) ]
       | Throw _ => logged_and_closing H first s
       end).
Proof.
  intros Hfirst. unfold try_block.
  assert (Hthrow : forall (e : string) s,
             logged H first s -> logged_and_closing H first s)
    by (intros _; apply logged_closing).
  eapply holds_bind with (R := fun _ => logged H first).
  { apply holds_run. intros s [Hq Hsteps].
    assert (Hsent : logged H first
                      (snd (query H (insert_execution executionId (id agentConfig)
                                       userId input) s))).
    { unfold logged. simpl. rewrite Hq, Hsteps, Hfirst. reflexivity. }
    destruct (fst _); [exact Hsent | now apply logged_closing]. }
  intros _.
  apply holds_pass; [intros s Hs; exact Hs | exact Hthrow | intros prompt].
  apply holds_pass; [intros s Hs; exact Hs | exact Hthrow | intros _].
  apply holds_pass; [intros s Hs; exact Hs | exact Hthrow | intros tools].
  eapply holds_bind with (R := fun _ => logged H first).
  { eapply holds_weaken; [apply while_loop_logged | auto |].
    intros [[] | e] s Hs; [exact Hs | now apply logged_closing]. }
  intros _. apply conclude_statements.
Qed.

Lemma catch_block_statements (startTime : Z) (message : string) :
  holds (logged_and_closing H first)
    (catch_block H executionId startTime message)
    (fun out s =>
       forall r, out = Ok r ->
         error r = Some message
         /\ status r = Error
         /\ exists attempts,
              queries (world s)
              = first :: map (log_entry H executionId) (steps r) ++ attempts
                  ++ [update_execution_error message (executionTimeMs r) executionId]
              /\ Forall closing attempts).
Proof.
  apply holds_run. intros s (attempts & Hs & Hclosing) r.
  unfold catch_block, bind, get, now, query, ret. cbn.
  destruct (db_query H _ _); cbn; intros E; [discriminate E|].
  injection E as <-. cbn. repeat split.
  exists attempts. split; [| exact Hclosing].
  rewrite Hs. cbn. now rewrite <- app_assoc.
Qed.

End Statements.

(** X17. The statements sent by an execution that resolved: the
    creation of the execution, one entry of the step log per step of
    the result, in their order, and the closing statements.  Without
    an error these are the update and the usage record, which carry
    the output, the status, the tokens, the cost and the time of the
    result; with an error the last one is the update that records the
    message. *)
Theorem statements_sent (H : Host) (agentConfig : AgentConfig)
  (input userId : string) (r : ExecutionResult) (s : State) :
  run H agentConfig input userId = (Ok r, s) ->
  statements_of H agentConfig input userId r s.
Proof.
  intros Hrun. unfold run, execute in Hrun.
  unfold bind at 1, now at 1 in Hrun. cbn in Hrun.
  set (first := insert_execution (uuidv4 H) (id agentConfig) userId input).
  unfold try_catch in Hrun.
  match type of Hrun with
  | context [try_block H agentConfig input userId (uuidv4 H) ?t ?s0] =>
      pose proof (try_block_statements H first agentConfig input userId t
                    eq_refl s0) as Htry;
      destruct (try_block H agentConfig input userId (uuidv4 H) t s0)
        as [[r0 | e] s1] eqn:Etry
  end.
  - injection Hrun as <- <-.
    destruct (Htry _ _ eq_refl (conj eq_refl eq_refl)) as [Herr Hq].
    unfold statements_of. rewrite Herr. exact Hq.
  - specialize (Htry _ _ eq_refl (conj eq_refl eq_refl)). cbn in Htry.
    destruct (catch_block_statements H first _ e s1 _ _ Hrun Htry r eq_refl)
      as (Herr & Hstatus & Hq).
    unfold statements_of. rewrite Herr. split; [exact Hstatus | exact Hq].
Qed.

Lemma statements_sent_witness :
  exists r s,
    run Samples.throwing_tool_host (Samples.agent "gpt-4" 5 300 [])
      "What is 6 x 7?" "user-1" = (Ok r, s)
    /\ statements_of Samples.throwing_tool_host (Samples.agent "gpt-4" 5 300 [])
         "What is 6 x 7?" "user-1" r s.
Proof.
  eexists. eexists. split; [vm_compute; reflexivity|].
  apply (statements_sent Samples.throwing_tool_host
           (Samples.agent "gpt-4" 5 300 []) "What is 6 x 7?" "user-1").
  vm_compute. reflexivity.
Defined.


End ExecutionFacts.


(* ===================================================================== *)
(** ** The handlers of [/api/executions] *)
(* ===================================================================== *)

Module ExecutionsRouteFacts.

Import ReActEngine ExecutionsRoute Notions.

Local Open Scope result_scope.

(** A handler whose [catch] sends a response always sends one: that
    of its [try] block, or the one of the [catch]. *)
Lemma try_catch_reply (m : Result Reply) (fallback : Reply) :
  exists reply,
    ResultMonad.try_catch m (fun _ => Ok fallback) = Ok reply
    /\ (m = Ok reply \/ reply = fallback).
Proof.
  destruct m as [reply | e]; simpl; eauto.
Qed.

Lemma authenticated_none (req : Request) :
  authenticated req = None ->
  String.eqb (match user req with Some u => user_id u | None => "" end) "" = true.
Proof.
  unfold authenticated. destruct (user req) as [u |]; [| reflexivity].
  destruct (String.eqb (user_id u) ""); [reflexivity | discriminate].
Qed.

Lemma authenticated_some (req : Request) (userId : string) :
  authenticated req = Some userId ->
  match user req with Some u => user_id u | None => "" end = userId
  /\ String.eqb userId "" = false.
Proof.
  unfold authenticated. destruct (user req) as [u |]; [| discriminate].
  destruct (String.eqb (user_id u) "") eqn:E; [discriminate|].
  intros E'. injection E' as <-. auto.
Qed.

(** X18. The handler always sends a response, with one of five status
    codes.  Without a user it answers 401 whatever the body holds; and
    it answers 200 only with the result that the engine resolved to,
    for the agent that the store returned first. *)
Theorem post_execution_replies (B : Backend) (req : Request) :
  exists reply,
    post_execution B req = Ok reply
    /\ In (code reply) [200; 400; 401; 404; 500]
    /\ (authenticated req = None ->
        reply = {| code := 401; payload := error_payload "Unauthorized" |})
    /\ (code reply = 200 ->
        exists userId agentId input agent others result,
          authenticated req = Some userId
          /\ get_prop (body req) "agentId" = Ok agentId
          /\ get_prop (body req) "input" = Ok input
          /\ truthy agentId = true
          /\ truthy input = true
          /\ select_agent B agentId userId = Ok (agent :: others)
          /\ reactEngine_execute B (config_of agent) input userId = Ok result
          /\ payload reply = execution_payload result).
Proof.
  unfold post_execution.
  match goal with |- context [ResultMonad.try_catch ?m (fun _ => Ok ?r)] =>
    destruct (try_catch_reply m r) as (reply & Hreply & Hfrom)
  end.
  exists reply. split; [exact Hreply|].
  destruct Hfrom as [Hbody | ->].
  2:{ split; [simpl; tauto|]. split.
      - intros Hnone. apply authenticated_none in Hnone.
        cbv zeta in Hreply. rewrite Hnone in Hreply. simpl in Hreply.
        now injection Hreply as <-.
      - simpl. intros E. discriminate E. }
  cbv zeta in Hbody.
  destruct (authenticated req) as [userId |] eqn:Hauth.
  - destruct (authenticated_some req userId Hauth) as [Hid Hnonempty].
    rewrite Hid, Hnonempty in Hbody.
    destruct (get_prop (body req) "agentId") as [agentId | e] eqn:HagentId;
      [| discriminate Hbody].
    destruct (get_prop (body req) "input") as [input | e] eqn:Hinput;
      [| discriminate Hbody].
    simpl in Hbody.
    destruct (truthy agentId) eqn:Ha; simpl in Hbody.
    2:{ injection Hbody as <-. simpl.
        split; [tauto|]. split; [discriminate|]. intros E. discriminate E. }
    destruct (truthy input) eqn:Hi; simpl in Hbody.
    2:{ injection Hbody as <-. simpl.
        split; [tauto|]. split; [discriminate|]. intros E. discriminate E. }
    destruct (select_agent B agentId userId) as [[| agent others] | e] eqn:Hrows;
      simpl in Hbody; [| | discriminate Hbody].
    { injection Hbody as <-. simpl.
      split; [tauto|]. split; [discriminate|]. intros E. discriminate E. }
    destruct (reactEngine_execute B (config_of agent) input userId)
      as [result | e] eqn:Hrun; simpl in Hbody; [| discriminate Hbody].
    injection Hbody as <-. simpl.
    split; [tauto|]. split; [discriminate|]. intros _.
    exists userId, agentId, input, agent, others, result.
    repeat split; assumption.
  - rewrite (authenticated_none req Hauth) in Hbody.
    injection Hbody as <-. simpl.
    split; [tauto|]. split; [reflexivity|]. intros E. discriminate E.
Qed.

(** X19. With the ReAct engine behind it, the handler answers a
    question put to an agent of the store with what [execute] resolves
    to, under the status code 200 whatever the status of the result;
    and with the code 500 when [execute] rejects. *)
Theorem post_execution_runs_engine (B : Backend) (H : Host) (req : Request)
  (userId : string) (agentId : value) (input : string)
  (agent : AgentRow) (others : list AgentRow) :
  runs_engine B H ->
  authenticated req = Some userId ->
  get_prop (body req) "agentId" = Ok agentId ->
  truthy agentId = true ->
  get_prop (body req) "input" = Ok (VStr input) ->
  input <> "" ->
  select_agent B agentId userId = Ok (agent :: others) ->
  post_execution B req =
  Ok match fst (run H (config_of agent) input userId) with
     | Ok result => {| code := 200; payload := execution_payload result |}
     | Throw _ =>
         {| code := 500; payload := error_payload "Failed to execute agent" |}
     end.
Proof.
  intros Hengine Hauth HagentId Ha Hinput Hnonempty Hrows.
  destruct (authenticated_some req userId Hauth) as [Hid Huser].
  unfold post_execution. cbv zeta.
  rewrite Hid, Huser, HagentId, Hinput. simpl.
  rewrite Ha. simpl.
  apply String.eqb_neq in Hnonempty. rewrite Hnonempty. simpl.
  rewrite Hrows. simpl.
  rewrite Hengine.
  destruct (fst (run H (config_of agent) input userId)); reflexivity.
Qed.

Lemma post_execution_runs_engine_witness :
  post_execution (Backends.engine_on Samples.gateway_down_host) Backends.question
  = Ok match fst (run Samples.gateway_down_host (config_of Backends.helper_row)
                    "What is 6 x 7?" "user-1") with
       | Ok result => {| code := 200; payload := execution_payload result |}
       | Throw _ =>
           {| code := 500; payload := error_payload "Failed to execute agent" |}
       end.
Proof.
  apply (post_execution_runs_engine (Backends.engine_on Samples.gateway_down_host)
           Samples.gateway_down_host Backends.question "user-1"
           (VStr "agent-1") "What is 6 x 7?" Backends.helper_row []).
  - intros agentConfig input userId. reflexivity.
  - reflexivity.
  - reflexivity.
  - reflexivity.
  - reflexivity.
  - discriminate.
  - reflexivity.
Defined.

(** The gateway is down: the result has status [Error], and the
    response has status code 200. *)
Example post_execution_error_result :
  exists result,
    post_execution (Backends.engine_on Samples.gateway_down_host) Backends.question
    = Ok {| code := 200; payload := execution_payload result |}
    /\ status result = Error
    /\ error result = Some "Connection error.".
Proof.
  eexists. split; [vm_compute; reflexivity|]. split; reflexivity.
Qed.

(** The store is down when the engine runs: [execute] rejects and the
    response has status code 500. *)
Example post_execution_engine_rejects :
  post_execution (Backends.engine_on Samples.store_down_host) Backends.question
  = Ok {| code := 500; payload := error_payload "Failed to execute agent" |}.
Proof.
  vm_compute. reflexivity.
Qed.

(** An empty input is refused before the store is asked anything. *)
Example post_execution_empty_input :
  forall B,
    post_execution B
      {| user := Some Backends.alice;
         body := VObj [("agentId", VStr "agent-1"); ("input", VStr "")];
         params := VObj [];
         query := VObj [] |}
    = Ok {| code := 400;
            payload := error_payload "Agent ID and input are required" |}.
Proof.
  intros B. reflexivity.
Qed.

(** X20. The statement that [GET /api/executions] builds refers to
    the parameters [$1], [$2], ... in this order, as many as it has
    values.  The values are the id of the user, the agent id when the
    query string holds one that is truthy, then the limit and the
    offset, which are 50 and 0 only when the query string has none. *)
Theorem listing_statement_parameters (userId q : value) (sql : string)
  (values : list value) :
  listing_statement userId q = Ok (sql, values) ->
  parameters_of sql = seq 1 (List.length values)
  /\ exists agentId limit offset,
       get_prop q "agentId" = Ok agentId
       /\ get_prop q "limit" = Ok limit
       /\ get_prop q "offset" = Ok offset
       /\ values = ([userId] ++ (if truthy agentId then [agentId] else [])
                    ++ [defaulted limit (VNum 50); defaulted offset (VNum 0)])%list.
Proof.
  unfold listing_statement.
  destruct (get_prop q "agentId") as [agentId | e] eqn:HagentId; [| discriminate].
  destruct (get_prop q "limit") as [limit | e] eqn:Hlimit; [| discriminate].
  destruct (get_prop q "offset") as [offset | e] eqn:Hoffset; [| discriminate].
  unfold ResultMonad.bind. cbv beta iota zeta.
  destruct (truthy agentId) eqn:Hfilter; cbv beta iota zeta;
    intros E; injection E as <- <-.
  - split; [vm_compute; reflexivity|].
    exists agentId, limit, offset. rewrite Hfilter. repeat split.
  - split; [vm_compute; reflexivity|].
    exists agentId, limit, offset. rewrite Hfilter. repeat split.
Qed.

Lemma listing_statement_parameters_witness :
  exists sql values,
    listing_statement (VStr "user-1")
      (VObj [("agentId", VStr "agent-1"); ("limit", VStr "10")]) = Ok (sql, values)
    /\ parameters_of sql = seq 1 (List.length values)
    /\ values = [VStr "user-1"; VStr "agent-1"; VStr "10"; VNum 0].
Proof.
  eexists. eexists. split; [vm_compute; reflexivity|].
  destruct (listing_statement_parameters (VStr "user-1")
              (VObj [("agentId", VStr "agent-1"); ("limit", VStr "10")]) _ _
              eq_refl) as (Hparameters & agentId & limit & offset & Ha & Hl & Ho & Hvalues).
  split; [exact Hparameters|]. reflexivity.
Defined.

Lemma owner_authenticated (req : Request) :
  match authenticated req with
  | Some userId => owner req = VStr userId /\ truthy (owner req) = true
  | None => truthy (owner req) = false
  end.
Proof.
  unfold authenticated, owner. destruct (user req) as [u |]; [| reflexivity].
  simpl. destruct (String.eqb (user_id u) ""); simpl; auto.
Qed.

(** X21. [GET /api/executions/:id] always sends a response, with one
    of three status codes, and never 401: the store is asked also
    without a user, with [undefined] as the second value.  It answers
    200 with the first row that the store returned, and 404 when the
    store returned no row. *)
Theorem get_execution_replies (B : Backend) (req : Request) :
  exists reply,
    get_execution B req = Ok reply
    /\ In (code reply) [200; 404; 500]
    /\ (code reply = 200 ->
        exists id row others,
          get_prop (params req) "id" = Ok id
          /\ db_query B execution_statement [id; owner req] = Ok (row :: others)
          /\ payload reply = row_payload row)
    /\ (code reply = 404 ->
        exists id,
          get_prop (params req) "id" = Ok id
          /\ db_query B execution_statement [id; owner req] = Ok []).
Proof.
  unfold get_execution.
  match goal with |- context [ResultMonad.try_catch ?m (fun _ => Ok ?r)] =>
    destruct (try_catch_reply m r) as (reply & Hreply & Hfrom)
  end.
  exists reply. split; [exact Hreply|].
  destruct Hfrom as [Hbody | ->].
  2:{ simpl. split; [tauto|]. split; intros E; discriminate E. }
  cbv zeta in Hbody. unfold ResultMonad.bind in Hbody.
  destruct (get_prop (params req) "id") as [id | e]; [| discriminate Hbody].
  destruct (db_query B execution_statement [id; owner req])
    as [[| row others] | e] eqn:Hrows; [| | discriminate Hbody];
    injection Hbody as <-; simpl.
  - split; [tauto|]. split; [intros E; discriminate E|].
    intros _. now exists id.
  - split; [tauto|]. split; [| intros E; discriminate E].
    intros _. now exists id, row, others.
Qed.

(** X22. [GET /api/executions] always sends a response, with one of
    three status codes.  Without a user it answers 401 whatever the
    query string holds; and it answers 200 only with all the rows
    that the store returned for the statement built for the user. *)
Theorem get_executions_replies (B : Backend) (req : Request) :
  exists reply,
    get_executions B req = Ok reply
    /\ In (code reply) [200; 401; 500]
    /\ (authenticated req = None ->
        reply = {| code := 401; payload := error_payload "Unauthorized" |})
    /\ (code reply = 200 ->
        exists userId sql values rows,
          authenticated req = Some userId
          /\ listing_statement (VStr userId) (query req) = Ok (sql, values)
          /\ db_query B sql values = Ok rows
          /\ payload reply = rows_payload rows).
Proof.
  unfold get_executions.
  match goal with |- context [ResultMonad.try_catch ?m (fun _ => Ok ?r)] =>
    destruct (try_catch_reply m r) as (reply & Hreply & Hfrom)
  end.
  exists reply. split; [exact Hreply|].
  pose proof (owner_authenticated req) as Howner.
  destruct Hfrom as [Hbody | ->].
  2:{ simpl. split; [tauto|]. split; [| intros E; discriminate E].
      intros Hnone. rewrite Hnone in Howner.
      cbv zeta in Hreply. rewrite Howner in Hreply. simpl in Hreply.
      now injection Hreply as <-. }
  cbv zeta in Hbody.
  destruct (authenticated req) as [userId |].
  - destruct Howner as [Hid Htruthy]. rewrite Htruthy, Hid in Hbody.
    simpl negb in Hbody. cbv iota in Hbody. unfold ResultMonad.bind in Hbody.
    destruct (listing_statement (VStr userId) (query req)) as [[sql values] | e]
      eqn:Hstatement; [| discriminate Hbody].
    simpl fst in Hbody. simpl snd in Hbody.
    destruct (db_query B sql values) as [rows | e] eqn:Hrows; [| discriminate Hbody].
    injection Hbody as <-. simpl.
    split; [tauto|]. split; [discriminate|]. intros _.
    now exists userId, sql, values, rows.
  - rewrite Howner in Hbody. simpl in Hbody. injection Hbody as <-. simpl.
    split; [tauto|]. split; [reflexivity|]. intros E. discriminate E.
Qed.

(** A query string that cannot be destructured. *)
Example get_executions_no_query :
  forall B,
    get_executions B
      {| user := Some Backends.alice; body := VUndefined;
         params := VObj []; query := VUndefined |}
    = Ok {| code := 500; payload := error_payload "Failed to fetch executions" |}.
Proof.
  intros B. reflexivity.
Qed.

End ExecutionsRouteFacts.
